(** * Watch.ai: the tool-calling agent loop, its tools and its stream decoders

    A shallow embedding of the agent code of the repository:
    - the server ([server/index.js]): the tool handlers, the
      [/api/agent/chat] loop and the [/api/agent/approve] endpoint;
    - the web client ([client/src/services/agentService.js] and the approval
      handler of [ChatInterface.jsx]);
    - the editor extension ([vscode/extensions/watch-ai/src/extension.ts]):
      its stream decoder, its agent loop, its tools and its pending-edit table.

    A JavaScript string is modelled as a [string] that holds the bytes of
    its text in UTF-8 (a lone surrogate as the three bytes of its code
    unit), so that the contents of files and of responses are the values the
    code works on; what the language counts in code units ([length],
    [substring]) is counted here through the bytes.  Objects used as tables
    are modelled as [gmap], arrays as lists.  What the code obtains
    from the outside (the model endpoint, [JSON.parse], [localeCompare], the
    shell, the user) is a field of an environment class, so every statement
    holds for whatever these return. *)

From Stdlib Require Import ZArith Ascii String List Bool Lia.
From stdpp Require Import base option list gmap strings pretty sorting.

Local Open Scope Z_scope.
Local Open Scope nat_scope.
Local Open Scope list_scope.
Local Open Scope stdpp_scope.

(** ** A JavaScript call that returns or throws *)

Inductive exn (A : Type) : Type :=
| Ret (a : A)
| Throw (message : string).
Arguments Ret {A} a.
Arguments Throw {A} message.

#[global] Instance exn_ret : MRet exn := λ A a, Ret a.
#[global] Instance exn_bind : MBind exn := λ A B k x,
  match x with
  | Ret a => k a
  | Throw m => Throw m
  end.

(** ** String primitives of the language *)

Module JS.

(** The code units of the character a byte starts: none for a byte that
    continues a character, two for the first byte of a character of four
    bytes (a surrogate pair). *)
Definition units_of (c : ascii) : nat :=
  let n := N_of_ascii c in
  if (n <? 128)%N then 1
  else if (n <? 192)%N then 0
  else if (n <? 240)%N then 1
  else 2.

(** [s.length] *)
Fixpoint length (s : string) : nat :=
  match s with
  | EmptyString => 0
  | String c r => units_of c + length r
  end.

(** [strip_prefix p s]: the rest of [s] after its prefix [p], when [p] is
    one. *)
Fixpoint strip_prefix (p s : string) : option string :=
  match p, s with
  | EmptyString, _ => Some s
  | String a p', String b s' =>
      if Ascii.eqb a b then strip_prefix p' s' else None
  | String _ _, EmptyString => None
  end.

(** [s.startsWith(p)] *)
Definition startsWith (s p : string) : bool :=
  match strip_prefix p s with Some _ => true | None => false end.

(** The leftmost match of [p] in [s], as the text before it and the text
    after it: the search every string method below starts with
    ([indexOf], [includes], [replace] with a string pattern). *)
Fixpoint search (p s : string) : option (string * string) :=
  match strip_prefix p s with
  | Some rest => Some (EmptyString, rest)
  | None =>
      match s with
      | EmptyString => None
      | String c s' =>
          match search p s' with
          | Some (before, after) => Some (String c before, after)
          | None => None
          end
      end
  end.

(** [s.indexOf(p)] *)
Definition indexOf (s p : string) : Z :=
  match search p s with
  | Some (before, _) => Z.of_nat (length before)
  | None => (-1)%Z
  end.

(** [s.includes(p)] *)
Definition includes (s p : string) : bool :=
  match search p s with Some _ => true | None => false end.

(** GetSubstitution of ECMAScript for a string pattern (no capture groups):
    in the replacement text, [$$] stands for a dollar, [$&] for the matched
    text, [$`] for the text before the match and [$'] for the text after
    it; a dollar followed by anything else is kept as it is. *)
Fixpoint GetSubstitution (matched before after template : string) : string :=
  match template with
  | EmptyString => EmptyString
  | String c r =>
      if Ascii.eqb c "$" then
        match r with
        | String d r' =>
            if Ascii.eqb d "$"
            then String "$" (GetSubstitution matched before after r')
            else if Ascii.eqb d "&"
            then matched +:+ GetSubstitution matched before after r'
            else if Ascii.eqb d "`"
            then before +:+ GetSubstitution matched before after r'
            else if Ascii.eqb d "'"
            then after +:+ GetSubstitution matched before after r'
            else String c (GetSubstitution matched before after r)
        | EmptyString => String c EmptyString
        end
      else String c (GetSubstitution matched before after r)
  end.

(** [s.replace(pattern, replacement)] with two strings: only the leftmost
    match is replaced, by the substitution of [replacement]. *)
Definition replace (s pattern replacement : string) : string :=
  match search pattern s with
  | None => s
  | Some (before, after) =>
      before +:+ GetSubstitution pattern before after replacement +:+ after
  end.

Definition newline : ascii := "010"%char.

(** [s.split("\n")]: never empty. *)
Fixpoint split_lines (s : string) : list string :=
  match s with
  | EmptyString => [EmptyString]
  | String c r =>
      if Ascii.eqb c newline then EmptyString :: split_lines r
      else match split_lines r with
           | h :: t => String c h :: t
           | [] => [String c EmptyString]
           end
  end.

(** [lines.pop() || ""] and what is left of [lines]. *)
Fixpoint pop (lines : list string) : list string * string :=
  match lines with
  | [] => ([], EmptyString)
  | [l] => ([], l)
  | l :: rest => let '(front, last) := pop rest in (l :: front, last)
  end.

(** The white space and the line terminators of the language, which [trim]
    strips, by the bytes of each: the six of one byte (tab, line feed,
    vertical tab, form feed, carriage return, space), U+00A0 of two, and of
    three bytes U+1680, U+2000 to U+200A, U+2028, U+2029, U+202F, U+205F,
    U+3000 and U+FEFF. *)
Definition white1 (a : ascii) : bool :=
  match nat_of_ascii a with
  | 9 | 10 | 11 | 12 | 13 | 32 => true
  | _ => false
  end.

Definition white2 (a b : ascii) : bool :=
  (nat_of_ascii a =? 194) && (nat_of_ascii b =? 160).

Definition white3 (a b c : ascii) : bool :=
  let '(a, b, c) := (nat_of_ascii a, nat_of_ascii b, nat_of_ascii c) in
  ((a =? 225) && (b =? 154) && (c =? 128))
  || ((a =? 226) && (b =? 128)
      && (((128 <=? c) && (c <=? 138)) || (c =? 168) || (c =? 169)
          || (c =? 175)))
  || ((a =? 226) && (b =? 129) && (c =? 159))
  || ((a =? 227) && (b =? 128) && (c =? 128))
  || ((a =? 239) && (b =? 187) && (c =? 191)).

(** The text without the characters at its start that the three tests
    take, each on the bytes of one character. *)
Fixpoint strip (w1 : ascii → bool) (w2 : ascii → ascii → bool)
    (w3 : ascii → ascii → ascii → bool) (s : string) : string :=
  match s with
  | EmptyString => EmptyString
  | String a r1 =>
      if w1 a then strip w1 w2 w3 r1
      else
        match r1 with
        | String b r2 =>
            if w2 a b then strip w1 w2 w3 r2
            else
              match r2 with
              | String c r3 => if w3 a b c then strip w1 w2 w3 r3 else s
              | EmptyString => s
              end
        | EmptyString => s
        end
  end.

Definition trimStart (s : string) : string := strip white1 white2 white3 s.

(** The same from the end: on the text reversed, each character has its
    bytes in the reverse order. *)
Definition trimEnd (s : string) : string :=
  String.rev
    (strip white1 (λ b a, white2 a b) (λ c b a, white3 a b c) (String.rev s)).

(** [s.trim()] *)
Definition trim (s : string) : string := trimEnd (trimStart s).

Fixpoint drop (n : nat) (s : string) : string :=
  match n, s with
  | S n', String _ r => drop n' r
  | _, _ => s
  end.

Fixpoint take (n : nat) (s : string) : string :=
  match n, s with
  | S n', String c r => String c (take n' r)
  | _, _ => EmptyString
  end.

(** [s.endsWith(p)] *)
Definition endsWith (s p : string) : bool :=
  (String.length p <=? String.length s)
  && String.eqb (drop (String.length s - String.length p) s) p.

(** [s.slice(n)], where the [n] code units left out are of one byte
    each. *)
Definition slice := drop.

(** A byte that continues a character. *)
Definition continuation (c : ascii) : bool :=
  let n := N_of_ascii c in (128 <=? n)%N && (n <? 192)%N.

(** The high surrogate of a character of four bytes, from the first three
    of them, as the three bytes of that code unit: the ten bits of the
    surrogate are those that follow the first five of the character. *)
Definition high_surrogate (a b c : ascii) : string :=
  let w :=
    ((N_of_ascii a mod 8) * 256 + (N_of_ascii b mod 64) * 4
     + (N_of_ascii c mod 64) / 16 - 64)%N in
  String (ascii_of_N 237)
    (String (ascii_of_N (160 + w / 64))
       (String (ascii_of_N (128 + w mod 64)) EmptyString)).

(** [s.substring(0, n)]: the first [n] code units.  A character of four
    bytes is two of them; when only the first is taken, what is left of the
    character is its high surrogate. *)
Fixpoint substring0 (n : nat) (s : string) : string :=
  match s with
  | EmptyString => EmptyString
  | String a r =>
      if continuation a then String a (substring0 n r)
      else
        match n with
        | 0 => EmptyString
        | S n' =>
            if units_of a =? 2 then
              match n' with
              | 0 =>
                  match r with
                  | String b (String c _) => high_surrogate a b c
                  | _ => EmptyString
                  end
              | S n'' => String a (substring0 n'' r)
              end
            else String a (substring0 n' r)
        end
  end.

(** The values a parsed arguments object holds.  The numbers are the
    integers that [JSON.parse] reads exactly and that ToString prints by
    their digits, those of a magnitude below 2^53. *)
Inductive value : Type :=
| VStr (s : string)
| VBool (b : bool)
| VNum (n : Z).

(** A parsed flat object; a missing key reads as [undefined] ([None]). *)
Abbreviation object := (gmap string value).

(** ToString of a value or of [undefined]. *)
Definition ToString (v : option value) : string :=
  match v with
  | None => "undefined"
  | Some (VStr s) => s
  | Some (VBool true) => "true"
  | Some (VBool false) => "false"
  | Some (VNum n) => pretty n
  end.

(** ToBoolean. *)
Definition truthy (v : option value) : bool :=
  match v with
  | None => false
  | Some (VStr s) => negb (String.eqb s "")
  | Some (VBool b) => b
  | Some (VNum n) => negb (n =? 0)%Z
  end.

(** [a || b] on two values that may be [undefined]. *)
Definition or (a b : option value) : option value :=
  if truthy a then a else b.

(** Truthiness of a string that may be [undefined]. *)
Definition nonempty (s : option string) : bool :=
  match s with
  | Some s => negb (String.eqb s "")
  | None => false
  end.

(** [a.sort(cmp)]: the sort is stable; an element goes before the first
    one it does not compare greater than. *)
Fixpoint sort_insert {A} (cmp : A → A → Z) (x : A) (l : list A) : list A :=
  match l with
  | [] => [x]
  | y :: t =>
      if (cmp x y <=? 0)%Z then x :: y :: t else y :: sort_insert cmp x t
  end.

Definition sort {A} (cmp : A → A → Z) (l : list A) : list A :=
  foldr (sort_insert cmp) [] l.

(** The double quote, for the texts that hold one. *)
Definition dquote : string := String "034"%char EmptyString.

(** [a[i] = x] on an array with holes: writing past the end lengthens the
    array, the skipped positions stay empty. *)
Fixpoint array_set {A} (a : list (option A)) (i : nat) (x : A)
  : list (option A) :=
  match i, a with
  | 0, [] => [Some x]
  | 0, _ :: t => Some x :: t
  | S i', [] => None :: array_set [] i' x
  | S i', h :: t => h :: array_set t i' x
  end.

(** [a[i]] on an array with holes. *)
Definition array_get {A} (a : list (option A)) (i : nat) : option A :=
  mjoin (a !! i).

(** The elements a [filter] or a [for ... of] callback can see as truthy
    objects: the holes are dropped. *)
Definition present {A} (a : list (option A)) : list A := omap id a.

End JS.

(** ** The file system, as far as the tools look at it

    A path names a regular file with its text or a directory with the names
    [readdir] lists for it.  A name listed in a directory and absent from the
    map is an entry whose [stat] throws (a dangling link, a file removed in
    between).  Paths are taken as normalised: no trailing separator, no dot
    segments. *)

Module Fs.

Inductive node : Type :=
| File (content : string)
| Dir (names : list string).

Abbreviation t := (gmap string node).

Definition ENOENT : string := "ENOENT: no such file or directory".
Definition EISDIR : string := "EISDIR: illegal operation on a directory".
Definition ENOTDIR : string := "ENOTDIR: not a directory".
Definition EEXIST : string := "EEXIST: file already exists".
Definition ENOTEMPTY : string := "ENOTEMPTY: directory not empty".

(** [path.join(dir, item)] *)
Definition join (dir item : string) : string := dir +:+ "/" +:+ item.

(** The path cut at its last separator. *)
Fixpoint split_path (p : string) : option (string * string) :=
  match p with
  | EmptyString => None
  | String c r =>
      match split_path r with
      | Some (d, b) => Some (String c d, b)
      | None => if Ascii.eqb c "/" then Some (EmptyString, r) else None
      end
  end.

(** [path.dirname(p)] *)
Definition dirname (p : string) : string :=
  match split_path p with
  | Some (EmptyString, _) => "/"
  | Some (d, _) => d
  | None => "."
  end.

(** [path.basename(p)] *)
Definition basename (p : string) : string :=
  match split_path p with
  | Some (_, b) => b
  | None => p
  end.

(** [fs.existsSync(p)] *)
Definition existsSync (fs : t) (p : string) : bool :=
  match fs !! p with Some _ => true | None => false end.

(** [fs.statSync(p).isDirectory()] *)
Definition statSync_isDirectory (fs : t) (p : string) : exn bool :=
  match fs !! p with
  | Some (Dir _) => Ret true
  | Some (File _) => Ret false
  | None => Throw ENOENT
  end.

(** [fs.readFileSync(p, 'utf-8')] *)
Definition readFileSync (fs : t) (p : string) : exn string :=
  match fs !! p with
  | Some (File content) => Ret content
  | Some (Dir _) => Throw EISDIR
  | None => Throw ENOENT
  end.

(** [fs.readdirSync(p)] *)
Definition readdirSync (fs : t) (p : string) : exn (list string) :=
  match fs !! p with
  | Some (Dir names) => Ret names
  | Some (File _) => Throw ENOTDIR
  | None => Throw ENOENT
  end.

Definition link (dir name : string) (fs : t) : t :=
  match fs !! dir with
  | Some (Dir names) =>
      if bool_decide (name ∈ names) then fs
      else <[dir := Dir (names ++ [name])]> fs
  | _ => fs
  end.

Definition unlink (dir name : string) (fs : t) : t :=
  match fs !! dir with
  | Some (Dir names) =>
      <[dir := Dir (filter (λ n, n ≠ name) names)]> fs
  | _ => fs
  end.

(** [fs.writeFileSync(p, content, 'utf-8')] *)
Definition writeFileSync (fs : t) (p content : string) : exn t :=
  match fs !! p with
  | Some (Dir _) => Throw EISDIR
  | Some (File _) => Ret (<[p := File content]> fs)
  | None =>
      match fs !! dirname p with
      | Some (Dir _) =>
          Ret (<[p := File content]> (link (dirname p) (basename p) fs))
      | _ => Throw ENOENT
      end
  end.

(** [fs.mkdirSync(p, { recursive: true })]; [budget] bounds the number of
    ancestors, the length of the path is enough. *)
Fixpoint mkdirp (budget : nat) (fs : t) (p : string) : exn t :=
  match fs !! p with
  | Some (Dir _) => Ret fs
  | Some (File _) => Throw EEXIST
  | None =>
      match budget with
      | 0 => Ret (<[p := Dir []]> fs)
      | S budget' =>
          if String.eqb (dirname p) p then Ret (<[p := Dir []]> fs)
          else
            fs' ← mkdirp budget' fs (dirname p);
            Ret (<[p := Dir []]> (link (dirname p) (basename p) fs'))
      end
  end.

Definition mkdirSync_recursive (fs : t) (p : string) : exn t :=
  mkdirp (String.length p) fs p.

(** [fs.unlinkSync(p)] *)
Definition unlinkSync (fs : t) (p : string) : exn t :=
  match fs !! p with
  | Some (File _) => Ret (unlink (dirname p) (basename p) (delete p fs))
  | Some (Dir _) => Throw EISDIR
  | None => Throw ENOENT
  end.

Definition under (p k : string) : bool :=
  String.eqb k p || JS.startsWith k (p +:+ "/").

(** [fs.rmSync(p, { recursive: true })] *)
Definition rmSync_recursive (fs : t) (p : string) : exn t :=
  match fs !! p with
  | Some _ =>
      Ret (unlink (dirname p) (basename p)
             (filter (λ kv, negb (under p kv.1)) fs))
  | None => Throw ENOENT
  end.

End Fs.


(** ** What both hosts take from the platform *)

Class Platform : Type := {
  (** [JSON.parse] on the arguments text of a tool call; [None] when it
      throws.  Arguments are flat objects of strings, booleans and numbers,
      as the tool schemas declare them. *)
  JSON_parse : string → option JS.object;
  (** [a.localeCompare(b)]: negative, zero or positive. *)
  localeCompare : string → string → Z;
}.

(** ** The server: tool handlers ([server/index.js]) *)

Module Server.

Record toolLog : Type := {
  log_name : string;
  log_status : string;
  log_message : option JS.value;
}.

(** [sessionStats] *)
Record stats : Type := {
  linesWritten : nat;
  filesModified : gset string;
  filesRead : gset string;
  toolCalls : list toolLog;
}.

Definition fresh_stats : stats :=
  {| linesWritten := 0; filesModified := ∅; filesRead := ∅; toolCalls := [] |}.

Inductive ftype : Type := folder | file.

#[global] Instance ftype_eq_dec : EqDecision ftype.
Proof. solve_decision. Defined.

(** An entry of a listing: [{ name, path, type, children? }]. *)
Inductive entry : Type :=
| Entry (name path : string) (type : ftype) (children : option (list entry)).

Definition entry_name (e : entry) : string :=
  match e with Entry n _ _ _ => n end.
Definition entry_type (e : entry) : ftype :=
  match e with Entry _ _ t _ => t end.
Definition entry_children (e : entry) : option (list entry) :=
  match e with Entry _ _ _ c => c end.

(** A match of [searchInFiles]: [{ file, line, content }]. *)
Record hit : Type := {
  hit_file : string;
  hit_line : nat;
  hit_content : string;
}.

(** What a handler returns; the last two are what the functions return
    that the table of handlers inherits from [Object.prototype]: an object,
    a string. *)
Inductive result : Type :=
| ReadOk (content path : string) (lines : nat) (message : string)
| WriteOk (path : string) (lines : nat) (isNew : bool) (message : string)
| EditOk (path message : string)
| DeleteOk (message : string)
| ListOk (files : list entry) (count : nat) (message : string)
| SearchOk (results : list hit) (count : nat) (message : string)
| Failure (error : string) (hint : option string)
| NeedsApproval (command : option JS.value) (cwd : JS.value)
| Returned_object (o : JS.object)
| Returned_string (s : string).

(** [result.success] *)
Definition success_field (r : result) : option JS.value :=
  match r with
  | Failure _ _ => Some (JS.VBool false)
  | NeedsApproval _ _ | Returned_string _ => None
  | Returned_object o => o !! "success"
  | _ => Some (JS.VBool true)
  end.

(** [result.success], as a condition. *)
Definition success (r : result) : bool := JS.truthy (success_field r).

(** [result.message || result.error] *)
Definition summary (r : result) : option JS.value :=
  match r with
  | ReadOk _ _ _ m | WriteOk _ _ _ m | EditOk _ m | DeleteOk m
  | ListOk _ _ m | SearchOk _ _ m => Some (JS.VStr m)
  | Failure e _ => Some (JS.VStr e)
  | NeedsApproval _ _ | Returned_string _ => None
  | Returned_object o => JS.or (o !! "message") (o !! "error")
  end.

(** The workspace and the statistics the handlers update. *)
Record world : Type := {
  fs : Fs.t;
  sessionStats : stats;
}.

Definition set_fs (f : Fs.t) (w : world) : world :=
  {| fs := f; sessionStats := sessionStats w |}.

Definition note_read (p : string) (w : world) : world :=
  let s := sessionStats w in
  {| fs := fs w;
     sessionStats := {| linesWritten := linesWritten s;
                        filesModified := filesModified s;
                        filesRead := {[p]} ∪ filesRead s;
                        toolCalls := toolCalls s |} |}.

Definition note_modified (p : string) (w : world) : world :=
  let s := sessionStats w in
  {| fs := fs w;
     sessionStats := {| linesWritten := linesWritten s;
                        filesModified := {[p]} ∪ filesModified s;
                        filesRead := filesRead s;
                        toolCalls := toolCalls s |} |}.

Definition note_lines (n : nat) (w : world) : world :=
  let s := sessionStats w in
  {| fs := fs w;
     sessionStats := {| linesWritten := linesWritten s + n;
                        filesModified := filesModified s;
                        filesRead := filesRead s;
                        toolCalls := toolCalls s |} |}.

Definition note_call (l : toolLog) (w : world) : world :=
  let s := sessionStats w in
  {| fs := fs w;
     sessionStats := {| linesWritten := linesWritten s;
                        filesModified := filesModified s;
                        filesRead := filesRead s;
                        toolCalls := toolCalls s ++ [l] |} |}.

(** The message of the TypeError a string method or an [fs] call throws on
    a value that is not a string. *)
Definition TypeError : string := "TypeError".

(** A value used where the code needs a string to call a method on. *)
Definition as_string (v : option JS.value) : exn string :=
  match v with
  | Some (JS.VStr s) => Ret s
  | _ => Throw TypeError
  end.

(** [s.split('\n').length] *)
Definition line_count (s : string) : nat := length (JS.split_lines s).

(** What the [catch] of a handler turns a throw into. *)
Definition caught (m : string) : result := Failure m None.

(** [toolHandlers.readFile] *)
Definition readFile (args : JS.object) (w : world) : result * world :=
  match filePath ← as_string (args !! "path");
        content ← Fs.readFileSync (fs w) filePath;
        Ret (filePath, content) with
  | Throw m => (caught m, w)
  | Ret (filePath, content) =>
      let lines := line_count content in
      (ReadOk content filePath lines
         ("Successfully read " +:+ Fs.basename filePath +:+ " ("
          +:+ pretty lines +:+ " lines)"),
       note_read filePath w)
  end.

(** [toolHandlers.writeFile]: the directories are made before the content
    is looked at, so a throw on the content leaves them made. *)
Definition writeFile (args : JS.object) (w : world) : result * world :=
  match as_string (args !! "path") with
  | Throw m => (caught m, w)
  | Ret filePath =>
      let dir := Fs.dirname filePath in
      match (if Fs.existsSync (fs w) dir then Ret (fs w)
             else Fs.mkdirSync_recursive (fs w) dir) with
      | Throw m => (caught m, w)
      | Ret fs1 =>
          match as_string (args !! "content") with
          | Throw m => (caught m, set_fs fs1 w)
          | Ret content =>
              let lines := line_count content in
              let isNew := negb (Fs.existsSync fs1 filePath) in
              match Fs.writeFileSync fs1 filePath content with
              | Throw m => (caught m, set_fs fs1 w)
              | Ret fs2 =>
                  (WriteOk filePath lines isNew
                     ((if isNew then "Created " else "Updated ")
                      +:+ Fs.basename filePath +:+ " (" +:+ pretty lines
                      +:+ " lines)"),
                   note_modified filePath (note_lines lines (set_fs fs2 w)))
              end
          end
      end
  end.

Definition not_found_error : string :=
  "Old text not found in file. Make sure to use exact text including whitespace.".
Definition not_found_hint : string :=
  "Try reading the file first to get exact content".

(** [toolHandlers.editFile] *)
Definition editFile (args : JS.object) (w : world) : result * world :=
  let oldText := args !! "oldText" in
  let newText := args !! "newText" in
  match as_string (args !! "path") with
  | Throw _ => (Failure "File does not exist" None, w)
  | Ret filePath =>
      if negb (Fs.existsSync (fs w) filePath)
      then (Failure "File does not exist" None, w)
      else
        match Fs.readFileSync (fs w) filePath with
        | Throw m => (caught m, w)
        | Ret content =>
            if negb (JS.includes content (JS.ToString oldText))
            then (Failure not_found_error (Some not_found_hint), w)
            else
              let newContent :=
                JS.replace content (JS.ToString oldText) (JS.ToString newText) in
              match Fs.writeFileSync (fs w) filePath newContent with
              | Throw m => (caught m, w)
              | Ret fs1 =>
                  let w1 := note_modified filePath (set_fs fs1 w) in
                  match as_string newText with
                  | Throw m => (caught m, w1)
                  | Ret newText =>
                      let linesChanged := line_count newText in
                      let w2 := note_lines linesChanged w1 in
                      match as_string oldText with
                      | Throw m => (caught m, w2)
                      | Ret oldText =>
                          (EditOk filePath
                             ("Edited " +:+ Fs.basename filePath
                              +:+ " - replaced " +:+ pretty (line_count oldText)
                              +:+ " lines with " +:+ pretty linesChanged
                              +:+ " lines"),
                           w2)
                      end
                  end
              end
        end
  end.

(** [toolHandlers.deleteFile] *)
Definition deleteFile (args : JS.object) (w : world) : result * world :=
  match filePath ← as_string (args !! "path");
        isDir ← Fs.statSync_isDirectory (fs w) filePath;
        fs1 ← (if isDir : bool then Fs.rmSync_recursive (fs w) filePath
               else Fs.unlinkSync (fs w) filePath);
        Ret (filePath, fs1) with
  | Throw m => (caught m, w)
  | Ret (filePath, fs1) =>
      (DeleteOk ("Deleted " +:+ Fs.basename filePath), set_fs fs1 w)
  end.

(** The names [listFiles] skips. *)
Definition ignored_names : list string :=
  ["node_modules"; ".git"; ".next"; "dist"; "build"; ".cache"].

Definition ignored (item : string) : bool :=
  bool_decide (item ∈ ignored_names).

(** The comparison [listDir] sorts with. *)
Definition compare_entries `{Platform} (a b : entry) : Z :=
  if decide (entry_type a = entry_type b)
  then localeCompare (entry_name a) (entry_name b)
  else match entry_type a with folder => (-1)%Z | file => 1%Z end.

(** The inner [listDir(dir, level)] of [listFiles]; [budget] is [3 - level],
    so [level > 2] reads [budget = 0].  A throw of [readdirSync] leaves the
    function; inside the loop every throw, that of a nested [listDir]
    included, is caught and skips the item. *)
Fixpoint listDir `{Platform} (budget : nat) (fs : Fs.t) (recursive : bool)
    (dir : string) : exn (list entry) :=
  match budget with
  | 0 => Ret []
  | S budget' =>
      items ← Fs.readdirSync fs dir;
      Ret (JS.sort compare_entries
             (omap (λ item,
                if ignored item then None
                else
                  let fullPath := Fs.join dir item in
                  match Fs.statSync_isDirectory fs fullPath with
                  | Throw _ => None
                  | Ret isDir =>
                      let type := if isDir then folder else file in
                      if isDir && recursive then
                        match listDir budget' fs recursive fullPath with
                        | Ret children =>
                            Some (Entry item fullPath type (Some children))
                        | Throw _ => None
                        end
                      else Some (Entry item fullPath type None)
                  end) items))
  end.

(** What the loop of [listDir] makes of one item of the directory. *)
Definition list_item `{Platform} (budget : nat) (fs : Fs.t) (recursive : bool)
    (dir item : string) : option entry :=
  if ignored item then None
  else
    let fullPath := Fs.join dir item in
    match Fs.statSync_isDirectory fs fullPath with
    | Throw _ => None
    | Ret isDir =>
        let type := if isDir then folder else file in
        if isDir && recursive then
          match listDir budget fs recursive fullPath with
          | Ret children => Some (Entry item fullPath type (Some children))
          | Throw _ => None
          end
        else Some (Entry item fullPath type None)
    end.

(** [toolHandlers.listFiles] *)
Definition listFiles `{Platform} (args : JS.object) (w : world)
    : result * world :=
  match dirPath ← as_string (args !! "path");
        files ← listDir 3 (fs w) (JS.truthy (args !! "recursive")) dirPath;
        Ret (dirPath, files) with
  | Throw m => (caught m, w)
  | Ret (dirPath, files) =>
      (ListOk files (length files)
         ("Found " +:+ pretty (length files) +:+ " items in "
          +:+ Fs.basename dirPath),
       w)
  end.

Definition maxResults : nat := 20.

(** The names [searchInFiles] skips. *)
Definition search_ignored (item : string) : bool :=
  bool_decide (item ∈ ["node_modules"; ".git"; ".next"; "dist"]).

(** The [lines.forEach] of [searchInFiles], from the line numbered [idx+1]. *)
Fixpoint scan_lines (fullPath query : string) (idx : nat)
    (lines : list string) (results : list hit) : list hit :=
  match lines with
  | [] => results
  | line :: rest =>
      scan_lines fullPath query (S idx) rest
        (if JS.includes line query && (length results <? maxResults)
         then results ++ [{| hit_file := fullPath; hit_line := idx + 1;
                             hit_content := JS.substring0 100 (JS.trim line) |}]
         else results)
  end.

(** The inner [searchDir(dir)] of [searchInFiles], on the array of results
    it fills.  [depth] bounds the nesting of directories; the number of
    paths of the file system is enough. *)
Fixpoint searchDir (depth : nat) (fs : Fs.t) (query : string)
    (filePattern : option JS.value) (dir : string) (results : list hit)
    : exn (list hit) :=
  match depth with
  | 0 => Ret results
  | S depth' =>
      if maxResults <=? length results then Ret results
      else
        items ← Fs.readdirSync fs dir;
        Ret (foldl (λ results item,
               if maxResults <=? length results then results
               else if search_ignored item then results
               else
                 let fullPath := Fs.join dir item in
                 match Fs.statSync_isDirectory fs fullPath with
                 | Throw _ => results
                 | Ret true =>
                     match searchDir depth' fs query filePattern fullPath
                             results with
                     | Ret results' => results'
                     | Throw _ => results
                     end
                 | Ret false =>
                     if negb (JS.truthy filePattern)
                        || JS.endsWith item (JS.ToString filePattern)
                     then
                       match Fs.readFileSync fs fullPath with
                       | Ret content =>
                           scan_lines fullPath query 0
                             (JS.split_lines content) results
                       | Throw _ => results
                       end
                     else results
                 end) results items)
  end.

(** [toolHandlers.searchInFiles] *)
Definition searchInFiles (args : JS.object) (w : world) : result * world :=
  let query := JS.ToString (args !! "query") in
  match directory ← as_string (args !! "directory");
        searchDir (S (size (fs w))) (fs w) query (args !! "filePattern")
          directory [] with
  | Throw m => (caught m, w)
  | Ret results =>
      (SearchOk results (length results)
         ("Found " +:+ pretty (length results) +:+ " matches for "
          +:+ JS.dquote +:+ query +:+ JS.dquote),
       w)
  end.

(** [args.cwd || WORKSPACE_DIR] *)
Definition cwd_or (cwd : option JS.value) (WORKSPACE_DIR : string) : JS.value :=
  match cwd with
  | Some v => if JS.truthy cwd then v else JS.VStr WORKSPACE_DIR
  | None => JS.VStr WORKSPACE_DIR
  end.

(** [toolHandlers.runCommand]: it runs nothing. *)
Definition runCommand (WORKSPACE_DIR : string) (args : JS.object) (w : world)
    : result * world :=
  (NeedsApproval (args !! "command") (cwd_or (args !! "cwd") WORKSPACE_DIR), w).

(** The handlers the table [toolHandlers] defines, by their names. *)
Definition toolHandlers `{Platform} (WORKSPACE_DIR : string) (toolName : string)
    : option (JS.object → world → result * world) :=
  if String.eqb toolName "readFile" then Some readFile
  else if String.eqb toolName "writeFile" then Some writeFile
  else if String.eqb toolName "editFile" then Some editFile
  else if String.eqb toolName "deleteFile" then Some deleteFile
  else if String.eqb toolName "listFiles" then Some listFiles
  else if String.eqb toolName "searchInFiles" then Some searchInFiles
  else if String.eqb toolName "runCommand" then Some (runCommand WORKSPACE_DIR)
  else None.

(** The names the table does not define and still finds, those of
    [Object.prototype], which need their receiver (or, for [__proto__], are
    not a function): called as [handler(args)] they throw a TypeError. *)
Definition receiver_needed : list string :=
  ["valueOf"; "hasOwnProperty"; "isPrototypeOf"; "propertyIsEnumerable";
   "toLocaleString"; "__defineGetter__"; "__defineSetter__";
   "__lookupGetter__"; "__lookupSetter__"; "__proto__"].

Definition tag_of_undefined : string := "[object Undefined]".

(** What the table inherits from [Object.prototype], called on an
    arguments object as [handler(args)] is, without a receiver: [Object]
    returns its argument, and [toString] the tag of [undefined]. *)
Definition Object_prototype (toolName : string)
    : option (JS.object → exn result) :=
  if String.eqb toolName "constructor" then Some (λ args, Ret (Returned_object args))
  else if String.eqb toolName "toString"
  then Some (λ _, Ret (Returned_string tag_of_undefined))
  else if bool_decide (toolName ∈ receiver_needed)
  then Some (λ _, Throw TypeError)
  else None.

(** [toolHandlers[toolName]]: the handler the table defines under the name
    or else the member it inherits, as a call that returns or throws. *)
Definition handler_of `{Platform} (WORKSPACE_DIR : string) (toolName : string)
    : option (JS.object → world → exn result * world) :=
  match toolHandlers WORKSPACE_DIR toolName with
  | Some handler =>
      Some (λ args w, let '(r, w) := handler args w in (Ret r, w))
  | None => (λ f args w, (f args, w)) <$> Object_prototype toolName
  end.

(** *** The agent endpoint: [app.post('/api/agent/chat')] *)

(** An accumulated tool call: [{ id, function: { name, arguments } }]. *)
Record tool_call : Type := {
  id : string;
  name : string;
  arguments : string;
}.

(** A message of [chatMessages]; the content of a tool message is kept as
    the result that [JSON.stringify] serialises. *)
Inductive message : Type :=
| system_message (content : string)
| user_message (content : string)
| assistant_message (content : string)
| assistant_tool_calls (tool_calls : list tool_call)
| tool_message (tool_call_id : string) (content : result).

(** One element of [delta.tool_calls] in a chunk of the model's stream. *)
Record tool_call_delta : Type := {
  index : nat;
  delta_id : option string;
  delta_name : option string;
  delta_arguments : option string;
}.

(** [chunk.choices[0]?.delta] *)
Record delta : Type := {
  content : option string;
  tool_calls : option (list tool_call_delta);
}.

(** What iterating the response of the model yields: its chunks, each with
    its delta if it has one, and then the end of the stream or a throw. *)
Record stream : Type := {
  chunks : list (option delta);
  failure : option string;
}.

(** The body of a chat request. *)
Record chat_request : Type := {
  req_message : string;
  req_activeFile : option string;
  req_fileContent : option string;
  req_history : list message;
}.

(** The body of an approval request; a field the body lacks is [None]. *)
Record approve_request : Type := {
  toolCallId : option string;
  command : option string;
  cwd : option string;
}.

(** What [execSync] does with a command: it returns the output, or throws
    (a failure exit, a signal, the timeout). *)
Inductive exec_outcome : Type :=
| exited (output : string)
| exec_failed (message stderr : string).

(** What the server takes from its surroundings. *)
Class Surroundings : Type := {
  WORKSPACE_DIR : string;
  (** [getSystemPrompt] on the context built for the request. *)
  getSystemPrompt : Fs.t → chat_request → string;
  (** [openai.chat.completions.create] at the given turn of the loop, with
      the messages sent. *)
  completions_create : nat → list message → stream;
  (** The process [execSync] starts: command, directory, timeout. *)
  run_process : string → string → Z → exec_outcome;
}.

(** A call as the [tool_call] event shows it. *)
Record call_info : Type := {
  info_id : string;
  info_name : string;
  info_args : JS.object;
}.

(** The events written on the response of the chat request. *)
Inductive event : Type :=
| content_event (delta : string)
| tool_call_event (calls : list call_info)
| approval_required (toolCallId : string) (command : option JS.value)
    (cwd : JS.value)
| step_event (tool : string) (success message : option JS.value)
| done_event (lines files filesRead : nat) (toolCalls : list toolLog)
| error_event (error : string).

(** The result sent back by the approval endpoint. *)
Inductive tool_result : Type :=
| command_succeeded (output : string)
| command_failed (error : string) (stderr : option string).

(** What the server does that can be seen from outside, in order. *)
Inductive effect : Type :=
| Request (loopCount : nat) (messages : list message)
| Write (e : event)
| End
| ExecSync (command cwd : string) (timeout : Z)
| Json (toolCallId : option string) (r : tool_result).

(** The state of one chat request. *)
Record chat : Type := {
  the_world : world;
  chatMessages : list message;
  trace : list effect;
}.

Definition emit (e : effect) (c : chat) : chat :=
  {| the_world := the_world c; chatMessages := chatMessages c;
     trace := trace c ++ [e] |}.

Definition push (m : message) (c : chat) : chat :=
  {| the_world := the_world c; chatMessages := chatMessages c ++ [m];
     trace := trace c |}.

Definition with_world (w : world) (c : chat) : chat :=
  {| the_world := w; chatMessages := chatMessages c; trace := trace c |}.

(** The body of [delta.tool_calls.forEach]. *)
Definition accumulate (toolCalls : list (option tool_call))
    (tc : tool_call_delta) : list (option tool_call) :=
  let idx := index tc in
  let cur :=
    default {| id := ""; name := ""; arguments := "" |}
      (JS.array_get toolCalls idx) in
  let cur :=
    match delta_id tc with
    | Some i => if JS.nonempty (Some i)
                then {| id := i; name := name cur; arguments := arguments cur |}
                else cur
    | None => cur
    end in
  let cur :=
    match delta_name tc with
    | Some n => {| id := id cur; name := name cur +:+ n;
                   arguments := arguments cur |}
    | None => cur
    end in
  let cur :=
    match delta_arguments tc with
    | Some a => {| id := id cur; name := name cur;
                   arguments := arguments cur +:+ a |}
    | None => cur
    end in
  JS.array_set toolCalls idx cur.

(** The [for await (const chunk of stream)] loop: the reply and the tool
    calls accumulated, the content events written on the way. *)
Fixpoint consume (chunks : list (option delta)) (fullReply : string)
    (toolCalls : list (option tool_call)) (c : chat)
    : string * list (option tool_call) * chat :=
  match chunks with
  | [] => (fullReply, toolCalls, c)
  | None :: rest => consume rest fullReply toolCalls c
  | Some d :: rest =>
      let '(fullReply, c) :=
        match content d with
        | Some text =>
            if JS.nonempty (Some text)
            then (fullReply +:+ text, emit (Write (content_event text)) c)
            else (fullReply, c)
        | None => (fullReply, c)
        end in
      let toolCalls :=
        match tool_calls d with
        | Some tcs => foldl accumulate toolCalls tcs
        | None => toolCalls
        end in
      consume rest fullReply toolCalls c
  end.

(** [toolCalls.filter(tc => tc && tc.id && tc.function.name)] *)
Definition validCalls (toolCalls : list (option tool_call)) : list tool_call :=
  filter (λ tc, JS.nonempty (Some (id tc)) && JS.nonempty (Some (name tc)))
    (JS.present toolCalls).

Definition SyntaxError : string := "SyntaxError: Unexpected token in JSON".

(** [JSON.parse(tc.function.arguments || '{}')] *)
Definition parse_arguments `{Platform} (tc : tool_call) : exn JS.object :=
  match JSON_parse (if String.eqb (arguments tc) "" then "{}"
                    else arguments tc) with
  | Some args => Ret args
  | None => Throw SyntaxError
  end.

(** The calls of the [tool_call] event; the first arguments text that does
    not parse throws. *)
Fixpoint call_infos `{Platform} (calls : list tool_call) : exn (list call_info) :=
  match calls with
  | [] => Ret []
  | tc :: rest =>
      args ← parse_arguments tc;
      infos ← call_infos rest;
      Ret ({| info_id := id tc; info_name := name tc; info_args := args |}
           :: infos)
  end.

(** How the [for (const toolCall of validCalls)] loop is left. *)
Inductive exit : Type :=
| completed            (** every call was gone through *)
| halted               (** [isDone = true; break] at a command *)
| thrown (message : string).  (** a throw of [JSON.parse] or of the call *)

(** The loop that executes the calls of one turn. *)
Fixpoint execute_calls `{Platform} `{Surroundings} (calls : list tool_call)
    (c : chat) : chat * exit :=
  match calls with
  | [] => (c, completed)
  | toolCall :: rest =>
      let toolName := name toolCall in
      match parse_arguments toolCall with
      | Throw m => (c, thrown m)
      | Ret args =>
          if String.eqb toolName "runCommand" then
            let c := emit (Write (approval_required (id toolCall)
                                    (args !! "command")
                                    (cwd_or (args !! "cwd") WORKSPACE_DIR))) c in
            (with_world
               (note_call {| log_name := toolName;
                             log_status := "pending_approval";
                             log_message := None |} (the_world c)) c,
             halted)
          else
            match handler_of WORKSPACE_DIR toolName with
            | Some handler =>
                match handler args (the_world c) with
                | (Throw m, w) => (with_world w c, thrown m)
                | (Ret result, w) =>
                    let c :=
                      with_world
                        (note_call {| log_name := toolName;
                                      log_status :=
                                        if success result then "success"
                                        else "error";
                                      log_message := summary result |} w) c in
                    let c := emit (Write (step_event toolName
                                            (success_field result)
                                            (summary result))) c in
                    let c := push (tool_message (id toolCall) result) c in
                    execute_calls rest c
                end
            | None => execute_calls rest c
            end
      end
  end.

Definition maxLoops : nat := 15.

(** One turn of the [while] loop, after [loopCount++]: the chat after it,
    and whether the loop goes on ([Ret false]), is done ([Ret true]) or is
    left by a throw. *)
Definition turn `{Platform} `{Surroundings} (loopCount : nat) (c : chat)
    : chat * exn bool :=
  let c := emit (Request loopCount (chatMessages c)) c in
  let s := completions_create loopCount (chatMessages c) in
  let '(fullReply, toolCalls, c) := consume (chunks s) "" [] c in
  match failure s with
  | Some m => (c, Throw m)
  | None =>
      let c := if JS.nonempty (Some fullReply)
               then push (assistant_message fullReply) c else c in
      if 0 <? length toolCalls then
        let valid := validCalls toolCalls in
        if 0 <? length valid then
          let c := push (assistant_tool_calls valid) c in
          match call_infos valid with
          | Throw m => (c, Throw m)
          | Ret infos =>
              let c := emit (Write (tool_call_event infos)) c in
              match execute_calls valid c with
              | (c, completed) => (c, Ret false)
              | (c, halted) => (c, Ret true)
              | (c, thrown m) => (c, Throw m)
              end
          end
        else (c, Ret false)
      else (c, Ret true)
  end.

(** [while (!isDone && loopCount < maxLoops)], entered with [isDone] false;
    [budget] is [maxLoops - loopCount]. *)
Fixpoint loop `{Platform} `{Surroundings} (budget loopCount : nat) (c : chat)
    : chat * option string :=
  match budget with
  | 0 => (c, None)
  | S budget' =>
      match turn (S loopCount) c with
      | (c, Ret true) => (c, None)
      | (c, Ret false) => loop budget' (S loopCount) c
      | (c, Throw m) => (c, Some m)
      end
  end.

(** [history.slice(-10)] *)
Definition last10 (history : list message) : list message :=
  drop (length history - 10) history.

(** The handler of [/api/agent/chat]: the statistics are reset, the loop is
    run, and the response is closed by the summary or by the error. *)
Definition agent_chat `{Platform} `{Surroundings} (req : chat_request)
    (files : Fs.t) : chat :=
  let c :=
    {| the_world := {| fs := files; sessionStats := fresh_stats |};
       chatMessages :=
         [system_message (getSystemPrompt files req)]
         ++ last10 (req_history req) ++ [user_message (req_message req)];
       trace := [] |} in
  match loop maxLoops 0 c with
  | (c, None) =>
      let s := sessionStats (the_world c) in
      emit End
        (emit (Write (done_event (linesWritten s)
                        (length (elements (filesModified s)))
                        (length (elements (filesRead s)))
                        (toolCalls s))) c)
  | (c, Some m) => emit End (emit (Write (error_event m)) c)
  end.




(** The body of an approval request as it is sent: the command and the
    directory are whatever values the sender holds. *)
Record approve_body : Type := {
  sent_toolCallId : option string;
  sent_command : option JS.value;
  sent_cwd : option JS.value;
}.

(** A body whose command and directory are strings, when it has them. *)
Definition body_of (req : approve_request) : approve_body :=
  {| sent_toolCallId := toolCallId req;
     sent_command := JS.VStr <$> command req;
     sent_cwd := JS.VStr <$> cwd req |}.


End Server.

(** ** The web client ([agentService.js], [ChatInterface.jsx]) *)

Module Client.

Section decoder.

(** The events are whatever [JSON.parse] makes of the payload of a line. *)
Context {E : Type} (JSON_parse_event : string → option E).

(** The [for (const line of lines)] loop of [streamAgent]: the events handed
    to [onChunk], in order. *)
Definition deliver (lines : list string) : list E :=
  omap (λ line,
          if JS.startsWith line "data: "
          then JSON_parse_event (JS.slice 6 line)
          else None) lines.

(** The [while (true)] loop of [streamAgent] over the chunks read, from the
    buffer kept so far.  What is left in the buffer when the stream ends is
    dropped. *)
Fixpoint read_loop (buffer : string) (chunks : list string) : list E :=
  match chunks with
  | [] => []
  | value :: rest =>
      let '(lines, buffer) := JS.pop (JS.split_lines (buffer +:+ value)) in
      deliver lines ++ read_loop buffer rest
  end.

(** [streamAgent]: the calls of [onChunk] for a response read in the given
    chunks. *)
Definition streamAgent (chunks : list string) : list E := read_loop "" chunks.

End decoder.

(** A step shown for a tool call. *)
Record step : Type := {
  step_id : option string;
  step_name : string;
  step_command : option JS.value;
  step_status : string;
  step_message : option string;
}.

(** [pendingApproval] *)
Record pending : Type := {
  pending_id : string;
  pending_command : option JS.value;
  pending_cwd : JS.value;
}.

(** The messages the chat keeps. *)
Inductive ui_message : Type :=
| shown (role content : string)
| tool_reply (tool_call_id : string) (result : Server.tool_result).

(** The state of the chat component that the approval touches. *)
Record ui : Type := {
  messages : list ui_message;
  currentResponse : string;
  currentSteps : list step;
  pendingApproval : option pending;
  isLoading : bool;
}.

(** The [approval_required] case of [handleChunk]. *)
Definition on_approval_required (id : string) (command : option JS.value)
    (cwd : JS.value) (u : ui) : ui :=
  {| messages := messages u; currentResponse := currentResponse u;
     currentSteps := currentSteps u;
     pendingApproval := Some {| pending_id := id; pending_command := command;
                                pending_cwd := cwd |};
     isLoading := isLoading u |}.



(** [data.result.output || data.result.error] *)
Definition result_text (r : Server.tool_result) : option string :=
  match r with
  | Server.command_succeeded output =>
      if JS.nonempty (Some output) then Some output else None
  | Server.command_failed error _ => Some error
  end.

(** The rest of [handleApproval(true)], once the result has come: the step
    is closed, the result joins the messages, and [resumeAgent] sends the
    text and the history returned. *)
Definition approved_result (p : pending) (r : Server.tool_result) (u : ui)
    : ui * (string * list ui_message) :=
  let history :=
    messages u ++ [shown "assistant" (currentResponse u);
                   tool_reply (pending_id p) r] in
  ({| messages := history; currentResponse := "";
      currentSteps :=
        map (λ s, if decide (step_id s = Some (pending_id p))
                  then {| step_id := step_id s; step_name := step_name s;
                          step_command := step_command s;
                          step_status :=
                            match r with
                            | Server.command_succeeded _ => "done"
                            | Server.command_failed _ _ => "error"
                            end;
                          step_message := result_text r |}
                  else s) (currentSteps u);
      pendingApproval := pendingApproval u; isLoading := isLoading u |},
   ("Komut çalıştırıldı. Sonuç: " +:+ JS.ToString (JS.VStr <$> result_text r),
    history)).


End Client.

(** ** The editor extension ([extension.ts]) *)

Module Extension.

Inductive mode : Type := secure | full.

#[global] Instance mode_eq_dec : EqDecision mode.
Proof. solve_decision. Defined.

(** An accumulated tool call; the id is [undefined] until a fragment
    carries one. *)
Record tool_call : Type := {
  id : option string;
  name : string;
  arguments : string;
}.

Inductive entry_type : Type := dir | file.

(** What a tool returns; it is serialised into the content of the tool
    message. *)
Inductive result : Type :=
| error_result (error : string)
| message_result (message : string)
| content_result (content : string)
| process_result (output : string) (success : bool) (exitCode : Z)
| process_error (output : string)
| entries_result (entries : list (string * entry_type))
| files_result (files : list string)
| success_result
| edit_written (file : string)
| edit_pending_result (file : string)
| diagnostics_result (diagnostics : list (nat * string))
| outline_result (outline : string).

(** [JSON.parse(r.content).error], as a condition. *)
Definition has_error (r : result) : bool :=
  match r with
  | error_result e => JS.nonempty (Some e)
  | process_error _ => true
  | _ => false
  end.

Inductive message : Type :=
| user_message (content : string)
| system_message (content : string)
| assistant_message (content : string) (tool_calls : option (list tool_call))
| tool_message (tool_call_id : option string) (name : string) (content : result).

(** The messages posted to the webview. *)
Inductive post : Type :=
| startStreaming
| content_post (delta : string)
| tool_call_post (name : string)
| tool_executing (name : string)
| approval (id : string) (cmd : option JS.value)
| terminal_out (data approvalId : string)
| edit_pending (file filename lang : string) (added removed : Z)
| edit_approved (file : string)
| edit_rejected (file : string)
| all_edits_approved
| all_edits_rejected
| done
| error_post (value : string)
| securityModeChanged (value : mode).

(** What the extension does that can be seen from outside, in order. *)
Inductive effect : Type :=
| Post (p : post)
| Fetch (loopCount : nat) (history : list message)
| Spawn (command cwd : string)
| WriteFile (path content : string)
| DeleteFile (path : string)
| Command (command query : string).

(** What [cp.spawn] reports: the pieces of output and the exit code, or an
    error. *)
Inductive process : Type :=
| closed (output : list string) (code : Z)
| spawn_error (message : string).

(** How the reading of a response body ends. *)
Inductive ending : Type :=
| ended
| read_failed (message : string)
| read_aborted.

(** What [fetch] gives for a completion request. *)
Inductive response : Type :=
| body (chunks : list string) (e : ending)
| not_ok (text : string)
| no_body
| fetch_failed (message : string)
| fetch_aborted.

(** What the extension takes from the editor, the network and the system. *)
Class Host : Type := {
  (** [fetch] of the completion at the given turn, with the history sent. *)
  fetch : nat → list message → response;
  (** [JSON.parse] of a data line followed by [data.choices?.[0]?.delta]:
      [None] when a throw is caught, [Some None] when there is no delta. *)
  parse_data : string → option (option Server.delta);
  (** [Date.now().toString()], by the number of readings made before. *)
  Date_now : nat → string;
  (** The process started for a command in a directory. *)
  spawn : string → string → process;
  (** [vscode.workspace.findFiles] on the pattern of a query, as relative
      paths. *)
  findFiles : string → list string;
  (** [vscode.languages.getDiagnostics]: zero-based lines and messages. *)
  getDiagnostics : string → list (nat * string);
  (** The document symbols: names and zero-based lines. *)
  documentSymbols : string → option (list (string * nat));
}.

(** An entry of [_pendingEdits]. *)
Record pending_edit : Type := {
  newContent : string;
  langName : string;
  ext : string;
  added : Z;
  removed : Z;
}.

(** A [Map] keeps its keys in the order they were first set. *)
Fixpoint map_set {V} (k : string) (v : V) (m : list (string * V))
    : list (string * V) :=
  match m with
  | [] => [(k, v)]
  | (k', v') :: rest =>
      if String.eqb k' k then (k', v) :: rest else (k', v') :: map_set k v rest
  end.

Fixpoint map_get {V} (k : string) (m : list (string * V)) : option V :=
  match m with
  | [] => None
  | (k', v) :: rest => if String.eqb k' k then Some v else map_get k rest
  end.

Definition map_delete {V} (k : string) (m : list (string * V))
    : list (string * V) :=
  filter (λ kv, negb (String.eqb kv.1 k)) m.

(** The provider and the workspace it works on. *)
Record state : Type := {
  securityMode : mode;
  (** [vscode.workspace.workspaceFolders[0].uri.fsPath]; [None] when no
      folder is open. *)
  workspaceFolder : option string;
  files : Fs.t;
  (** [_pendingApprovals]: the id of an approval and the place, in the batch
      that waits, of the call its resolver resumes. *)
  pendingApprovals : gmap string nat;
  pendingEdits : list (string * pending_edit);
  history : list message;
  trace : list effect;
  (** The number of readings of the clock made so far. *)
  clock : nat;
}.

Definition emit (e : effect) (st : state) : state :=
  {| securityMode := securityMode st; workspaceFolder := workspaceFolder st;
     files := files st; pendingApprovals := pendingApprovals st;
     pendingEdits := pendingEdits st; history := history st;
     trace := trace st ++ [e]; clock := clock st |}.

Definition set_files (f : Fs.t) (st : state) : state :=
  {| securityMode := securityMode st; workspaceFolder := workspaceFolder st;
     files := f; pendingApprovals := pendingApprovals st;
     pendingEdits := pendingEdits st; history := history st;
     trace := trace st; clock := clock st |}.

Definition set_approvals (a : gmap string nat) (st : state) : state :=
  {| securityMode := securityMode st; workspaceFolder := workspaceFolder st;
     files := files st; pendingApprovals := a;
     pendingEdits := pendingEdits st; history := history st;
     trace := trace st; clock := clock st |}.

Definition set_edits (e : list (string * pending_edit)) (st : state) : state :=
  {| securityMode := securityMode st; workspaceFolder := workspaceFolder st;
     files := files st; pendingApprovals := pendingApprovals st;
     pendingEdits := e; history := history st;
     trace := trace st; clock := clock st |}.

Definition push (ms : list message) (st : state) : state :=
  {| securityMode := securityMode st; workspaceFolder := workspaceFolder st;
     files := files st; pendingApprovals := pendingApprovals st;
     pendingEdits := pendingEdits st; history := history st ++ ms;
     trace := trace st; clock := clock st |}.

Definition tick (st : state) : state :=
  {| securityMode := securityMode st; workspaceFolder := workspaceFolder st;
     files := files st; pendingApprovals := pendingApprovals st;
     pendingEdits := pendingEdits st; history := history st;
     trace := trace st; clock := S (clock st) |}.

Definition set_mode (m : mode) (st : state) : state :=
  {| securityMode := m; workspaceFolder := workspaceFolder st;
     files := files st; pendingApprovals := pendingApprovals st;
     pendingEdits := pendingEdits st; history := history st;
     trace := trace st; clock := clock st |}.

(** *** Paths and the file system of the editor *)

Definition no_folder : string := "Açık klasör yok.".

(** [path.resolve(root, p)] for a normalised [p]. *)
Definition resolve (root p : string) : string :=
  if JS.startsWith p "/" then p
  else if String.eqb p "." then root
  else Fs.join root p.

(** [vscode.Uri.file(p).fsPath] *)
Definition uri_file (p : string) : string :=
  if JS.startsWith p "/" then p else "/" +:+ p.

(** The path a tool works on: the workspace must be open and the argument a
    string. *)
Definition target (st : state) (v : option JS.value) : exn string :=
  match workspaceFolder st with
  | None => Throw no_folder
  | Some root => p ← Server.as_string v; Ret (uri_file (resolve root p))
  end.

(** [vscode.workspace.fs.writeFile]: missing folders are made. *)
Definition fs_writeFile (p content : string) (st : state) : exn state :=
  fs1 ← (if Fs.existsSync (files st) (Fs.dirname p) then Ret (files st)
         else Fs.mkdirSync_recursive (files st) (Fs.dirname p));
  fs2 ← Fs.writeFileSync fs1 p content;
  Ret (emit (WriteFile p content) (set_files fs2 st)).

(** [vscode.workspace.fs.delete], not recursive. *)
Definition fs_delete (p : string) (st : state) : exn state :=
  match files st !! p with
  | Some (Fs.File _) =>
      Ret (emit (DeleteFile p)
             (set_files (Fs.unlink (Fs.dirname p) (Fs.basename p)
                           (delete p (files st))) st))
  | Some (Fs.Dir []) =>
      Ret (emit (DeleteFile p)
             (set_files (Fs.unlink (Fs.dirname p) (Fs.basename p)
                           (delete p (files st))) st))
  | Some (Fs.Dir (_ :: _)) => Throw Fs.ENOTEMPTY
  | None => Throw Fs.ENOENT
  end.

(** [vscode.workspace.fs.readDirectory], with the type read as the tool
    reads it: a directory or not. *)
Definition fs_readDirectory (fs : Fs.t) (p : string)
    : exn (list (string * entry_type)) :=
  names ← Fs.readdirSync fs p;
  Ret (map (λ n, (n, match fs !! Fs.join p n with
                     | Some (Fs.Dir _) => dir
                     | _ => file
                     end)) names).

(** *** The tools *)

Definition search_opened : string := "Arama paneli açıldı.".
Definition grep_started : string := "Ripgrep araması başlatıldı.".
Definition rejected : string := "Reddedildi.".
Definition no_folder_short : string := "Klasör yok.".
Definition old_text_not_found : string := "Eski metin bulunamadı.".
Definition unknown_tool : string := "Bilinmeyen araç.".
Definition invalid_arguments : string := "Argümanlar geçersiz JSON.".

Definition _codebaseSearch (query : option JS.value) (st : state)
    : exn result * state :=
  (Ret (message_result search_opened),
   emit (Command "workbench.action.findInFiles" (JS.ToString query)) st).

Definition _grepSearch (query : option JS.value) (st : state)
    : exn result * state :=
  (Ret (message_result grep_started),
   emit (Command "workbench.action.findInFiles" (JS.ToString query)) st).

Definition _fileSearch `{Host} (query : option JS.value) (st : state)
    : exn result * state :=
  (Ret (files_result (findFiles (JS.ToString query))), st).

(** A line number given as an argument, as the arithmetic and [slice] read
    it: a number is itself and [true] is 1.  The schema of the tool has
    numbers here; a string, which the code would convert, is read as not
    given. *)
Definition number (v : option JS.value) : option Z :=
  match v with
  | Some (JS.VNum n) => Some n
  | Some (JS.VBool true) => Some 1%Z
  | _ => None
  end.

(** [a.slice(from, to)] on a list. *)
Definition list_slice {A} (from to : Z) (l : list A) : list A :=
  let len := Z.of_nat (length l) in
  let clamp i := if (i <? 0)%Z then Z.max (len + i) 0 else Z.min i len in
  let a := clamp from in
  let b := clamp to in
  take (Z.to_nat (b - a)) (drop (Z.to_nat a) l).

(** [lines.join('\n')] *)
Fixpoint join_lines (lines : list string) : string :=
  match lines with
  | [] => ""
  | [l] => l
  | l :: rest => l +:+ String JS.newline (join_lines rest)
  end.

(** [(start || 1) - 1] and [end || lines.length] *)
Definition or_number (v : option Z) (d : Z) : Z :=
  match v with
  | Some n => if (n =? 0)%Z then d else n
  | None => d
  end.

Definition _readFile (fpath entire start endl : option JS.value) (st : state)
    : exn result * state :=
  (uri ← target st fpath;
   content ← Fs.readFileSync (files st) uri;
   Ret (content_result
          (if negb (JS.truthy entire)
              && (bool_decide (is_Some start) || bool_decide (is_Some endl))
           then
             let lines := JS.split_lines content in
             join_lines
               (list_slice (or_number (number start) 1 - 1)
                  (or_number (number endl) (Z.of_nat (length lines))) lines)
           else content)),
   st).

Definition _listDir (dpath : option JS.value) (st : state)
    : exn result * state :=
  (uri ← target st (if JS.truthy dpath then dpath else Some (JS.VStr "."));
   entries ← fs_readDirectory (files st) uri;
   Ret (entries_result entries),
   st).

Definition _searchReplace (fpath oldStr newStr : option JS.value) (st : state)
    : exn result * state :=
  match uri ← target st fpath;
        content ← Fs.readFileSync (files st) uri;
        Ret (uri, content) with
  | Throw m => (Throw m, st)
  | Ret (uri, content) =>
      if negb (JS.includes content (JS.ToString oldStr))
      then (Ret (error_result old_text_not_found), st)
      else
        match fs_writeFile uri
                (JS.replace content (JS.ToString oldStr) (JS.ToString newStr))
                st with
        | Throw m => (Throw m, st)
        | Ret st' => (Ret success_result, st')
        end
  end.

Definition backquote : string := String "096"%char EmptyString.
Definition nl : string := String JS.newline EmptyString.

Definition _createDiagram (content : option JS.value) (st : state)
    : exn result * state :=
  (Ret success_result,
   emit (Post (content_post
                 (nl +:+ nl +:+ backquote +:+ backquote +:+ backquote
                  +:+ "mermaid" +:+ nl +:+ JS.ToString content +:+ nl
                  +:+ backquote +:+ backquote +:+ backquote +:+ nl +:+ nl)))
     st).

Definition _deleteFile (fpath : option JS.value) (st : state)
    : exn result * state :=
  match uri ← target st fpath; fs_delete uri st with
  | Throw m => (Throw m, st)
  | Ret st' => (Ret success_result, st')
  end.

Definition clean : string := "Temiz.".
Definition no_symbols : string := "Sembol yok.".

Definition _getDiagnostics `{Host} (fpath : option JS.value) (st : state)
    : exn result * state :=
  (uri ← target st fpath;
   Ret (match getDiagnostics uri with
        | [] => message_result clean
        | diag => diagnostics_result (map (λ d, (d.1 + 1, d.2)) diag)
        end),
   st).

Definition _viewFileOutline `{Host} (fpath : option JS.value) (st : state)
    : exn result * state :=
  (uri ← target st fpath;
   Ret (match documentSymbols uri with
        | Some symbols =>
            outline_result
              (join_lines
                 (map (λ s, s.1 +:+ " (Line " +:+ pretty (s.2 + 1) +:+ ")")
                    symbols))
        | None => message_result no_symbols
        end),
   st).

(** The cut of a name at its last dot. *)
Fixpoint split_dot (s : string) : option (string * string) :=
  match s with
  | EmptyString => None
  | String c r =>
      match split_dot r with
      | Some (d, b) => Some (String c d, b)
      | None => if Ascii.eqb c "." then Some (EmptyString, r) else None
      end
  end.

(** [path.extname(p)] *)
Definition extname (p : string) : string :=
  match split_dot (Fs.basename p) with
  | Some (EmptyString, _) => ""
  | Some (_, e) => "." +:+ e
  | None => ""
  end.

Definition upper (c : ascii) : ascii :=
  let n := nat_of_ascii c in
  if (97 <=? n) && (n <=? 122) then ascii_of_nat (n - 32) else c.

(** [s.toUpperCase()] *)
Fixpoint toUpperCase (s : string) : string :=
  match s with
  | EmptyString => EmptyString
  | String c r => String (upper c) (toUpperCase r)
  end.

(** [langMap[ext] || ext.toUpperCase()] *)
Definition language (ext : string) : string :=
  if String.eqb ext "js" then "JavaScript"
  else if String.eqb ext "ts" then "TypeScript"
  else if String.eqb ext "html" then "HTML"
  else if String.eqb ext "css" then "CSS"
  else if String.eqb ext "py" then "Python"
  else if String.eqb ext "json" then "JSON"
  else toUpperCase ext.

(** [_editFile]: in full mode the file is written; otherwise the edit is
    kept under the path as the model gave it, and announced under the
    resolved path. *)
Definition _editFile (fpath codeEdit : option JS.value) (st : state)
    : exn result * state :=
  match target st fpath, Server.as_string fpath with
  | Throw m, _ | _, Throw m => (Throw m, st)
  | Ret uri, Ret fpath =>
      match securityMode st with
      | full =>
          match code ← Server.as_string codeEdit; fs_writeFile uri code st with
          | Throw m => (Throw m, st)
          | Ret st' => (Ret (edit_written fpath), st')
          end
      | secure =>
          let oldLineCount :=
            match Fs.readFileSync (files st) uri with
            | Ret current => Server.line_count current
            | Throw _ => 0
            end in
          match Server.as_string codeEdit with
          | Throw m => (Throw m, st)
          | Ret code =>
              let diff :=
                (Z.of_nat (Server.line_count code) - Z.of_nat oldLineCount)%Z in
              let ext := JS.replace (extname fpath) "." "" in
              let add := if (0 <? diff)%Z then diff else 0%Z in
              let rem := if (diff <? 0)%Z then Z.abs diff else 0%Z in
              let st :=
                set_edits
                  (map_set fpath
                     {| newContent := code; langName := language ext;
                        ext := ext; added := add; removed := rem |}
                     (pendingEdits st)) st in
              (Ret (edit_pending_result uri),
               emit (Post (edit_pending uri (Fs.basename fpath) (language ext)
                             add rem)) st)
          end
      end
  end.

(** The process of a command: [cp.spawn] and the result resolved when it
    closes or fails.  With an approval id the output is also posted. *)
Definition run_process `{Host} (command : option JS.value)
    (approvalId : option string) (st : state) : exn result * state :=
  match workspaceFolder st with
  | None => (Ret (error_result no_folder_short), st)
  | Some cwd =>
      match Server.as_string command with
      | Throw m => (Throw m, st)
      | Ret cmd =>
          let st := emit (Spawn cmd cwd) st in
          match spawn cmd cwd with
          | closed output code =>
              (Ret (process_result (foldr String.append "" output)
                      (code =? 0)%Z code),
               match approvalId with
               | Some a =>
                   foldl (λ st c, emit (Post (terminal_out c a)) st) st output
               | None => st
               end)
          | spawn_error m => (Ret (process_error m), st)
          end
      end
  end.

(** What the callback of a batch has for a call, once launched: its tool
    message, or a command that waits for the decision on its approval. *)
Inductive task : Type :=
| settled (m : message)
| awaiting (tc : tool_call) (command : option JS.value) (approvalId : string).

(** [_runTerminalCommand] up to its [await]: in full mode the command is
    run at once; otherwise the approval is posted and the resolver is kept
    under a fresh reading of the clock, for the call at place [slot]. *)
Definition _runTerminalCommand_begin `{Host} (slot : nat)
    (command : option JS.value) (st : state)
    : (exn result + string) * state :=
  match securityMode st with
  | full => let '(r, st) := run_process command None st in (inl r, st)
  | secure =>
      let approvalId := Date_now (clock st) in
      let st := emit (Post (approval approvalId command)) (tick st) in
      (inr approvalId,
       set_approvals (<[approvalId := slot]> (pendingApprovals st)) st)
  end.

(** [_runTerminalCommand] after its [await], with the decision. *)
Definition _runTerminalCommand_end `{Host} (approved : bool)
    (command : option JS.value) (approvalId : string) (st : state)
    : exn result * state :=
  if negb approved then (Ret (error_result rejected), st)
  else run_process command (Some approvalId) st.

(** The tool message of a call with its result; a throw of the tool is
    caught into an error result. *)
Definition tool_reply (tc : tool_call) (r : exn result) : message :=
  tool_message (id tc) (name tc)
    match r with
    | Ret r => r
    | Throw m => error_result m
    end.

(** The label posted before a tool runs. *)
Definition statusLabel (tc : tool_call) (args : JS.object) : string :=
  if String.eqb (name tc) "edit_file"
  then "Writing to " +:+ JS.ToString (args !! "target_file") +:+ "..."
  else "Running " +:+ name tc +:+ "...".

(** The [switch] on the name of the tool, for the tools that do not wait. *)
Definition dispatch `{Host} (toolName : string) (args : JS.object) (st : state)
    : exn result * state :=
  if String.eqb toolName "edit_file"
  then _editFile (args !! "target_file") (args !! "code_edit") st
  else if String.eqb toolName "read_file"
  then _readFile (args !! "target_file") (args !! "should_read_entire_file")
         (args !! "start_line_one_indexed")
         (args !! "end_line_one_indexed_inclusive") st
  else if String.eqb toolName "list_dir"
  then _listDir (args !! "relative_workspace_path") st
  else if String.eqb toolName "codebase_search"
  then _codebaseSearch (args !! "query") st
  else if String.eqb toolName "grep_search"
  then _grepSearch (args !! "query") st
  else if String.eqb toolName "file_search"
  then _fileSearch (args !! "query") st
  else if String.eqb toolName "search_replace"
  then _searchReplace (args !! "file_path") (args !! "old_string")
         (args !! "new_string") st
  else if String.eqb toolName "create_diagram"
  then _createDiagram (args !! "content") st
  else if String.eqb toolName "delete_file"
  then _deleteFile (args !! "target_file") st
  else if String.eqb toolName "get_diagnostics"
  then _getDiagnostics (args !! "target_file") st
  else if String.eqb toolName "view_file_outline"
  then _viewFileOutline (args !! "target_file") st
  else (Ret (error_result unknown_tool), st).

(** The callback of the batch for the call at place [slot].  Each tool is
    taken as one step at its place in the batch; a command that waits for
    its approval is the one call that stays open. *)
Definition launch_one `{Platform} `{Host} (slot : nat) (tc : tool_call)
    (st : state) : task * state :=
  match JSON_parse (arguments tc) with
  | None => (settled (tool_reply tc (Ret (error_result invalid_arguments))), st)
  | Some args =>
      let st := emit (Post (tool_executing (statusLabel tc args))) st in
      if String.eqb (name tc) "run_terminal_cmd" then
        match _runTerminalCommand_begin slot (args !! "command") st with
        | (inl r, st) => (settled (tool_reply tc r), st)
        | (inr approvalId, st) =>
            (awaiting tc (args !! "command") approvalId, st)
        end
      else
        let '(r, st) := dispatch (name tc) args st in
        (settled (tool_reply tc r), st)
  end.

(** [assistantMessage.tool_calls.map(async (tc) => ...)]: every call of the
    batch is launched, in order, from place [slot] on.  The schedule taken
    is the one in which a callback has its result, or waits for its
    approval, before the next one starts; the promises of the file system
    may resolve in another order in the editor, which tells two calls of
    one batch apart only when they touch the same file. *)
Fixpoint launch `{Platform} `{Host} (slot : nat) (calls : list tool_call)
    (st : state) : list task * state :=
  match calls with
  | [] => ([], st)
  | tc :: rest =>
      let '(t, st) := launch_one slot tc st in
      let '(ts, st) := launch (S slot) rest st in
      (t :: ts, st)
  end.

(** The results of a batch, when [Promise.all] has them all. *)
Fixpoint results (tasks : list task) : option (list message) :=
  match tasks with
  | [] => Some []
  | settled m :: rest => (m ::.) <$> results rest
  | awaiting _ _ _ :: _ => None
  end.

(** *** The stream decoder of [_runAgentLoop] *)

(** What the decoder keeps between two reads. *)
Record decoding : Type := {
  buffer : string;
  fullContent : string;
  toolCalls : list (option tool_call);
}.

Definition with_buffer (b : string) (d : decoding) : decoding :=
  {| buffer := b; fullContent := fullContent d; toolCalls := toolCalls d |}.

(** The body of [for (const tc of delta.tool_calls)]. *)
Definition apply_tool_delta (acc : list (option tool_call) * state)
    (tc : Server.tool_call_delta) : list (option tool_call) * state :=
  let '(toolCalls, st) := acc in
  let index := Server.index tc in
  let cur :=
    default {| id := Server.delta_id tc; name := ""; arguments := "" |}
      (JS.array_get toolCalls index) in
  let cur :=
    if JS.nonempty (Server.delta_id tc)
    then {| id := Server.delta_id tc; name := name cur;
            arguments := arguments cur |}
    else cur in
  let '(cur, st) :=
    match Server.delta_name tc with
    | Some n =>
        if JS.nonempty (Some n)
        then ({| id := id cur; name := name cur +:+ n;
                 arguments := arguments cur |},
              emit (Post (tool_call_post (name cur +:+ n))) st)
        else (cur, st)
    | None => (cur, st)
    end in
  let cur :=
    match Server.delta_arguments tc with
    | Some a => {| id := id cur; name := name cur;
                   arguments := arguments cur +:+ a |}
    | None => cur
    end in
  (JS.array_set toolCalls index cur, st).

(** What a parsed data line adds. *)
Definition apply_delta (delta : Server.delta) (d : decoding) (st : state)
    : decoding * state :=
  let '(content, st) :=
    match Server.content delta with
    | Some text =>
        if JS.nonempty (Some text)
        then (fullContent d +:+ text, emit (Post (content_post text)) st)
        else (fullContent d, st)
    | None => (fullContent d, st)
    end in
  let '(calls, st) :=
    match Server.tool_calls delta with
    | Some tcs => foldl apply_tool_delta (toolCalls d, st) tcs
    | None => (toolCalls d, st)
    end in
  ({| buffer := buffer d; fullContent := content; toolCalls := calls |}, st).

(** The [for (const line of lines)] loop: the [break] at the sentinel
    leaves this loop, the lines after it in [lines] are not looked at. *)
Fixpoint process_lines `{Host} (lines : list string) (d : decoding)
    (st : state) : decoding * state :=
  match lines with
  | [] => (d, st)
  | line :: rest =>
      let cleanLine := JS.trim line in
      if String.eqb cleanLine "" || negb (JS.startsWith cleanLine "data: ")
      then process_lines rest d st
      else
        let dataStr := JS.trim (JS.replace cleanLine "data: " "") in
        if String.eqb dataStr "[DONE]" then (d, st)
        else
          match parse_data dataStr with
          | Some (Some delta) =>
              let '(d, st) := apply_delta delta d st in
              process_lines rest d st
          | Some None | None => process_lines rest d st
          end
  end.

(** The [while (true)] loop over the chunks read. *)
Fixpoint read_stream `{Host} (chunks : list string) (d : decoding)
    (st : state) : decoding * state :=
  match chunks with
  | [] => (d, st)
  | value :: rest =>
      let '(lines, buffer) := JS.pop (JS.split_lines (buffer d +:+ value)) in
      let '(d, st) := process_lines lines (with_buffer buffer d) st in
      read_stream rest d st
  end.

Definition start_decoding : decoding :=
  {| buffer := ""; fullContent := ""; toolCalls := [] |}.

(** *** The loop of [_runAgentLoop] *)

(** How a run of the loop stands: it returned, it waits in [Promise.all] on
    the tasks of a batch, or a throw or an abort left it. *)
Inductive outcome : Type :=
| finished (st : state)
| waiting (st : state) (loopCount : nat) (tasks : list task)
| failed (st : state) (error : string)
| aborted (st : state).

(** [toolCalls.filter(tc => tc && tc.name)], when [toolCalls.length > 0]. *)
Definition named_calls (toolCalls : list (option tool_call))
    : option (list tool_call) :=
  if 0 <? length toolCalls
  then Some (filter (λ tc, JS.nonempty (Some (name tc))) (JS.present toolCalls))
  else None.

(** [lastResults.some(...)] on [history.filter(h => h.role === 'tool')]
    sliced from [-0], that is, on every tool message of the history. *)
Definition hadError (history : list message) : bool :=
  existsb (λ m, match m with
                | tool_message _ _ r => has_error r
                | _ => false
                end) history.

Definition tool_warning : string :=
  "UYARI: Araçlarda hata oluştu. Lütfen düzeltmek için edit_file kullan.".

Definition maxLoops : nat := 15.

(** [while (!isDone && loopCount < 15)], entered with [isDone] false;
    [budget] is [15 - loopCount]. *)
Fixpoint run `{Platform} `{Host} (budget loopCount : nat) (st : state)
    : outcome :=
  match budget with
  | 0 => finished st
  | S budget' =>
      let loopCount := S loopCount in
      let reply := fetch loopCount (history st) in
      let st := emit (Fetch loopCount (history st)) st in
      match reply with
      | fetch_aborted => aborted st
      | fetch_failed m => failed st m
      | not_ok text => failed st ("API Error: " +:+ text)
      | no_body => failed st "Response body is null"
      | body chunks e =>
          let '(d, st) := read_stream chunks start_decoding st in
          match e with
          | read_aborted => aborted st
          | read_failed m => failed st m
          | ended =>
              let tool_calls := named_calls (toolCalls d) in
              let st := push [assistant_message (fullContent d) tool_calls] st in
              match tool_calls with
              | Some (tc :: rest) =>
                  let '(tasks, st) := launch 0 (tc :: rest) st in
                  match results tasks with
                  | Some rs =>
                      run budget' loopCount (emit (Post done) (push rs st))
                  | None => waiting st loopCount tasks
                  end
              | _ =>
                  if hadError (history st) && (loopCount <? 10)
                  then run budget' loopCount (push [system_message tool_warning] st)
                  else finished (emit (Post done) st)
              end
          end
      end
  end.

(** [_handleAgentMessage]: the user's text joins the transcript and the
    loop is run; an error that is not an abort is posted. *)
Definition _handleAgentMessage `{Platform} `{Host} (userText : string)
    (st : state) : outcome :=
  match run maxLoops 0
          (push [user_message userText] (emit (Post startStreaming) st)) with
  | failed st m => failed (emit (Post (error_post m)) st) m
  | o => o
  end.

(** The [terminalApproval] message: the resolver kept under the id, if any,
    is called with the choice and forgotten; the command it resumes ends,
    and when the batch has all its results the loop goes on. *)
Definition terminalApproval `{Platform} `{Host} (id : string) (choice : bool)
    (o : outcome) : outcome :=
  match o with
  | waiting st loopCount tasks =>
      match pendingApprovals st !! id with
      | None => o
      | Some slot =>
          let st := set_approvals (delete id (pendingApprovals st)) st in
          match tasks !! slot with
          | Some (awaiting tc command approvalId) =>
              let '(r, st) :=
                _runTerminalCommand_end choice command approvalId st in
              let tasks := <[slot := settled (tool_reply tc r)]> tasks in
              match results tasks with
              | Some rs =>
                  match run (maxLoops - loopCount) loopCount
                          (emit (Post done) (push rs st)) with
                  | failed st m => failed (emit (Post (error_post m)) st) m
                  | o => o
                  end
              | None => waiting st loopCount tasks
              end
          | _ => waiting st loopCount tasks
          end
      end
  | _ => o
  end.

(** *** The pending edits *)

(** [_writePendingEdit] *)
Definition _writePendingEdit (filePath : string) (st : state) : state :=
  match map_get filePath (pendingEdits st) with
  | Some pending =>
      match fs_writeFile (uri_file filePath) (newContent pending) st with
      | Ret st =>
          emit (Post (edit_approved filePath))
            (set_edits (map_delete filePath (pendingEdits st)) st)
      | Throw _ => st
      end
  | None => st
  end.

(** [_rejectPendingEdit] *)
Definition _rejectPendingEdit (filePath : string) (st : state) : state :=
  emit (Post (edit_rejected filePath))
    (set_edits (map_delete filePath (pendingEdits st)) st).

(** The [for (const [f, p] of this._pendingEdits)] of [_approveAllEdits]. *)
Fixpoint write_all (edits : list (string * pending_edit)) (st : state)
    : exn state :=
  match edits with
  | [] => Ret st
  | (f, p) :: rest =>
      st ← fs_writeFile (uri_file f) (newContent p) st;
      write_all rest st
  end.

(** [_approveAllEdits]; a write that throws leaves the rest undone. *)
Definition _approveAllEdits (st : state) : state :=
  match write_all (pendingEdits st) st with
  | Ret st => emit (Post all_edits_approved) (set_edits [] st)
  | Throw _ => st
  end.

(** [_rejectAllEdits] *)
Definition _rejectAllEdits (st : state) : state :=
  emit (Post all_edits_rejected) (set_edits [] st).

(** The messages of the webview that concern the mode and the edits. *)
Inductive webview_message : Type :=
| setSecurityMode (value : mode)
| approveEdit (file : string)
| rejectEdit (file : string)
| approveAll
| rejectAll.

(** The cases of [onDidReceiveMessage] for them. *)
Definition receive (m : webview_message) (st : state) : state :=
  match m with
  | setSecurityMode value =>
      emit (Post (securityModeChanged value)) (set_mode value st)
  | approveEdit filePath => _writePendingEdit filePath st
  | rejectEdit filePath => _rejectPendingEdit filePath st
  | approveAll => _approveAllEdits st
  | rejectAll => _rejectAllEdits st
  end.

End Extension.

(** ** A platform to run the code on

    [JSON.parse] for the flat objects of the tool schemas (string, boolean
    and integer fields, the simple escapes), and the comparison of names by
    their characters, which is what [localeCompare] gives on names in one
    case. *)

Module Sample.

Definition quoted (s : string) : string := JS.dquote +:+ s +:+ JS.dquote.

Fixpoint skip_white (s : string) : string :=
  match s with
  | String c r =>
      if bool_decide (nat_of_ascii c ∈ [9; 10; 13; 32]) then skip_white r else s
  | EmptyString => EmptyString
  end.

(** The characters of a string literal up to its closing quote, and what
    follows it. *)
Fixpoint string_body (s : string) : option (string * string) :=
  match s with
  | EmptyString => None
  | String "034" r => Some (EmptyString, r)
  | String "\" (String c r) =>
      e ← (if Ascii.eqb c "n" then Some "010"%char
           else if Ascii.eqb c "t" then Some "009"%char
           else if Ascii.eqb c "r" then Some "013"%char
           else if Ascii.eqb c "b" then Some "008"%char
           else if Ascii.eqb c "f" then Some "012"%char
           else if Ascii.eqb c "/" then Some "/"%char
           else if Ascii.eqb c "\" then Some "\"%char
           else if Ascii.eqb c "034" then Some "034"%char
           else None);
      '(body, rest) ← string_body r;
      Some (String e body, rest)
  | String c r =>
      if nat_of_ascii c <? 32 then None
      else '(body, rest) ← string_body r; Some (String c body, rest)
  end.

Definition digit (c : ascii) : option Z :=
  let n := nat_of_ascii c in
  if (48 <=? n) && (n <=? 57) then Some (Z.of_nat (n - 48)) else None.

Fixpoint digits (s : string) (acc : Z) : Z * string :=
  match s with
  | String c r =>
      match digit c with
      | Some d => digits r (10 * acc + d)%Z
      | None => (acc, s)
      end
  | EmptyString => (acc, s)
  end.

(** An integer without fraction or exponent. *)
Definition integer (s : string) : option (Z * string) :=
  let '(neg, s) :=
    match s with
    | String "-" r => (true, r)
    | _ => (false, s)
    end in
  match s with
  | String "0" r => Some (0%Z, r)
  | String c _ =>
      match digit c with
      | Some _ =>
          let '(n, rest) := digits s 0 in
          Some (if neg : bool then (- n)%Z else n, rest)
      | None => None
      end
  | EmptyString => None
  end.

Definition a_value (s : string) : option (JS.value * string) :=
  match s with
  | String "034" r => '(body, rest) ← string_body r; Some (JS.VStr body, rest)
  | _ =>
      match JS.strip_prefix "true" s, JS.strip_prefix "false" s with
      | Some rest, _ => Some (JS.VBool true, rest)
      | _, Some rest => Some (JS.VBool false, rest)
      | None, None => '(n, rest) ← integer s; Some (JS.VNum n, rest)
      end
  end.

(** The members of an object, from a key on; a key given twice keeps its
    last value. *)
Fixpoint members (budget : nat) (s : string) (o : JS.object)
    : option JS.object :=
  match budget with
  | 0 => None
  | S budget =>
      match skip_white s with
      | String "034" r =>
          '(key, r) ← string_body r;
          match skip_white r with
          | String ":" r =>
              '(v, r) ← a_value (skip_white r);
              match skip_white r with
              | String "," r => members budget r (<[key := v]> o)
              | String "}" r =>
                  match skip_white r with
                  | EmptyString => Some (<[key := v]> o)
                  | _ => None
                  end
              | _ => None
              end
          | _ => None
          end
      | _ => None
      end
  end.

Definition parse_object (s : string) : option JS.object :=
  match skip_white s with
  | String "{" r =>
      match skip_white r with
      | String "}" r' =>
          match skip_white r' with
          | EmptyString => Some ∅
          | _ => None
          end
      | _ => members (String.length s) r ∅
      end
  | _ => None
  end.

Definition compare_names (a b : string) : Z :=
  match String.compare a b with
  | Lt => (-1)%Z
  | Eq => 0%Z
  | Gt => 1%Z
  end.

#[global] Instance platform : Platform :=
  {| JSON_parse := parse_object; localeCompare := compare_names |}.

(** The text of a stream event with a content delta, and of one with the
    first fragment of a tool call. *)
Definition content_text (text : string) : string :=
  "{" +:+ quoted "choices" +:+ ":[{" +:+ quoted "delta" +:+ ":{"
  +:+ quoted "content" +:+ ":" +:+ quoted text +:+ "}}]}".

Definition call_text (id name arguments : string) : string :=
  "{" +:+ quoted "choices" +:+ ":[{" +:+ quoted "delta" +:+ ":{"
  +:+ quoted "tool_calls" +:+ ":[{" +:+ quoted "index" +:+ ":0,"
  +:+ quoted "id" +:+ ":" +:+ quoted id +:+ "," +:+ quoted "function"
  +:+ ":{" +:+ quoted "name" +:+ ":" +:+ quoted name +:+ ","
  +:+ quoted "arguments" +:+ ":" +:+ quoted arguments +:+ "}}]}}]}".

(** The events of the streams used below, as [JSON.parse] reads them. *)
Definition parse_event (s : string) : option (option Server.delta) :=
  if String.eqb s (content_text "hi")
  then Some (Some {| Server.content := Some "hi"; Server.tool_calls := None |})
  else if String.eqb s (call_text "call_1" "list_dir" "{}")
  then Some (Some {| Server.content := None;
                     Server.tool_calls :=
                       Some [{| Server.index := 0;
                                Server.delta_id := Some "call_1";
                                Server.delta_name := Some "list_dir";
                                Server.delta_arguments := Some "{}" |}] |})
  else None.

(** A data line. *)
Definition data_line (payload : string) : string :=
  "data: " +:+ payload +:+ Extension.nl.

(** A host whose model asks for a listing at every turn. *)
#[global] Instance host : Extension.Host :=
  {| Extension.fetch := λ _ _,
       Extension.body
         [data_line (call_text "call_1" "list_dir" "{}"); data_line "[DONE]"]
         Extension.ended;
     Extension.parse_data := parse_event;
     Extension.Date_now := λ n, pretty (1700000000000 + N.of_nat n)%N;
     Extension.spawn := λ _ _, Extension.closed ["done"] 0;
     Extension.findFiles := λ _, [];
     Extension.getDiagnostics := λ _, [];
     Extension.documentSymbols := λ _, None |}.

(** The same host with a clock that stands still: every reading made
    within one millisecond gives the same text. *)
Definition stopped_clock : Extension.Host :=
  {| Extension.fetch := @Extension.fetch host;
     Extension.parse_data := parse_event;
     Extension.Date_now := λ _, "1700000000000";
     Extension.spawn := λ _ _, Extension.closed ["done"] 0;
     Extension.findFiles := λ _, [];
     Extension.getDiagnostics := λ _, [];
     Extension.documentSymbols := λ _, None |}.

(** A response of the model with one tool call. *)
Definition one_call (id name arguments : string) : Server.stream :=
  {| Server.chunks :=
       [Some {| Server.content := None;
                Server.tool_calls :=
                  Some [{| Server.index := 0;
                           Server.delta_id := Some id;
                           Server.delta_name := Some name;
                           Server.delta_arguments := Some arguments |}] |}];
     Server.failure := None |}.

(** A response of the model with the given calls (id, name, arguments), one
    fragment for each. *)
Definition calls (l : list (string * string * string)) : Server.stream :=
  {| Server.chunks :=
       [Some {| Server.content := None;
                Server.tool_calls :=
                  Some (imap (λ i c,
                                {| Server.index := i;
                                   Server.delta_id := Some c.1.1;
                                   Server.delta_name := Some c.1.2;
                                   Server.delta_arguments := Some c.2 |}) l) |}];
     Server.failure := None |}.

(** A server whose model answers every request with the given stream. *)
Definition server (answer : Server.stream) : Server.Surroundings :=
  {| Server.WORKSPACE_DIR := "/ws";
     Server.getSystemPrompt := λ _ _, "You are Watch.ai Agent";
     Server.completions_create := λ _ _, answer;
     Server.run_process := λ _ _ _, Server.exited "done" |}.

Definition request (text : string) : Server.chat_request :=
  {| Server.req_message := text; Server.req_activeFile := None;
     Server.req_fileContent := None; Server.req_history := [] |}.

(** A chat of the server at its start. *)
Definition chat : Server.chat :=
  {| Server.the_world :=
       {| Server.fs := list_to_map
                         [("/ws", Fs.Dir ["a.txt"]);
                          ("/ws/a.txt", Fs.File "cost: 5 and 5")];
          Server.sessionStats := Server.fresh_stats |};
     Server.chatMessages := [];
     Server.trace := [] |}.

(** An object from its fields. *)
Definition object (fields : list (string * JS.value)) : JS.object :=
  list_to_map fields.

(** The text of an object with string fields. *)
Fixpoint fields_text (fields : list (string * string)) : string :=
  match fields with
  | [] => ""
  | [(k, v)] => quoted k +:+ ":" +:+ quoted v
  | (k, v) :: rest => quoted k +:+ ":" +:+ quoted v +:+ "," +:+ fields_text rest
  end.

Definition object_text (fields : list (string * string)) : string :=
  "{" +:+ fields_text fields +:+ "}".

(** A workspace: two files, two folders, one of them to skip, and a name
    whose [stat] throws. *)
Definition workspace : Fs.t :=
  list_to_map
    [("/ws", Fs.Dir ["b.txt"; "node_modules"; "A"; "a.txt"; "ghost"]);
     ("/ws/b.txt", Fs.File "beta");
     ("/ws/node_modules", Fs.Dir ["x.js"]);
     ("/ws/node_modules/x.js", Fs.File "x");
     ("/ws/A", Fs.Dir []);
     ("/ws/a.txt", Fs.File "cost: 5 and 5")].

Definition world : Server.world :=
  {| Server.fs := workspace; Server.sessionStats := Server.fresh_stats |}.

(** The extension on that workspace, in the given mode, with nothing
    pending. *)
Definition editor (m : Extension.mode) : Extension.state :=
  {| Extension.securityMode := m;
     Extension.workspaceFolder := Some "/ws";
     Extension.files := workspace;
     Extension.pendingApprovals := ∅;
     Extension.pendingEdits := [];
     Extension.history := [];
     Extension.trace := [];
     Extension.clock := 0 |}.

End Sample.

(** ** The notions the statements are written with *)

Module Spec.

(** [p] occurs in [s]. *)
Definition contains (s p : string) : Prop :=
  ∃ before after, s = before +:+ p +:+ after.

(** [p] occurs in [s] after [before], and nowhere further left. *)
Definition first_match (s p before after : string) : Prop :=
  s = before +:+ p +:+ after
  ∧ ∀ before' after',
      s = before' +:+ p +:+ after' → String.length before ≤ String.length before'.

(** A replacement text without a dollar. *)
Fixpoint plain (s : string) : bool :=
  match s with
  | EmptyString => true
  | String c r => negb (Ascii.eqb c "$") && plain r
  end.

(** The text a list of chunks makes up. *)
Definition whole (chunks : list string) : string :=
  foldr String.append "" chunks.

(** A text cut into its complete lines, those a line break ends, and the
    rest after the last line break. *)
Fixpoint cut (s : string) : list string * string :=
  match s with
  | EmptyString => ([], EmptyString)
  | String c r =>
      let '(lines, rest) := cut r in
      if Ascii.eqb c JS.newline then (EmptyString :: lines, rest)
      else match lines with
           | [] => ([], String c rest)
           | l :: lines' => (String c l :: lines', rest)
           end
  end.

Definition complete_lines (s : string) : list string := (cut s).1.

(** A line the extension's decoder passes over: blank, or not a data
    line. *)
Definition passed_over (line : string) : bool :=
  let cleanLine := JS.trim line in
  String.eqb cleanLine "" || negb (JS.startsWith cleanLine "data: ").

(** The sentinel line. *)
Definition sentinel (line : string) : bool :=
  negb (passed_over line)
  && String.eqb (JS.trim (JS.replace (JS.trim line) "data: " "")) "[DONE]".

(** The lines of a stream that the sentinel closes: after a sentinel line
    there are only lines passed over, and sentinel lines. *)
Fixpoint closed_by_sentinel (lines : list string) : bool :=
  match lines with
  | [] => true
  | line :: rest =>
      if sentinel line
      then forallb (λ l, passed_over l || sentinel l) rest
      else closed_by_sentinel rest
  end.

(** The tool calls a stream of chunks accumulates. *)
Definition gather_chunk (toolCalls : list (option Server.tool_call))
    (chunk : option Server.delta) : list (option Server.tool_call) :=
  match chunk with
  | Some d =>
      match Server.tool_calls d with
      | Some tcs => foldl Server.accumulate toolCalls tcs
      | None => toolCalls
      end
  | None => toolCalls
  end.

Definition gather (chunks : list (option Server.delta))
    : list (option Server.tool_call) :=
  foldl gather_chunk [] chunks.

(** The number of elements of a kind. *)
Definition count {A} (kind : A → bool) (l : list A) : nat :=
  length (List.filter kind l).

(** A call the loop over a batch goes through: it is not a command, its
    arguments parse, and its name is not one of those that the table of
    handlers only inherits and that throw when called. *)
Definition gone_through `{Platform} (tc : Server.tool_call) : Prop :=
  Server.name tc ≠ "runCommand"
  ∧ (Server.name tc ∉ Server.receiver_needed)
  ∧ ∃ args, Server.parse_arguments tc = Ret args.

(** The name of the call is found in the table of handlers, among the
    names it defines or those it inherits. *)
Definition found `{Platform} `{Server.Surroundings} (tc : Server.tool_call)
    : Prop :=
  is_Some (Server.handler_of Server.WORKSPACE_DIR (Server.name tc)).

#[global] Instance found_dec `{Platform} `{Server.Surroundings} tc :
  Decision (found tc).
Proof. unfold found. apply _. Defined.

(** The tool message that answers a call, and the step written for it. *)
Definition answers (tc : Server.tool_call) (m : Server.message) : Prop :=
  ∃ r, m = Server.tool_message (Server.id tc) r.

Definition step_of (tc : Server.tool_call) (e : Server.effect) : Prop :=
  ∃ r, e = Server.Write (Server.step_event (Server.name tc)
                           (Server.success_field r) (Server.summary r)).





Definition is_write (e : Server.effect) : bool :=
  match e with Server.Write _ => true | _ => false end.

(** The effects of the extension, by kind. *)
Definition is_fetch (e : Extension.effect) : bool :=
  match e with Extension.Fetch _ _ => true | _ => false end.

Definition is_spawn (e : Extension.effect) : bool :=
  match e with Extension.Spawn _ _ => true | _ => false end.

Definition is_approval (e : Extension.effect) : bool :=
  match e with Extension.Post (Extension.approval _ _) => true | _ => false end.

Definition is_file_change (e : Extension.effect) : bool :=
  match e with
  | Extension.WriteFile _ _ | Extension.DeleteFile _ => true
  | _ => false
  end.

(** The state of the extension in an outcome of its loop. *)
Definition state_of (o : Extension.outcome) : Extension.state :=
  match o with
  | Extension.finished st | Extension.waiting st _ _
  | Extension.failed st _ | Extension.aborted st => st
  end.


(** The messages of the webview that approve edits. *)
Definition approves_edits (m : Extension.webview_message) : bool :=
  match m with
  | Extension.approveEdit _ | Extension.approveAll => true
  | _ => false
  end.

(** A comparison of names that orders them: any two names compare one
    way or the other, and the order goes through. *)
Definition consistent (compare : string → string → Z) : Prop :=
  (∀ a b, (compare a b ≤ 0)%Z ∨ (compare b a ≤ 0)%Z)
  ∧ (∀ a b c, (compare a b ≤ 0)%Z → (compare b c ≤ 0)%Z → (compare a c ≤ 0)%Z).

(** The order of a listing: no file before a folder, and among folders as
    among files the names as [localeCompare] orders them. *)
Definition ordered `{Platform} (es : list Server.entry) : Prop :=
  ∀ i j a b, i < j → es !! i = Some a → es !! j = Some b →
    (Server.entry_type a = Server.file → Server.entry_type b = Server.file)
    ∧ (Server.entry_type a = Server.entry_type b →
       (localeCompare (Server.entry_name a) (Server.entry_name b) ≤ 0)%Z).

(** A listing in that order and without the names to skip, at every
    depth. *)
Inductive well_listed `{Platform} : list Server.entry → Prop :=
| well_listed_intro es :
    ordered es →
    Forall (λ e, Server.ignored (Server.entry_name e) = false) es →
    Forall (λ e, ∀ children,
              Server.entry_children e = Some children → well_listed children)
      es →
    well_listed es.

(** The same two demands on the entries of the extension's [list_dir]. *)
Definition flat_listed (es : list (string * Extension.entry_type)) : Prop :=
  Forall (λ e, Server.ignored e.1 = false) es
  ∧ ∀ i j a b, i < j → es !! i = Some a → es !! j = Some b →
      a.2 = Extension.file → b.2 = Extension.file.

End Spec.

(** ** The file endpoints of the server ([server/index.js])

    The bodies modelled are those the client sends: a path that is a string
    or is missing, a content that is a string. *)

Module Api.


Definition tee : string := "├── ".
Definition elbow : string := "└── ".
Definition bar : string := "│   ".
Definition blank : string := "    ".

(** The pieces [getProjectStructure(dir, prefix, level)] adds to its result,
    in order; [budget] is [3 - level]. *)
Fixpoint structure_pieces (budget : nat) (fs : Fs.t) (dir prefix : string)
    : list string :=
  match budget with
  | 0 => []
  | S budget' =>
      match Fs.readdirSync fs dir with
      | Throw _ => []
      | Ret names =>
          let items :=
            take 20 (filter (λ item, Server.ignored item = false) names) in
          concat
            (imap (λ index item,
                     let fullPath := Fs.join dir item in
                     let isLast := bool_decide (index = length items - 1) in
                     match Fs.statSync_isDirectory fs fullPath with
                     | Throw _ => []
                     | Ret isDir =>
                         (prefix +:+ (if isLast then elbow else tee) +:+ item
                          +:+ Extension.nl)
                         :: (if isDir : bool
                             then structure_pieces budget' fs fullPath
                                    (prefix +:+ (if isLast then blank else bar))
                             else [])
                     end) items)
      end
  end.

(** [getProjectStructure(dir)] *)
Definition getProjectStructure (fs : Fs.t) (dir : string) : string :=
  foldr String.append "" (structure_pieces 3 fs dir "").

(** What an endpoint answers. *)
Inductive reply : Type :=
| json_tree (tree : option Server.entry)
| json_content (content : string)
| json_success
| status_error (status : nat) (error : string).

Definition invalid_path : string := "Invalid path".

(** [if (!filePath) return res.status(400)...]: the path when it can be
    used. *)
Definition given (path : option string) : option string :=
  match path with
  | Some p => if String.eqb p "" then None else Some p
  | None => None
  end.


(** [app.post('/api/file')] *)
Definition post_file (path : option string) (fs : Fs.t) : reply :=
  match given path with
  | None => status_error 400 invalid_path
  | Some filePath =>
      match Fs.readFileSync fs filePath with
      | Ret content => json_content content
      | Throw m => status_error 500 m
      end
  end.

(** [app.post('/api/save')] *)
Definition post_save (path : option string) (content : string) (fs : Fs.t)
    : reply * Fs.t :=
  match given path with
  | None => (status_error 400 invalid_path, fs)
  | Some filePath =>
      match Fs.writeFileSync fs filePath content with
      | Ret fs' => (json_success, fs')
      | Throw m => (status_error 500 m, fs)
      end
  end.

(** [app.post('/api/file/create')] *)
Definition post_create (path type : option string) (fs : Fs.t)
    : reply * Fs.t :=
  match given path with
  | None => (status_error 400 invalid_path, fs)
  | Some filePath =>
      if bool_decide (type = Some "folder") then
        if Fs.existsSync fs filePath then (json_success, fs)
        else
          match Fs.mkdirSync_recursive fs filePath with
          | Ret fs1 => (json_success, fs1)
          | Throw m => (status_error 500 m, fs)
          end
      else
        let dir := Fs.dirname filePath in
        match (if Fs.existsSync fs dir then Ret fs
               else Fs.mkdirSync_recursive fs dir) with
        | Throw m => (status_error 500 m, fs)
        | Ret fs1 =>
            if Fs.existsSync fs1 filePath then (json_success, fs1)
            else
              match Fs.writeFileSync fs1 filePath "" with
              | Ret fs2 => (json_success, fs2)
              | Throw m => (status_error 500 m, fs1)
              end
        end
  end.

(** [app.delete('/api/file')] *)
Definition delete_file (path : option string) (fs : Fs.t) : reply * Fs.t :=
  match given path with
  | None => (status_error 400 invalid_path, fs)
  | Some filePath =>
      match
        (isDir ← Fs.statSync_isDirectory fs filePath;
         if isDir : bool then Fs.rmSync_recursive fs filePath
         else Fs.unlinkSync fs filePath)
      with
      | Ret fs' => (json_success, fs')
      | Throw m => (status_error 500 m, fs)
      end
  end.

End Api.

(** ** The conversations the extension keeps ([extension.ts])

    [newChat], [showHistory], [_deleteChat], [_loadChat] and
    [_saveToHistory], on the list kept under ['watch-ai.history'] in the
    global state. *)

Module Archive.

(** An entry of the history: [{ id, title, timestamp, transcript }]. *)
Record conversation : Type := {
  conv_id : string;
  title : string;
  timestamp : Z;
  transcript : list Extension.message;
}.

(** What these functions do that can be seen from outside. *)
Inductive action : Type :=
| post_reset
| post_history (value : list conversation)
| post_loadChat (value : conversation)
| firebase_save (id : string) (transcript : list Extension.message)
| firebase_delete (id : string).

Record state : Type := {
  (** [globalState.get('watch-ai.history', [])] *)
  stored : list conversation;
  activeConversationId : option string;
  currentTranscript : list Extension.message;
  actions : list action;
  (** The number of readings of the clock made so far. *)
  readings : nat;
}.

(** [Date.now()], by the number of readings made before. *)
Class Clock : Type := { Date_now : nat → Z }.

Definition act (a : action) (st : state) : state :=
  {| stored := stored st; activeConversationId := activeConversationId st;
     currentTranscript := currentTranscript st; actions := actions st ++ [a];
     readings := readings st |}.

Definition store (history : list conversation) (st : state) : state :=
  {| stored := history; activeConversationId := activeConversationId st;
     currentTranscript := currentTranscript st; actions := actions st;
     readings := readings st |}.

(** [newChat] *)
Definition newChat (st : state) : state :=
  act post_reset
    {| stored := stored st; activeConversationId := None;
       currentTranscript := []; actions := actions st;
       readings := readings st |}.

(** [showHistory] *)
Definition showHistory (st : state) : state :=
  act (post_history (stored st)) st.

(** [_deleteChat] *)
Definition _deleteChat (id : string) (st : state) : state :=
  showHistory
    (act (firebase_delete id)
       (store (filter (λ h, conv_id h ≠ id) (stored st)) st)).

(** [history.find(h => h.id === id)] *)
Definition find (id : string) (history : list conversation)
    : option conversation :=
  List.find (λ h, String.eqb (conv_id h) id) history.

(** [_loadChat] *)
Definition _loadChat (id : string) (st : state) : state :=
  match find id (stored st) with
  | Some chat =>
      act (post_loadChat chat)
        {| stored := stored st; activeConversationId := Some id;
           currentTranscript := transcript chat; actions := actions st;
           readings := readings st |}
  | None => st
  end.

(** [m.role === 'user' || (m.role === 'assistant' && m.content)] *)
Definition kept (m : Extension.message) : bool :=
  match m with
  | Extension.user_message _ => true
  | Extension.assistant_message content _ => JS.nonempty (Some content)
  | _ => false
  end.

(** [firstMessage.substring(0, 40) + (firstMessage.length > 40 ? '...' : '')] *)
Definition title_of (firstMessage : string) : string :=
  JS.substring0 40 firstMessage
  +:+ (if 40 <? JS.length firstMessage then "..." else "").

(** [Array.from(new Map(history.map(item => [item.id, item])).values())]: a
    [Map] keeps a key at the place it was first set, with the value it was
    last given. *)
Definition unique (history : list conversation) : list conversation :=
  (foldl (λ m item, Extension.map_set (conv_id item) item m) [] history).*2.

(** The entry at [index] rewritten and moved to the front:
    [history[index].transcript = ...], [history[index].timestamp = ...],
    [history.splice(index, 1)] and [history.unshift(entry)]. *)
Definition renewed (index : nat) (clean : list Extension.message) (now : Z)
    (history : list conversation) : list conversation :=
  match history !! index with
  | Some h =>
      {| conv_id := conv_id h; title := title h; timestamp := now;
         transcript := clean |}
      :: take index history ++ drop (S index) history
  | None => history
  end.

(** [history.findIndex(h => h.id === conversationId)] *)
Fixpoint findIndex (id : string) (history : list conversation) : option nat :=
  match history with
  | [] => None
  | h :: rest =>
      if String.eqb (conv_id h) id then Some 0 else S <$> findIndex id rest
  end.

(** [this._firebase.saveConversation(id, transcript)]: the request is built
    at the call, and its [timestamp] field is one more reading of the
    clock. *)
Definition saveConversation (id : string)
    (transcript : list Extension.message) (st : state) : state :=
  act (firebase_save id transcript)
    {| stored := stored st; activeConversationId := activeConversationId st;
       currentTranscript := currentTranscript st; actions := actions st;
       readings := S (readings st) |}.

(** [_saveToHistory(firstMessage, transcript)] *)
Definition _saveToHistory `{Clock} (firstMessage : string)
    (transcript : list Extension.message) (st : state) : state :=
  let history := stored st in
  let cleanTranscript := List.filter kept transcript in
  let '(conversationId, history, st) :=
    match activeConversationId st with
    | Some conversationId =>
        if JS.nonempty (Some conversationId) then
          match findIndex conversationId history with
          | Some index =>
              (conversationId,
               renewed index cleanTranscript (Date_now (readings st)) history,
               {| stored := stored st;
                  activeConversationId := activeConversationId st;
                  currentTranscript := currentTranscript st;
                  actions := actions st; readings := S (readings st) |})
          | None => (conversationId, history, st)
          end
        else
          let conversationId := pretty (Date_now (readings st)) in
          (conversationId,
           {| conv_id := conversationId; title := title_of firstMessage;
              timestamp := Date_now (S (readings st));
              transcript := cleanTranscript |} :: history,
           {| stored := stored st; activeConversationId := Some conversationId;
              currentTranscript := currentTranscript st;
              actions := actions st; readings := S (S (readings st)) |})
    | None =>
        let conversationId := pretty (Date_now (readings st)) in
        (conversationId,
         {| conv_id := conversationId; title := title_of firstMessage;
            timestamp := Date_now (S (readings st));
            transcript := cleanTranscript |} :: history,
         {| stored := stored st; activeConversationId := Some conversationId;
            currentTranscript := currentTranscript st;
            actions := actions st; readings := S (S (readings st)) |})
    end in
  saveConversation conversationId cleanTranscript
    (store (take 50 (unique history)) st).

End Archive.

(** ** The response of the chat endpoint as text *)

Module Wire.

Section wire.

(** [JSON.stringify] on the events. *)
Context (stringify : Server.event → string).

(** [res.write(`data: ${JSON.stringify(event)}\n\n`)] *)
Definition frame (ev : Server.event) : string :=
  "data: " +:+ stringify ev +:+ Extension.nl +:+ Extension.nl.

(** The events written in a trace of the server, in order. *)
Definition written (trace : list Server.effect) : list Server.event :=
  omap (λ e, match e with Server.Write ev => Some ev | _ => None end) trace.

(** The text of the response that a trace makes up. *)
Definition response_text (trace : list Server.effect) : string :=
  foldr (λ ev s, frame ev +:+ s) "" (written trace).

End wire.

End Wire.

(** ** Further notions the statements are written with *)

Module Notion.

(** The tools of the server that change files. *)
Definition changes_files (toolName : string) : bool :=
  String.eqb toolName "writeFile" || String.eqb toolName "editFile"
  || String.eqb toolName "deleteFile".

(** A match of [searchInFiles] that holds: its file is there, the line it
    numbers (from 1) includes the query, and its content is that line,
    trimmed and cut at 100 code units. *)
Definition sound_hit (fs : Fs.t) (query : string) (h : Server.hit) : Prop :=
  ∃ content line,
    fs !! Server.hit_file h = Some (Fs.File content)
    ∧ 1 ≤ Server.hit_line h
    ∧ JS.split_lines content !! (Server.hit_line h - 1) = Some line
    ∧ JS.includes line query = true
    ∧ Server.hit_content h = JS.substring0 100 (JS.trim line).



(** The fragments of tool calls that the chunks of a stream carry, in the
    order they come. *)
Definition deltas (chunks : list (option Server.delta))
    : list Server.tool_call_delta :=
  chunks ≫= λ chunk,
    match chunk with
    | Some d => default [] (Server.tool_calls d)
    | None => []
    end.

(** Those of them written for the index [i]. *)
Definition fragments_at (i : nat) (tcs : list Server.tool_call_delta)
    : list Server.tool_call_delta :=
  filter (λ tc, Server.index tc = i) tcs.

(** The texts of a field of the fragments, one after the other. *)
Definition joined (field : Server.tool_call_delta → option string)
    (tcs : list Server.tool_call_delta) : string :=
  foldr (λ tc s, default "" (field tc) +:+ s) "" tcs.

(** The last id of the fragments that is not empty, or else [start]. *)
Definition last_id (start : string) (tcs : list Server.tool_call_delta)
    : string :=
  foldl (λ i tc, if JS.nonempty (Server.delta_id tc)
                 then default "" (Server.delta_id tc) else i) start tcs.

(** A call accumulated by the extension, read as the server keeps its
    calls: an id that is [undefined] reads as the empty one. *)
Definition as_server (tc : Extension.tool_call) : Server.tool_call :=
  {| Server.id := default "" (Extension.id tc);
     Server.name := Extension.name tc;
     Server.arguments := Extension.arguments tc |}.

Definition calls_as_server (a : list (option Extension.tool_call))
    : list (option Server.tool_call) :=
  (λ tc : option Extension.tool_call, as_server <$> tc) <$> a.

(** The requests to the model in a trace of the server: for each, its
    number and the messages sent. *)
Definition requests (trace : list Server.effect)
    : list (nat * list Server.message) :=
  omap (λ e, match e with
             | Server.Request loopCount messages => Some (loopCount, messages)
             | _ => None
             end) trace.


(** A response to the extension that is read to its end and holds no tool
    call: an answer in text. *)
Definition answers_in_text `{Extension.Host} (r : Extension.response)
    : Prop :=
  ∃ chunks,
    r = Extension.body chunks Extension.ended
    ∧ ∀ st, Extension.toolCalls
              (Extension.read_stream chunks Extension.start_decoding st).1
            = [].

(** The warning the loop of the extension adds to the transcript. *)
Definition is_warning (m : Extension.message) : bool :=
  match m with
  | Extension.system_message content =>
      String.eqb content Extension.tool_warning
  | _ => false
  end.

(** A text without a line break. *)
Fixpoint one_line (s : string) : bool :=
  match s with
  | EmptyString => true
  | String c r => negb (Ascii.eqb c JS.newline) && one_line r
  end.

(** The number of lines [getProjectStructure] can give with [budget]
    levels to go. *)
Fixpoint structure_bound (budget : nat) : nat :=
  match budget with
  | 0 => 0
  | S budget' => 20 * (1 + structure_bound budget')
  end.

(** The entry a line of the project structure names: what follows its
    branch mark ([tee] or [elbow]), after at most [depth] steps of
    indentation ([bar] or [blank]). *)
Fixpoint entry_at (depth : nat) (line : string) : option string :=
  match JS.strip_prefix Api.tee line, JS.strip_prefix Api.elbow line with
  | Some item, _ | None, Some item => Some item
  | None, None =>
      match depth with
      | 0 => None
      | S depth' =>
          match JS.strip_prefix Api.bar line, JS.strip_prefix Api.blank line with
          | Some rest, _ | None, Some rest => entry_at depth' rest
          | None, None => None
          end
      end
  end.

(** Steps of indentation, put end to end. *)
Definition indentation (units : list string) : string :=
  foldr String.append "" units.

(** Three levels are listed: a line is indented by two steps at most. *)
Definition entry_of (line : string) : option string := entry_at 2 line.

(** A name some directory of the file system lists. *)
Definition listed (fs : Fs.t) (item : string) : Prop :=
  ∃ p names, fs !! p = Some (Fs.Dir names) ∧ item ∈ names.

(** No name listed in a directory has a line feed in it. *)
Definition one_line_names (node : Fs.node) : bool :=
  match node with
  | Fs.Dir names => forallb one_line names
  | Fs.File _ => true
  end.

Definition names_one_line (fs : Fs.t) : Prop :=
  map_Forall (λ _ node, one_line_names node = true) fs.

End Notion.

(** ** Further samples *)

Module Fixture.

(** A serialisation of the one event of the trace it is used on, and its
    reading back. *)
Definition show_event (ev : Server.event) : string :=
  match ev with
  | Server.error_event m => "{" +:+ Sample.quoted "error" +:+ "}"
  | _ => "{}"
  end.

Definition read_event (s : string) : option Server.event :=
  if String.eqb s ("{" +:+ Sample.quoted "error" +:+ "}")
  then Some (Server.error_event Server.SyntaxError)
  else None.

(** A clock that advances by one at each reading. *)
#[global] Instance clock : Archive.Clock :=
  {| Archive.Date_now := λ n, (1700000000000 + Z.of_nat n)%Z |}.

(** The extension with one conversation kept, none open. *)
Definition archive : Archive.state :=
  {| Archive.stored :=
       [{| Archive.conv_id := "1600000000000"; Archive.title := "first";
           Archive.timestamp := 1600000000000%Z;
           Archive.transcript := [Extension.user_message "first"] |}];
     Archive.activeConversationId := None;
     Archive.currentTranscript := [];
     Archive.actions := [];
     Archive.readings := 0 |}.

(** A host whose model answers every request in text. *)
Definition talker : Extension.Host :=
  {| Extension.fetch := λ _ _,
       Extension.body
         [Sample.data_line (Sample.content_text "hi"); Sample.data_line "[DONE]"]
         Extension.ended;
     Extension.parse_data := Sample.parse_event;
     Extension.Date_now := λ n, pretty (1700000000000 + N.of_nat n)%N;
     Extension.spawn := λ _ _, Extension.closed ["done"] 0;
     Extension.findFiles := λ _, [];
     Extension.getDiagnostics := λ _, [];
     Extension.documentSymbols := λ _, None |}.

(** The editor after a tool has failed once. *)
Definition after_an_error : Extension.state :=
  {| Extension.securityMode := Extension.secure;
     Extension.workspaceFolder := Some "/ws";
     Extension.files := Sample.workspace;
     Extension.pendingApprovals := ∅;
     Extension.pendingEdits := [];
     Extension.history :=
       [Extension.user_message "fix it";
        Extension.tool_message (Some "call_1") "read_file"
          (Extension.error_result Fs.ENOENT)];
     Extension.trace := [];
     Extension.clock := 0 |}.

(** A project: a folder with a file in it, a folder to skip and a file. *)
Definition project : Fs.t :=
  list_to_map
    [("/p", Fs.Dir ["src"; ".git"; "README.md"]);
     ("/p/src", Fs.Dir ["index.js"]);
     ("/p/src/index.js", Fs.File "x");
     ("/p/.git", Fs.Dir ["HEAD"]);
     ("/p/.git/HEAD", Fs.File "ref: refs/heads/main");
     ("/p/README.md", Fs.File "hi")].

End Fixture.
(** * Properties *)

Lemma bind_Ret {A B} (a : A) (k : A → exn B) : (Ret a ≫= k) = k a.
Proof. reflexivity. Qed.

Lemma bind_Throw {A B} m (k : A → exn B) : (Throw m ≫= k) = Throw m.
Proof. reflexivity. Qed.

(** ** Strings *)

Lemma string_app_cons c s t : String c s +:+ t = String c (s +:+ t).
Proof. reflexivity. Qed.

Lemma string_app_nil_l s : "" +:+ s = s.
Proof. reflexivity. Qed.

Lemma string_app_nil_r s : s +:+ "" = s.
Proof. induction s as [|c s IH]; [done|]. by rewrite string_app_cons, IH. Qed.

Lemma string_app_assoc s t u : (s +:+ t) +:+ u = s +:+ t +:+ u.
Proof. induction s as [|c s IH]; [done|]. by rewrite !string_app_cons, IH. Qed.

Lemma string_app_length s t : String.length (s +:+ t) = String.length s + String.length t.
Proof. induction s as [|c s IH]; [done|]. rewrite string_app_cons. simpl. by rewrite IH. Qed.

Lemma string_app_inv_length a b a' b' :
  a +:+ b = a' +:+ b' → String.length a = String.length a' → a = a' ∧ b = b'.
Proof.
  revert a'. induction a as [|c a IH]; intros [|c' a'] Heq Hlen;
    try discriminate; [done|].
  rewrite !string_app_cons in Heq. injection Heq as -> Heq. injection Hlen as Hlen.
  by destruct (IH a' Heq Hlen) as [-> ->].
Qed.

Lemma strip_prefix_spec p s r : JS.strip_prefix p s = Some r ↔ s = p +:+ r.
Proof.
  revert s. induction p as [|a p IH]; intros s; simpl.
  - split; intros; by simplify_eq.
  - destruct s as [|b s]; [split; intros; simplify_eq|].
    rewrite string_app_cons. destruct (Ascii.eqb_spec a b) as [->|Hne].
    + rewrite IH. split; intros; by simplify_eq.
    + split; intros; simplify_eq.
Qed.

Lemma strip_prefix_Some p s r : JS.strip_prefix p s = Some r → s = p +:+ r.
Proof. apply strip_prefix_spec. Qed.

Lemma strip_prefix_app p r : JS.strip_prefix p (p +:+ r) = Some r.
Proof. by apply strip_prefix_spec. Qed.

Lemma search_sound p s before after :
  JS.search p s = Some (before, after) → s = before +:+ p +:+ after.
Proof.
  revert before. induction s as [|c s IH]; intros before; simpl.
  - destruct (JS.strip_prefix p "") eqn:E; [|done].
    intros; simplify_eq. by apply strip_prefix_Some in E.
  - destruct (JS.strip_prefix p (String c s)) eqn:E.
    + intros; simplify_eq. by apply strip_prefix_Some in E.
    + destruct (JS.search p s) as [[b a]|] eqn:Es; [|done].
      intros; simplify_eq. rewrite string_app_cons. f_equal. by apply IH.
Qed.

Lemma search_first p s before after :
  JS.search p s = Some (before, after) →
  ∀ before' after',
    s = before' +:+ p +:+ after' → String.length before ≤ String.length before'.
Proof.
  revert before. induction s as [|c s IH]; intros before; simpl.
  - destruct (JS.strip_prefix p ""); intros; simplify_eq/=; lia.
  - destruct (JS.strip_prefix p (String c s)) eqn:E.
    + intros; simplify_eq/=; lia.
    + destruct (JS.search p s) as [[b a]|] eqn:Es; [|done].
      intros ? [|c' before'] after' Heq; simplify_eq/=.
      * change (String c s = p +:+ after') in Heq.
        rewrite Heq, strip_prefix_app in E. done.
      * rewrite string_app_cons in Heq. simplify_eq.
        specialize (IH b eq_refl before' after' eq_refl). lia.
Qed.

Lemma search_complete p s :
  Spec.contains s p → is_Some (JS.search p s).
Proof.
  intros (before & after & ->).
  induction before as [|c before IH].
  - change ("" +:+ p +:+ after) with (p +:+ after).
    destruct (p +:+ after) eqn:Es; simpl;
      rewrite <-Es, strip_prefix_app; eauto.
  - rewrite string_app_cons. simpl.
    destruct (JS.strip_prefix p _); [eauto|].
    destruct IH as [[b a] ->]. eauto.
Qed.

Lemma includes_contains s p : JS.includes s p = true ↔ Spec.contains s p.
Proof.
  unfold JS.includes. split.
  - destruct (JS.search p s) as [[b a]|] eqn:E; [|done].
    intros _. exists b, a. by apply search_sound.
  - intros [x ->]%search_complete. done.
Qed.

Lemma includes_false s p : ¬ Spec.contains s p → JS.includes s p = false.
Proof.
  intros H. destruct (JS.includes s p) eqn:E; [|done].
  by apply includes_contains in E.
Qed.

Lemma search_first_match s p before after :
  Spec.first_match s p before after → JS.search p s = Some (before, after).
Proof.
  intros [Heq Hmin].
  destruct (search_complete p s) as [[b a] E]; [by exists before, after|].
  pose proof (search_sound _ _ _ _ E) as Hs.
  pose proof (search_first _ _ _ _ E before after Heq) as H1.
  pose proof (Hmin b a Hs) as H2.
  assert (before = b ∧ p +:+ after = p +:+ a) as [-> Hr]
    by (apply string_app_inv_length; [congruence|lia]).
  by apply (inj (String.app p)) in Hr as ->.
Qed.

Lemma GetSubstitution_plain matched before after t :
  Spec.plain t = true → JS.GetSubstitution matched before after t = t.
Proof.
  induction t as [|c t IH]; [done|]. simpl.
  intros [Hc Ht]%andb_prop. apply negb_true_iff in Hc. rewrite Hc.
  by rewrite IH.
Qed.

(** A replacement text without a dollar takes the place of the leftmost
    match; what is before and what is after the match is kept. *)
Lemma replace_first_plain s p t before after :
  Spec.first_match s p before after → Spec.plain t = true →
  JS.replace s p t = before +:+ t +:+ after.
Proof.
  intros Hm Ht. unfold JS.replace.
  rewrite (search_first_match _ _ _ _ Hm). by rewrite GetSubstitution_plain.
Qed.

(** Whatever the replacement text, what is before and what is after the
    leftmost match is kept. *)
Lemma replace_first s p t before after :
  Spec.first_match s p before after →
  JS.replace s p t = before +:+ JS.GetSubstitution p before after t +:+ after.
Proof.
  intros Hm. unfold JS.replace. by rewrite (search_first_match _ _ _ _ Hm).
Qed.

Lemma replace_absent s p t : ¬ Spec.contains s p → JS.replace s p t = s.
Proof.
  intros H. unfold JS.replace.
  destruct (JS.search p s) as [[b a]|] eqn:E; [|done].
  destruct H. exists b, a. by apply search_sound.
Qed.

(** ** Editing a file *)

Lemma editFile_absent (args : JS.object) (w : Server.world) p content :
  args !! "path" = Some (JS.VStr p) →
  Server.fs w !! p = Some (Fs.File content) →
  ¬ Spec.contains content (JS.ToString (args !! "oldText")) →
  Server.editFile args w
  = (Server.Failure Server.not_found_error (Some Server.not_found_hint), w).
Proof.
  intros Hp Hf Hn. unfold Server.editFile. rewrite Hp. simpl.
  unfold Fs.existsSync, Fs.readFileSync. rewrite Hf. simpl.
  by rewrite (includes_false _ _ Hn).
Qed.

Lemma searchReplace_absent (st : Extension.state) root p content old new :
  Extension.workspaceFolder st = Some root →
  Extension.files st !! Extension.uri_file (Extension.resolve root p)
  = Some (Fs.File content) →
  ¬ Spec.contains content (JS.ToString old) →
  Extension._searchReplace (Some (JS.VStr p)) old new st
  = (Ret (Extension.error_result Extension.old_text_not_found), st).
Proof.
  intros Hw Hf Hn. unfold Extension._searchReplace, Extension.target.
  rewrite Hw. simpl. unfold Fs.readFileSync. rewrite Hf. simpl.
  by rewrite (includes_false _ _ Hn).
Qed.

(** C5: when the text of a file does not contain [oldText], the server's
    [editFile] and the extension's [search_replace] answer with their
    not-found error and change nothing: the world, respectively the state
    of the extension (its files and the trace of its writes), is the one
    before the call. *)
Theorem edit_absent_text_writes_nothing (p content oldText : string) :
  ¬ Spec.contains content oldText →
  (∀ (args : JS.object) (w : Server.world),
     args !! "path" = Some (JS.VStr p) →
     args !! "oldText" = Some (JS.VStr oldText) →
     Server.fs w !! p = Some (Fs.File content) →
     Server.editFile args w
     = (Server.Failure Server.not_found_error (Some Server.not_found_hint), w))
  ∧ (∀ (st : Extension.state) root newText,
       Extension.workspaceFolder st = Some root →
       Extension.files st !! Extension.uri_file (Extension.resolve root p)
       = Some (Fs.File content) →
       Extension._searchReplace (Some (JS.VStr p)) (Some (JS.VStr oldText))
         newText st
       = (Ret (Extension.error_result Extension.old_text_not_found), st)).
Proof.
  intros Hn. split.
  - intros args w Hp Ho Hf. apply (editFile_absent args w p content); auto.
    by rewrite Ho.
  - intros st root newText Hw Hf. by apply (searchReplace_absent st root p content).
Qed.

Lemma edit_absent_text_writes_nothing_witness :
  Server.editFile
    (Sample.object [("path", JS.VStr "/ws/a.txt"); ("oldText", JS.VStr "7");
                    ("newText", JS.VStr "8")]) Sample.world
  = (Server.Failure Server.not_found_error (Some Server.not_found_hint),
     Sample.world)
  ∧ Extension._searchReplace (Some (JS.VStr "a.txt")) (Some (JS.VStr "7"))
      (Some (JS.VStr "8")) (Sample.editor Extension.secure)
    = (Ret (Extension.error_result Extension.old_text_not_found),
       Sample.editor Extension.secure).
Proof.
  assert (¬ Spec.contains "cost: 5 and 5" "7") as Hn.
  { intros H. apply includes_contains in H. discriminate H. }
  split.
  - apply (proj1 (edit_absent_text_writes_nothing "/ws/a.txt" _ _ Hn));
      reflexivity.
  - apply (proj2 (edit_absent_text_writes_nothing "a.txt" _ _ Hn)
             (Sample.editor Extension.secure) "/ws"); reflexivity.
Defined.

(** The first of several occurrences is the one replaced, by a replacement
    text without a dollar; the text around it, with the other occurrences,
    is kept.  This is what both [editFile] and [search_replace] write. *)
Lemma editFile_first_plain (args : JS.object) (w : Server.world)
    p content oldText newText before after :
  args !! "path" = Some (JS.VStr p) →
  args !! "oldText" = Some (JS.VStr oldText) →
  args !! "newText" = Some (JS.VStr newText) →
  Server.fs w !! p = Some (Fs.File content) →
  Spec.first_match content oldText before after →
  Spec.plain newText = true →
  Server.fs (Server.editFile args w).2 !! p
  = Some (Fs.File (before +:+ newText +:+ after)).
Proof.
  intros Hp Ho Hn Hf Hm Hpl. unfold Server.editFile.
  rewrite Hp, Ho, Hn. simpl.
  unfold Fs.existsSync, Fs.readFileSync, Fs.writeFileSync. rewrite Hf. simpl.
  assert (JS.includes content oldText = true) as ->.
  { apply includes_contains. exists before, after. apply Hm. }
  simpl. rewrite (replace_first_plain _ _ _ _ _ Hm Hpl).
  by rewrite lookup_insert_eq.
Qed.

(** C6: a replacement text with a dollar is not written as it is.  In the
    file [cost: 5 and 5] the first [5] is replaced, the second is kept, but
    the new text [$$9] comes out as [$9], in the server's [editFile] and in
    the extension's [search_replace] alike. *)
Theorem edit_dollar_replacement :
  Spec.first_match "cost: 5 and 5" "5" "cost: " " and 5"
  ∧ Server.fs
      (Server.editFile
         (Sample.object [("path", JS.VStr "/ws/a.txt"); ("oldText", JS.VStr "5");
                         ("newText", JS.VStr "$$9")]) Sample.world).2
    !! "/ws/a.txt" = Some (Fs.File "cost: $9 and 5")
  ∧ Extension.files
      (Extension._searchReplace (Some (JS.VStr "a.txt")) (Some (JS.VStr "5"))
         (Some (JS.VStr "$$9")) (Sample.editor Extension.secure)).2
    !! "/ws/a.txt" = Some (Fs.File "cost: $9 and 5")
  ∧ "cost: $9 and 5" ≠ "cost: " +:+ "$$9" +:+ " and 5".
Proof.
  split; [|split; [|split]].
  - split; [reflexivity|].
    intros b a Heq.
    destruct (decide (String.length b < 6)) as [Hlt|]; [|simpl; lia].
    exfalso.
    do 6 (destruct b as [|? b];
          [vm_compute in Heq; discriminate Heq
          |rewrite string_app_cons in Heq; injection Heq as <- Heq; simpl in Hlt]).
    lia.
  - vm_compute. reflexivity.
  - vm_compute. reflexivity.
  - discriminate.
Qed.

(** ** Sorting *)

Section sorting.

Context {A : Type} (cmp : A → A → Z).

Let R (a b : A) : Prop := (cmp a b ≤ 0)%Z.

Lemma sort_insert_Permutation x l : JS.sort_insert cmp x l ≡ₚ x :: l.
Proof.
  induction l as [|y l IH]; simpl; [done|].
  destruct (cmp x y <=? 0)%Z; [done|].
  rewrite IH. apply Permutation_swap.
Qed.

Lemma sort_Permutation l : JS.sort cmp l ≡ₚ l.
Proof.
  induction l as [|x l IH]; simpl; [done|].
  by rewrite sort_insert_Permutation, IH.
Qed.

Hypothesis R_total : ∀ a b, R a b ∨ R b a.
Hypothesis R_trans : ∀ a b c, R a b → R b c → R a c.

Lemma sort_insert_sorted x l :
  StronglySorted R l → StronglySorted R (JS.sort_insert cmp x l).
Proof.
  induction 1 as [|y l Hl IH Hy]; simpl.
  - repeat constructor.
  - destruct (Z.leb_spec (cmp x y) 0) as [Hxy|Hxy].
    + constructor; [by constructor|].
      constructor; [done|].
      eapply Forall_impl; [exact Hy|]. intros z Hz. by eapply R_trans.
    + constructor; [done|].
      rewrite sort_insert_Permutation. constructor; [|done].
      destruct (R_total x y) as [Hx|Hx]; [unfold R in Hx; lia|done].
Qed.

Lemma sort_sorted l : StronglySorted R (JS.sort cmp l).
Proof.
  induction l as [|x l IH]; simpl; [constructor|].
  by apply sort_insert_sorted.
Qed.

End sorting.

Lemma StronglySorted_lookup {A} (R : relation A) l i j a b :
  StronglySorted R l → i < j → l !! i = Some a → l !! j = Some b → R a b.
Proof.
  intros Hl. revert i j. induction Hl as [|x l Hl IH Hx]; intros i j Hij Hi Hj.
  - done.
  - destruct i as [|i], j as [|j]; try lia; simplify_eq/=.
    + rewrite Forall_forall in Hx. apply Hx. by eapply list_elem_of_lookup_2.
    + eapply (IH i j); [lia|done..].
Qed.

(** ** Listing a directory *)

Section listing.

Context `{Platform}.

Hypothesis names_ordered : Spec.consistent localeCompare.

Let entry_le (a b : Server.entry) : Prop := (Server.compare_entries a b ≤ 0)%Z.

Lemma entry_le_total a b : entry_le a b ∨ entry_le b a.
Proof.
  unfold entry_le, Server.compare_entries.
  destruct names_ordered as [Htot _].
  repeat case_decide; try congruence; [apply Htot|].
  destruct (Server.entry_type a), (Server.entry_type b); try congruence;
    [left|right]; lia.
Qed.

Lemma entry_le_trans a b c : entry_le a b → entry_le b c → entry_le a c.
Proof.
  unfold entry_le, Server.compare_entries.
  destruct names_ordered as [_ Htrans].
  repeat case_decide;
    destruct (Server.entry_type a), (Server.entry_type b),
      (Server.entry_type c); try congruence; try lia.
  all: apply Htrans.
Qed.

Lemma sorted_ordered es : StronglySorted entry_le es → Spec.ordered es.
Proof.
  intros Hs i j a b Hij Hi Hj.
  pose proof (StronglySorted_lookup _ _ _ _ _ _ Hs Hij Hi Hj) as Hab.
  unfold entry_le, Server.compare_entries in Hab.
  case_decide as Ht.
  - split; [congruence|done].
  - destruct (Server.entry_type a), (Server.entry_type b);
      try congruence; try lia.
    split; congruence.
Qed.

Lemma listDir_unfold budget fs recursive dir :
  Server.listDir (S budget) fs recursive dir
  = (items ← Fs.readdirSync fs dir;
     Ret (JS.sort Server.compare_entries
            (omap (Server.list_item budget fs recursive dir) items))).
Proof. reflexivity. Qed.

(** The listing of a directory never throws. *)
Lemma listDir_of_directory budget fs recursive p :
  Fs.statSync_isDirectory fs p = Ret true →
  ∃ es, Server.listDir budget fs recursive p = Ret es.
Proof.
  intros Hd. destruct budget as [|budget]; [by eexists|].
  rewrite listDir_unfold. unfold Fs.statSync_isDirectory in Hd.
  unfold Fs.readdirSync.
  destruct (fs !! p) as [[c|names]|]; simplify_eq. by eexists.
Qed.

Lemma list_item_Some budget fs recursive dir item e :
  Server.list_item budget fs recursive dir item = Some e →
  Server.entry_name e = item ∧ Server.ignored item = false
  ∧ ∀ children, Server.entry_children e = Some children →
      Server.listDir budget fs recursive (Fs.join dir item) = Ret children.
Proof.
  unfold Server.list_item. destruct (Server.ignored item); [done|].
  destruct (Fs.statSync_isDirectory fs _) as [isDir|]; [|done].
  destruct (isDir && recursive).
  - destruct (Server.listDir _ _ _ _) as [ch|] eqn:E; [|done].
    intros; simplify_eq/=. repeat split. by intros; simplify_eq.
  - intros; simplify_eq/=. repeat split. done.
Qed.

Lemma list_item_is_Some budget fs recursive dir item :
  is_Some (Server.list_item budget fs recursive dir item)
  ↔ Server.ignored item = false ∧ is_Some (fs !! Fs.join dir item).
Proof.
  unfold Server.list_item. destruct (Server.ignored item).
  { split; [by intros [? ?]|by intros [? _]]. }
  destruct (Fs.statSync_isDirectory fs _) as [isDir|] eqn:Es.
  - assert (is_Some (fs !! Fs.join dir item)) as Hs.
    { unfold Fs.statSync_isDirectory in Es.
      destruct (fs !! Fs.join dir item) as [[|]|]; by simplify_eq. }
    destruct isDir, recursive; simpl; try by (split; eauto).
    destruct (listDir_of_directory budget fs true _ Es) as [es ->].
    split; eauto.
  - unfold Fs.statSync_isDirectory in Es.
    destruct (fs !! Fs.join dir item) as [[|]|]; simplify_eq.
    split; [by intros [? ?]|by intros [_ [? ?]]].
Qed.

Lemma names_of_items budget fs recursive dir items :
  map Server.entry_name (omap (Server.list_item budget fs recursive dir) items)
  = filter (λ item, Server.ignored item = false
                    ∧ is_Some (fs !! Fs.join dir item)) items.
Proof.
  induction items as [|item items IH]; [done|].
  rewrite filter_cons.
  change (omap ?f (item :: items))
    with (match f item with Some e => e :: omap f items | None => omap f items end).
  destruct (Server.list_item budget fs recursive dir item) as [e|] eqn:E.
  - rewrite decide_True
      by (eapply (proj1 (list_item_is_Some _ _ _ _ _)); eauto).
    rewrite <-IH. simpl. f_equal. by apply list_item_Some in E as [? _].
  - rewrite decide_False; [done|].
    intros Hs. apply (proj2 (list_item_is_Some budget fs recursive dir item)) in Hs.
    rewrite E in Hs. by destruct Hs.
Qed.

Lemma listDir_well_listed budget fs recursive dir es :
  Server.listDir budget fs recursive dir = Ret es → Spec.well_listed es.
Proof.
  revert dir es. induction budget as [|budget IH]; intros dir es.
  { intros; simplify_eq/=. constructor; [|constructor..].
    intros i j a b _ Hi. done. }
  rewrite listDir_unfold.
  destruct (Fs.readdirSync fs dir) as [items|]; [|done].
  intros; simplify_eq/=.
  set (raw := omap (Server.list_item budget fs recursive dir) items).
  assert (Forall (λ e, Server.ignored (Server.entry_name e) = false
                       ∧ ∀ children, Server.entry_children e = Some children →
                           Spec.well_listed children) raw) as Hraw.
  { apply Forall_forall. intros e (item & _ & He)%list_elem_of_omap.
    apply list_item_Some in He as (-> & Hi & Hc). split; [done|].
    intros ch Hch. eapply IH. by apply Hc. }
  rewrite <-(sort_Permutation Server.compare_entries raw) in Hraw.
  constructor.
  - apply sorted_ordered, sort_sorted;
      [apply entry_le_total|apply entry_le_trans].
  - eapply Forall_impl; [exact Hraw|]. by intros e [? _].
  - eapply Forall_impl; [exact Hraw|]. by intros e [_ ?].
Qed.

(** C9, for the server: [listFiles] on a directory that can be read returns
    its listing and changes nothing.  At every depth the listing is without
    the names to skip and in order, the folders before the files and each
    group as [localeCompare] orders the names (given that it orders them).
    An item whose [stat] throws is left out and the others are listed: the
    names listed are the items, not skipped, that the file system has. *)
Theorem listFiles_listing (args : JS.object) (w : Server.world) dir items :
  args !! "path" = Some (JS.VStr dir) →
  Fs.readdirSync (Server.fs w) dir = Ret items →
  ∃ es message,
    Server.listFiles args w = (Server.ListOk es (length es) message, w)
    ∧ Spec.well_listed es
    ∧ map Server.entry_name es
      ≡ₚ filter (λ item, Server.ignored item = false
                         ∧ is_Some (Server.fs w !! Fs.join dir item)) items.
Proof.
  intros Hp Hr. unfold Server.listFiles. rewrite Hp.
  pose proof (listDir_well_listed 3 (Server.fs w)
                (JS.truthy (args !! "recursive")) dir) as Hw.
  unfold Server.as_string. rewrite bind_Ret.
  rewrite listDir_unfold in *. rewrite Hr in *. rewrite !bind_Ret in *.
  eexists _, _. split; [reflexivity|]. split; [by apply Hw|].
  rewrite sort_Permutation. by rewrite names_of_items.
Qed.

End listing.

Lemma compare_names_le a b :
  (Sample.compare_names a b ≤ 0)%Z ↔ String.le a b.
Proof.
  unfold Sample.compare_names, String.le, String.leb.
  destruct (String.compare a b); simpl; split; try done; lia.
Qed.

Lemma compare_names_consistent : Spec.consistent Sample.compare_names.
Proof.
  split.
  - intros a b. rewrite !compare_names_le. apply String.le_total.
  - intros a b c. rewrite !compare_names_le. apply transitivity.
Qed.

Lemma listFiles_listing_witness :
  ∃ es message,
    Server.listFiles (Sample.object [("path", JS.VStr "/ws")]) Sample.world
    = (Server.ListOk es (length es) message, Sample.world)
    ∧ Spec.well_listed es
    ∧ map Server.entry_name es
      ≡ₚ filter (λ item, Server.ignored item = false
                         ∧ is_Some (Sample.workspace !! Fs.join "/ws" item))
           ["b.txt"; "node_modules"; "A"; "a.txt"; "ghost"].
Proof.
  apply (@listFiles_listing Sample.platform compare_names_consistent
           (Sample.object [("path", JS.VStr "/ws")]) Sample.world "/ws");
    reflexivity.
Defined.

(** The example of the specification: of [b.txt], [A/] and [a.txt] (and a
    folder to skip, and a name whose [stat] throws) the server lists [A],
    [a.txt], [b.txt]. *)
Example listFiles_example :
  (Server.listFiles (Sample.object [("path", JS.VStr "/ws")]) Sample.world).1
  = Server.ListOk
      [Server.Entry "A" "/ws/A" Server.folder None;
       Server.Entry "a.txt" "/ws/a.txt" Server.file None;
       Server.Entry "b.txt" "/ws/b.txt" Server.file None]
      3 "Found 3 items in ws".
Proof. vm_compute. reflexivity. Qed.

(** The extension's [list_dir] on the same folder: the entries come as the
    directory gives them, [node_modules] among them and a file first. *)
Lemma list_dir_lists_as_read :
  (Extension._listDir (Some (JS.VStr ".")) (Sample.editor Extension.secure)).1
  = Ret (Extension.entries_result
           [("b.txt", Extension.file); ("node_modules", Extension.dir);
            ("A", Extension.dir); ("a.txt", Extension.file);
            ("ghost", Extension.file)])
  ∧ ¬ Spec.flat_listed
        [("b.txt", Extension.file); ("node_modules", Extension.dir);
         ("A", Extension.dir); ("a.txt", Extension.file);
         ("ghost", Extension.file)].
Proof.
  split; [vm_compute; reflexivity|].
  intros [Hf _].
  apply Forall_cons in Hf as [_ Hf]. apply Forall_cons in Hf as [Hn _].
  vm_compute in Hn. discriminate Hn.
Qed.

(** ** Reading a stream chunk by chunk *)

Lemma split_lines_nonempty s : JS.split_lines s ≠ [].
Proof.
  destruct s as [|c s]; simpl; [done|].
  destruct (Ascii.eqb c JS.newline); [done|].
  by destruct (JS.split_lines s).
Qed.

Lemma pop_split s : JS.pop (JS.split_lines s) = Spec.cut s.
Proof.
  induction s as [|c s IH]; [done|].
  simpl. rewrite <-IH.
  pose proof (split_lines_nonempty s) as Hne.
  destruct (Ascii.eqb c JS.newline).
  - destruct (JS.split_lines s) as [|h t]; [done|].
    change (JS.pop ("" :: h :: t))
      with (let '(front, last) := JS.pop (h :: t) in ("" :: front, last)).
    by destruct (JS.pop (h :: t)).
  - destruct (JS.split_lines s) as [|h [|t0 t]]; [done|done|].
    change (JS.pop (String c h :: t0 :: t))
      with (let '(front, last) := JS.pop (t0 :: t) in (String c h :: front, last)).
    change (JS.pop (h :: t0 :: t))
      with (let '(front, last) := JS.pop (t0 :: t) in (h :: front, last)).
    by destruct (JS.pop (t0 :: t)).
Qed.

Lemma cut_app a b :
  Spec.cut (a +:+ b)
  = (let '(la, ra) := Spec.cut a in
     let '(lb, rb) := Spec.cut (ra +:+ b) in (la ++ lb, rb)).
Proof.
  induction a as [|c a IH].
  - simpl. rewrite !string_app_nil_l. by destruct (Spec.cut b).
  - rewrite string_app_cons. simpl. rewrite IH.
    destruct (Spec.cut a) as [la ra].
    destruct (Ascii.eqb c JS.newline) eqn:Ec.
    + by destruct (Spec.cut (ra +:+ b)).
    + destruct la as [|l la].
      * rewrite string_app_cons. simpl. rewrite Ec.
        by destruct (Spec.cut (ra +:+ b)) as [[|] ?].
      * by destruct (Spec.cut (ra +:+ b)).
Qed.

Lemma cut_rest s : Spec.cut (Spec.cut s).2 = ([], (Spec.cut s).2).
Proof.
  induction s as [|c s IH]; [done|]. simpl.
  destruct (Spec.cut s) as [ls r]. simpl in IH.
  destruct (Ascii.eqb c JS.newline) eqn:Ec; [done|].
  destruct ls; simpl; [|done]. by rewrite IH, Ec.
Qed.

Lemma whole_cons v rest : Spec.whole (v :: rest) = v +:+ Spec.whole rest.
Proof. reflexivity. Qed.

Section client_decoder.

Context {E : Type} (parse : string → option E).

Lemma deliver_app l1 l2 :
  Client.deliver parse (l1 ++ l2)
  = Client.deliver parse l1 ++ Client.deliver parse l2.
Proof. apply omap_app. Qed.

Lemma read_loop_cons buffer v rest :
  Client.read_loop parse buffer (v :: rest)
  = (let '(lines, buffer) := Spec.cut (buffer +:+ v) in
     Client.deliver parse lines ++ Client.read_loop parse buffer rest).
Proof. simpl. by rewrite pop_split. Qed.

(** However the text comes, [streamAgent] hands on the events of its
    complete lines. *)
Lemma read_loop_whole buffer chunks :
  Spec.cut buffer = ([], buffer) →
  Client.read_loop parse buffer chunks
  = Client.deliver parse (Spec.complete_lines (buffer +:+ Spec.whole chunks)).
Proof.
  revert buffer. induction chunks as [|v rest IH]; intros buffer Hb.
  - simpl. unfold Spec.complete_lines, Spec.whole. simpl.
    by rewrite string_app_nil_r, Hb.
  - rewrite read_loop_cons, whole_cons, <-string_app_assoc.
    unfold Spec.complete_lines. rewrite (cut_app (buffer +:+ v)).
    pose proof (cut_rest (buffer +:+ v)) as Hr.
    destruct (Spec.cut (buffer +:+ v)) as [ls r]. simpl in Hr.
    rewrite (IH r Hr). unfold Spec.complete_lines.
    destruct (Spec.cut (r +:+ _)) as [lb rb]. simpl.
    by rewrite deliver_app.
Qed.

Lemma streamAgent_whole chunks :
  Client.streamAgent parse chunks
  = Client.deliver parse (Spec.complete_lines (Spec.whole chunks)).
Proof. by apply (read_loop_whole ""). Qed.

Lemma streamAgent_split_invariant chunks :
  Client.streamAgent parse chunks
  = Client.streamAgent parse [Spec.whole chunks].
Proof.
  rewrite !streamAgent_whole. by rewrite whole_cons, string_app_nil_r.
Qed.

End client_decoder.

Section extension_decoder.

Context `{Extension.Host}.

Lemma process_lines_cons line rest d st :
  Extension.process_lines (line :: rest) d st
  = if Spec.passed_over line then Extension.process_lines rest d st
    else if Spec.sentinel line then (d, st)
    else match Extension.parse_data
                 (JS.trim (JS.replace (JS.trim line) "data: " "")) with
         | Some (Some delta) =>
             let '(d, st) := Extension.apply_delta delta d st in
             Extension.process_lines rest d st
         | _ => Extension.process_lines rest d st
         end.
Proof.
  unfold Spec.sentinel. simpl.
  change (String.eqb (JS.trim line) ""
          || negb (JS.startsWith (JS.trim line) "data: "))
    with (Spec.passed_over line).
  destruct (Spec.passed_over line); [done|]. simpl.
  destruct (String.eqb _ "[DONE]"); [done|].
  by destruct (Extension.parse_data _) as [[?|]|].
Qed.

Lemma apply_delta_buffer delta b d st :
  Extension.apply_delta delta (Extension.with_buffer b d) st
  = (Extension.with_buffer b (Extension.apply_delta delta d st).1,
     (Extension.apply_delta delta d st).2).
Proof.
  unfold Extension.apply_delta. simpl.
  destruct (match Server.content delta with Some _ => _ | None => _ end)
    as [content st1].
  by destruct (match Server.tool_calls delta with Some _ => _ | None => _ end).
Qed.

Lemma process_lines_buffer lines b d st :
  Extension.process_lines lines (Extension.with_buffer b d) st
  = (Extension.with_buffer b (Extension.process_lines lines d st).1,
     (Extension.process_lines lines d st).2).
Proof.
  revert d st. induction lines as [|line rest IH]; intros d st; [done|].
  rewrite !process_lines_cons.
  destruct (Spec.passed_over line); [apply IH|].
  destruct (Spec.sentinel line); [done|].
  destruct (Extension.parse_data _) as [[delta|]|]; [|apply IH..].
  rewrite apply_delta_buffer.
  destruct (Extension.apply_delta delta d st) as [d1 st1]. apply IH.
Qed.

Lemma process_lines_quiet lines d st :
  forallb (λ l, Spec.passed_over l || Spec.sentinel l) lines = true →
  Extension.process_lines lines d st = (d, st).
Proof.
  induction lines as [|line rest IH]; [done|].
  intros Hq. rewrite process_lines_cons.
  simpl in Hq. apply andb_prop in Hq as [Hl Hr].
  destruct (Spec.passed_over line); [by apply IH|].
  simpl in Hl. by rewrite Hl.
Qed.

Lemma process_lines_app l1 l2 d st :
  Extension.process_lines (l1 ++ l2) d st
  = if existsb Spec.sentinel l1 then Extension.process_lines l1 d st
    else Extension.process_lines l2 (Extension.process_lines l1 d st).1
           (Extension.process_lines l1 d st).2.
Proof.
  revert d st. induction l1 as [|line rest IH]; intros d st; [done|].
  rewrite <-app_comm_cons, !process_lines_cons. simpl.
  destruct (Spec.passed_over line) eqn:Ep.
  { unfold Spec.sentinel at 1. rewrite Ep. simpl. apply IH. }
  destruct (Spec.sentinel line); [done|]. simpl.
  destruct (Extension.parse_data _) as [[delta|]|]; [|apply IH..].
  destruct (Extension.apply_delta delta d st) as [d1 st1]. apply IH.
Qed.

Lemma quiet_closed lines :
  forallb (λ l, Spec.passed_over l || Spec.sentinel l) lines = true →
  Spec.closed_by_sentinel lines = true.
Proof.
  induction lines as [|line rest IH]; [done|]. simpl.
  intros [_ Hr]%andb_prop. destruct (Spec.sentinel line); auto.
Qed.

Lemma closed_app l1 l2 :
  Spec.closed_by_sentinel (l1 ++ l2) = true →
  if existsb Spec.sentinel l1
  then forallb (λ l, Spec.passed_over l || Spec.sentinel l) l2 = true
  else Spec.closed_by_sentinel l2 = true.
Proof.
  induction l1 as [|line rest IH]; [done|]. simpl.
  destruct (Spec.sentinel line); simpl; [|done].
  rewrite forallb_app. by intros [_ ?]%andb_prop.
Qed.

Lemma with_buffer_buffer d : Extension.with_buffer (Extension.buffer d) d = d.
Proof. by destruct d. Qed.

Lemma with_buffer_twice b b' d :
  Extension.with_buffer b (Extension.with_buffer b' d) = Extension.with_buffer b d.
Proof. done. Qed.

Lemma read_stream_one text d st :
  Extension.read_stream [text] d st
  = (let '(lines, rest) := Spec.cut (Extension.buffer d +:+ text) in
     Extension.process_lines lines (Extension.with_buffer rest d) st).
Proof.
  simpl. rewrite pop_split.
  destruct (Spec.cut _) as [lines rest].
  by destruct (Extension.process_lines _ _ _).
Qed.

Lemma read_stream_cons v rest d st :
  Extension.read_stream (v :: rest) d st
  = (let '(lines, buffer) := Spec.cut (Extension.buffer d +:+ v) in
     let '(d, st) :=
       Extension.process_lines lines (Extension.with_buffer buffer d) st in
     Extension.read_stream rest d st).
Proof. simpl. by rewrite pop_split. Qed.

(** When the sentinel closes the lines of the text, reading it in chunks
    and reading it at once leave the decoder in the same state, with the
    same messages posted. *)
Lemma read_stream_whole chunks d st :
  Spec.cut (Extension.buffer d) = ([], Extension.buffer d) →
  Spec.closed_by_sentinel
    (Spec.complete_lines (Extension.buffer d +:+ Spec.whole chunks)) = true →
  Extension.read_stream chunks d st
  = Extension.read_stream [Spec.whole chunks] d st.
Proof.
  revert d st. induction chunks as [|v rest IH]; intros d st Hb Hc.
  - rewrite read_stream_one. unfold Spec.whole. simpl.
    rewrite string_app_nil_r, Hb. simpl. by rewrite with_buffer_buffer.
  - rewrite read_stream_cons, read_stream_one.
    rewrite whole_cons, <-string_app_assoc in Hc |- *.
    unfold Spec.complete_lines in Hc.
    rewrite (cut_app (Extension.buffer d +:+ v)) in Hc |- *.
    pose proof (cut_rest (Extension.buffer d +:+ v)) as Hr.
    destruct (Spec.cut (Extension.buffer d +:+ v)) as [ls r]. simpl in Hr.
    rewrite process_lines_buffer.
    destruct (Extension.process_lines ls d st) as [d1 st1] eqn:E1. simpl.
    specialize (IH (Extension.with_buffer r d1) st1 Hr).
    unfold Spec.complete_lines in IH.
    rewrite read_stream_one in IH. simpl in IH.
    destruct (Spec.cut (r +:+ Spec.whole rest)) as [lb rb].
    simpl in Hc, IH. apply closed_app in Hc.
    change (Extension.with_buffer rb (Extension.with_buffer r d1))
      with (Extension.with_buffer rb d1) in IH.
    rewrite process_lines_app, (process_lines_buffer ls rb d st), E1. simpl.
    destruct (existsb Spec.sentinel ls).
    + rewrite IH by by apply quiet_closed.
      by rewrite process_lines_quiet.
    + by rewrite IH.
Qed.

End extension_decoder.

(** C8: the client's [streamAgent] hands on the same events however the
    text of the response is cut into chunks.  The extension's decoder ends
    in the same state (the content, the tool calls by index, the buffer) and
    with the same messages posted, in the same order, when the sentinel
    closes the lines of the stream: nothing but lines it passes over comes
    after a sentinel line. *)
Theorem decoders_split_invariant `{Extension.Host} {E : Type}
    (parse : string → option E) (chunks : list string) :
  Client.streamAgent parse chunks = Client.streamAgent parse [Spec.whole chunks]
  ∧ (Spec.closed_by_sentinel (Spec.complete_lines (Spec.whole chunks)) = true →
     ∀ st, Extension.read_stream chunks Extension.start_decoding st
           = Extension.read_stream [Spec.whole chunks]
               Extension.start_decoding st).
Proof.
  split; [apply streamAgent_split_invariant|].
  intros Hc st. by apply read_stream_whole.
Qed.

Lemma decoders_split_invariant_witness :
  let chunks :=
    ["data: " +:+ Sample.content_text "hi" +:+ Extension.nl +:+ "da";
     "ta: [DONE]" +:+ Extension.nl +:+ Extension.nl] in
  Client.streamAgent Sample.parse_event chunks
  = Client.streamAgent Sample.parse_event [Spec.whole chunks]
  ∧ Extension.read_stream chunks Extension.start_decoding
      (Sample.editor Extension.secure)
    = Extension.read_stream [Spec.whole chunks] Extension.start_decoding
        (Sample.editor Extension.secure).
Proof.
  intros chunks.
  destruct (@decoders_split_invariant Sample.host _ Sample.parse_event chunks)
    as [Hc He].
  split; [exact Hc|]. apply He. vm_compute. reflexivity.
Defined.

(** The sample stream of the witness is read: its content is [hi]. *)
Example read_stream_example :
  Extension.fullContent
    (Extension.read_stream
       ["data: " +:+ Sample.content_text "hi" +:+ Extension.nl +:+ "da";
        "ta: [DONE]" +:+ Extension.nl +:+ Extension.nl]
       Extension.start_decoding (Sample.editor Extension.secure)).1 = "hi".
Proof. vm_compute. reflexivity. Qed.

(** A data line after the sentinel is read by the extension when it comes
    in a later chunk, and is not when it comes in the same chunk. *)
Lemma data_after_sentinel_depends_on_split :
  let chunks :=
    [Sample.data_line "[DONE]"; Sample.data_line (Sample.content_text "hi")] in
  Extension.fullContent
    (Extension.read_stream chunks Extension.start_decoding
       (Sample.editor Extension.secure)).1 = "hi"
  ∧ Extension.fullContent
      (Extension.read_stream [Spec.whole chunks] Extension.start_decoding
         (Sample.editor Extension.secure)).1 = "".
Proof. split; vm_compute; reflexivity. Qed.

(** ** The agent loop of the server *)

Lemma count_app {A} (kind : A → bool) l1 l2 :
  Spec.count kind (l1 ++ l2) = Spec.count kind l1 + Spec.count kind l2.
Proof. unfold Spec.count. by rewrite List.filter_app, length_app. Qed.

Lemma count_cons {A} (kind : A → bool) x l :
  Spec.count kind (x :: l) = (if kind x then 1 else 0) + Spec.count kind l.
Proof. unfold Spec.count. simpl. by destruct (kind x). Qed.


Section server_loop.

Context `{Platform} `{Server.Surroundings}.

(** The trace of [c'] is that of [c] followed by events written on the
    response. *)
Let writes (c c' : Server.chat) : Prop :=
  ∃ es, Server.trace c' = Server.trace c ++ es ∧ forallb Spec.is_write es = true.

Lemma writes_refl c : writes c c.
Proof. exists []. by rewrite app_nil_r. Qed.

Lemma writes_trans c1 c2 c3 : writes c1 c2 → writes c2 c3 → writes c1 c3.
Proof.
  intros (es1 & E1 & H1) (es2 & E2 & H2). exists (es1 ++ es2).
  rewrite E2, E1, <-(assoc_L (++)). split; [done|].
  rewrite forallb_app. by rewrite H1, H2.
Qed.

Lemma writes_emit c e : writes c (Server.emit (Server.Write e) c).
Proof. by exists [Server.Write e]. Qed.

Lemma consume_spec chunks fullReply toolCalls c :
  ∃ fullReply' c',
    Server.consume chunks fullReply toolCalls c
    = (fullReply', foldl Spec.gather_chunk toolCalls chunks, c')
    ∧ writes c c'
    ∧ Server.chatMessages c' = Server.chatMessages c
    ∧ Server.the_world c' = Server.the_world c.
Proof.
  revert fullReply toolCalls c.
  induction chunks as [|[d|] rest IH]; intros fullReply toolCalls c.
  - eexists _, _. split; [reflexivity|]. auto using writes_refl.
  - simpl.
    destruct (match Server.content d with Some _ => _ | None => _ end)
      as [r1 c1] eqn:E1.
    assert (writes c c1 ∧ Server.chatMessages c1 = Server.chatMessages c
            ∧ Server.the_world c1 = Server.the_world c) as (Hw & Hm & Hwd).
    { destruct (Server.content d) as [text|]; simpl in E1;
        [destruct (negb (String.eqb text ""))|]; simplify_eq;
        (split; [|done]); auto using writes_refl, writes_emit. }
    destruct (IH r1 (Spec.gather_chunk toolCalls (Some d)) c1)
      as (r' & c' & E & Hw' & Hm' & Hwd').
    exists r', c'. split; [exact E|].
    split; [by eapply writes_trans|]. split; congruence.
  - simpl. apply IH.
Qed.

(** What [toolHandlers[toolName]] finds: a handler of the table, which
    returns, or a member inherited from [Object.prototype], which leaves the
    files and the statistics as they are. *)
Lemma handler_of_spec toolName call :
  Server.handler_of Server.WORKSPACE_DIR toolName = Some call →
  (∃ handler,
      Server.toolHandlers Server.WORKSPACE_DIR toolName = Some handler
      ∧ ∀ args w, call args w = (Ret (handler args w).1, (handler args w).2))
  ∨ (Server.toolHandlers Server.WORKSPACE_DIR toolName = None
     ∧ ∃ f, Server.Object_prototype toolName = Some f
            ∧ ∀ args w, call args w = (f args, w)).
Proof.
  unfold Server.handler_of.
  destruct (Server.toolHandlers _ _) as [handler|].
  - intros [= <-]. left. exists handler. split; [done|].
    intros args w. by destruct (handler args w).
  - destruct (Server.Object_prototype toolName) as [f|]; [|done].
    intros [= <-]. right. split; [done|]. by exists f.
Qed.

(** The members inherited that throw are those that need their receiver. *)
Lemma Object_prototype_throws toolName f args m :
  Server.Object_prototype toolName = Some f → f args = Throw m →
  toolName ∈ Server.receiver_needed.
Proof.
  unfold Server.Object_prototype.
  destruct (String.eqb toolName "constructor"); [by intros [= <-]|].
  destruct (String.eqb toolName "toString"); [by intros [= <-]|].
  destruct (bool_decide_reflect (toolName ∈ Server.receiver_needed)); done.
Qed.

Lemma Object_prototype_needed toolName :
  toolName ∈ Server.receiver_needed →
  Server.toolHandlers Server.WORKSPACE_DIR toolName = None
  ∧ Server.Object_prototype toolName = Some (λ _, Throw Server.TypeError).
Proof.
  unfold Server.receiver_needed. rewrite !elem_of_cons, elem_of_nil.
  intros Hn. by repeat destruct Hn as [->|Hn].
Qed.



Lemma execute_calls_cons tc rest c :
  Server.execute_calls (tc :: rest) c
  = match Server.parse_arguments tc with
    | Throw m => (c, Server.thrown m)
    | Ret args =>
        if String.eqb (Server.name tc) "runCommand" then
          (Server.with_world
             (Server.note_call
                {| Server.log_name := Server.name tc;
                   Server.log_status := "pending_approval";
                   Server.log_message := None |} (Server.the_world c))
             (Server.emit
                (Server.Write
                   (Server.approval_required (Server.id tc) (args !! "command")
                      (Server.cwd_or (args !! "cwd") Server.WORKSPACE_DIR))) c),
           Server.halted)
        else
          match Server.handler_of Server.WORKSPACE_DIR (Server.name tc) with
          | Some handler =>
              match handler args (Server.the_world c) with
              | (Throw m, w) => (Server.with_world w c, Server.thrown m)
              | (Ret result, w) =>
                  Server.execute_calls rest
                    (Server.push (Server.tool_message (Server.id tc) result)
                       (Server.emit
                          (Server.Write
                             (Server.step_event (Server.name tc)
                                (Server.success_field result)
                                (Server.summary result)))
                          (Server.with_world
                             (Server.note_call
                                {| Server.log_name := Server.name tc;
                                   Server.log_status :=
                                     if Server.success result then "success"
                                     else "error";
                                   Server.log_message :=
                                     Server.summary result |} w) c)))
              end
          | None => Server.execute_calls rest c
          end
    end.
Proof. reflexivity. Qed.

Lemma execute_calls_writes calls c :
  writes c (Server.execute_calls calls c).1.
Proof.
  revert c. induction calls as [|tc rest IH]; intros c.
  - apply writes_refl.
  - rewrite execute_calls_cons.
    destruct (Server.parse_arguments tc) as [args|]; [|apply writes_refl].
    destruct (String.eqb (Server.name tc) "runCommand").
    + eexists [_]. split; [reflexivity|done].
    + destruct (Server.handler_of _ _) as [handler|]; [|apply IH].
      destruct (handler args (Server.the_world c)) as [[r|m] w];
        [|exists []; simpl; by rewrite app_nil_r].
      eapply writes_trans; [|apply IH].
      eexists [_]. split; [reflexivity|done].
Qed.



(** A turn sends one request; whatever else it does is written on the
    response. *)
Lemma turn_trace loopCount c :
  ∃ es, Server.trace (Server.turn loopCount c).1
        = Server.trace c ++ Server.Request loopCount (Server.chatMessages c) :: es
        ∧ forallb Spec.is_write es = true.
Proof.
  assert (∀ c', writes (Server.emit (Server.Request loopCount
                                      (Server.chatMessages c)) c) c' →
          ∃ es, Server.trace c'
                = Server.trace c ++ Server.Request loopCount
                                      (Server.chatMessages c) :: es
                ∧ forallb Spec.is_write es = true) as Hfin.
  { intros c' (es & E & He). exists es. split; [|done].
    rewrite E. simpl. by rewrite <-(assoc_L (++)). }
  unfold Server.turn.
  set (c0 := Server.emit _ c).
  destruct (consume_spec
              (Server.chunks (Server.completions_create loopCount
                                (Server.chatMessages c0))) "" [] c0)
    as (r & c1 & -> & Hw1 & _ & _).
  destruct (Server.failure _); [by apply Hfin|].
  set (c2 := if JS.nonempty (Some r) then _ else c1).
  assert (writes c0 c2) as Hw2.
  { subst c2. destruct (JS.nonempty (Some r)); [|done].
    destruct Hw1 as (es & E & He). by exists es. }
  destruct (0 <? length _); [|by apply Hfin].
  destruct (0 <? length (Server.validCalls _)); [|by apply Hfin].
  destruct (Server.call_infos _) as [infos|].
  - set (c3 := Server.emit _ (Server.push _ c2)).
    assert (writes c0 c3) as Hw3.
    { eapply writes_trans; [exact Hw2|]. eexists [_]. by split. }
    pose proof (execute_calls_writes
                  (Server.validCalls
                     (foldl Spec.gather_chunk []
                        (Server.chunks
                           (Server.completions_create loopCount
                              (Server.chatMessages c0))))) c3) as Hw4.
    destruct (Server.execute_calls _ c3) as [c4 [| |m]]; simpl in *;
      apply Hfin; by eapply writes_trans.
  - apply Hfin. simpl. destruct Hw2 as (es & E & He). by exists es.
Qed.




End server_loop.

(** ** The approval endpoint *)



(** ** The tool calls of one turn, on the server *)

Section server_batch.

Context `{Platform} `{Server.Surroundings}.


(** A name that is found and is not one of those that need a receiver
    belongs to a call that returns. *)
Lemma found_not_needed tc :
  Server.handler_of Server.WORKSPACE_DIR (Server.name tc) = None →
  Server.name tc ∉ Server.receiver_needed.
Proof.
  intros Hn Hin. apply Object_prototype_needed in Hin as [Ht Ho].
  unfold Server.handler_of in Hn. by rewrite Ht, Ho in Hn.
Qed.

Lemma returns_not_needed tc call args w r w' :
  Server.handler_of Server.WORKSPACE_DIR (Server.name tc) = Some call →
  call args w = (Ret r, w') →
  Server.name tc ∉ Server.receiver_needed.
Proof.
  intros Hc Hr Hin. apply Object_prototype_needed in Hin as [Ht Ho].
  unfold Server.handler_of in Hc. rewrite Ht, Ho in Hc.
  simpl in Hc. injection Hc as <-. done.
Qed.

Lemma throws_needed tc call args w m w' :
  Server.handler_of Server.WORKSPACE_DIR (Server.name tc) = Some call →
  call args w = (Throw m, w') →
  Server.name tc ∈ Server.receiver_needed ∧ m = Server.TypeError ∧ w' = w.
Proof.
  intros [(handler & _ & Hc)|(_ & f & Hf & Hc)]%handler_of_spec;
    rewrite Hc; [done|].
  intros [= Ef <-]. split; [by eapply Object_prototype_throws|]. split; [|done].
  revert Hf Ef. unfold Server.Object_prototype.
  destruct (String.eqb _ "constructor"); [by intros [= <-]|].
  destruct (String.eqb _ "toString"); [by intros [= <-]|].
  destruct (bool_decide _); [|done]. by intros [= <-] [= <-].
Qed.

(** The loop over a batch goes through a first part [done] of it and is
    left at the rest: at its end, at a command, which it announces, or at a
    call that throws (arguments that do not parse, a name the table only
    inherits and cannot call).  The calls gone through whose name is found
    are answered one by one, in order: a step is written and a tool message
    joins the messages, under the id of the call. *)
Lemma execute_calls_run calls c :
  ∃ done rest rs es leaving,
    calls = done ++ rest
    ∧ Forall Spec.gone_through done
    ∧ Server.chatMessages (Server.execute_calls calls c).1
      = Server.chatMessages c ++ rs
    ∧ Forall2 Spec.answers (filter Spec.found done) rs
    ∧ Server.trace (Server.execute_calls calls c).1
      = Server.trace c ++ es ++ leaving
    ∧ Forall2 Spec.step_of (filter Spec.found done) es
    ∧ match (Server.execute_calls calls c).2 with
      | Server.completed => rest = [] ∧ leaving = []
      | Server.halted =>
          ∃ cmd after args,
            rest = cmd :: after ∧ Server.name cmd = "runCommand"
            ∧ Server.parse_arguments cmd = Ret args
            ∧ leaving
              = [Server.Write
                   (Server.approval_required (Server.id cmd)
                      (args !! "command")
                      (Server.cwd_or (args !! "cwd") Server.WORKSPACE_DIR))]
      | Server.thrown m =>
          ∃ tc after,
            rest = tc :: after ∧ leaving = []
            ∧ (Server.parse_arguments tc = Throw m
               ∨ (Server.name tc ≠ "runCommand"
                  ∧ Server.name tc ∈ Server.receiver_needed
                  ∧ m = Server.TypeError))
      end.
Proof.
  revert c. induction calls as [|tc calls IH]; intros c.
  { exists [], [], [], [], []. simpl. rewrite !app_nil_r.
    repeat split; constructor. }
  rewrite execute_calls_cons.
  destruct (Server.parse_arguments tc) as [args|m] eqn:Ea.
  2:{ exists [], (tc :: calls), [], [], []. simpl. rewrite !app_nil_r.
      repeat split; try constructor. exists tc, calls. auto. }
  destruct (String.eqb_spec (Server.name tc) "runCommand") as [En|En].
  { exists [], (tc :: calls), [], [],
      [Server.Write
         (Server.approval_required (Server.id tc) (args !! "command")
            (Server.cwd_or (args !! "cwd") Server.WORKSPACE_DIR))].
    simpl. rewrite app_nil_r.
    split; [done|]. split; [constructor|]. split; [done|].
    split; [constructor|]. split; [reflexivity|]. split; [constructor|].
    by exists tc, calls, args. }
  destruct (Server.handler_of _ (Server.name tc)) as [call|] eqn:Eh.
  - destruct (call args (Server.the_world c)) as [[r|m] w1] eqn:Ec.
    + set (c1 := Server.push _ _).
      destruct (IH c1) as (done & rest & rs & es & lv & -> & Hg & Em & Hf
                           & Et & Hs & Hx).
      exists (tc :: done), rest, (Server.tool_message (Server.id tc) r :: rs),
        (Server.Write (Server.step_event (Server.name tc)
                         (Server.success_field r) (Server.summary r)) :: es),
        lv.
      split; [done|]. split.
      { constructor; [|done]. split; [done|].
        split; [by eapply returns_not_needed|by eexists]. }
      split; [rewrite Em; subst c1; simpl; by rewrite <-(assoc_L (++))|].
      assert (Spec.found tc) as Hfound by (unfold Spec.found; by rewrite Eh).
      split; [rewrite filter_cons, decide_True by done;
              constructor; [by eexists|done]|].
      split; [rewrite Et; subst c1; simpl; by rewrite <-!(assoc_L (++))|].
      split; [|done]. rewrite filter_cons, decide_True by done.
      constructor; [by eexists|done].
    + destruct (throws_needed _ _ _ _ _ _ Eh Ec) as (Hin & -> & ->).
      exists [], (tc :: calls), [], [], []. simpl. rewrite !app_nil_r.
      repeat split; try constructor. exists tc, calls.
      split; [done|]. split; [done|]. right. by repeat split.
  - destruct (IH c) as (done & rest & rs & es & lv & -> & Hg & Em & Hf
                        & Et & Hs & Hx).
    exists (tc :: done), rest, rs, es, lv.
    assert (¬ Spec.found tc) as Hfound
      by (unfold Spec.found; rewrite Eh; by intros [? ?]).
    split; [done|]. split.
    { constructor; [|done]. split; [done|].
      split; [by apply found_not_needed|by eexists]. }
    split; [done|]. split; [by rewrite filter_cons, decide_False|].
    split; [done|]. split; [by rewrite filter_cons, decide_False|done].
Qed.



End server_batch.

(** ** The trace of the extension *)

Section extension_trace.

Context `{Platform} `{Extension.Host}.

(** From [st] to [st'] the mode is kept and the trace grows by effects that
    are not requests to the model and, in secure mode, not processes
    either. *)
Let grows (st st' : Extension.state) : Prop :=
  Extension.securityMode st' = Extension.securityMode st
  ∧ ∃ es, Extension.trace st' = Extension.trace st ++ es
          ∧ Spec.count Spec.is_fetch es = 0
          ∧ (Extension.securityMode st = Extension.secure →
             Spec.count Spec.is_spawn es = 0).

Lemma grows_refl st : grows st st.
Proof. split; [done|]. exists []. by rewrite app_nil_r. Qed.

Lemma grows_trans st1 st2 st3 : grows st1 st2 → grows st2 st3 → grows st1 st3.
Proof.
  intros (M1 & es1 & E1 & F1 & S1) (M2 & es2 & E2 & F2 & S2).
  split; [congruence|]. exists (es1 ++ es2).
  rewrite E2, E1, <-(assoc_L (++)). split; [done|].
  rewrite !count_app, F1, F2. split; [done|].
  intros Hs. rewrite S1 by done. rewrite S2 by congruence. done.
Qed.

Lemma grows_step st st' e :
  Extension.securityMode st' = Extension.securityMode st →
  Extension.trace st' = Extension.trace st ++ [e] →
  Spec.is_fetch e = false → Spec.is_spawn e = false → grows st st'.
Proof.
  intros M E F S. split; [done|]. exists [e]. split; [done|].
  by rewrite !count_cons, F, S.
Qed.

Lemma grows_emit st e :
  Spec.is_fetch e = false → Spec.is_spawn e = false →
  grows st (Extension.emit e st).
Proof. by apply grows_step. Qed.

Lemma grows_same st st' :
  Extension.securityMode st' = Extension.securityMode st →
  Extension.trace st' = Extension.trace st → grows st st'.
Proof. intros M E. split; [done|]. exists []. by rewrite app_nil_r. Qed.


Lemma fs_writeFile_trace p content st st' :
  Extension.fs_writeFile p content st = Ret st' →
  Extension.trace st' = Extension.trace st ++ [Extension.WriteFile p content]
  ∧ Extension.files st' !! p = Some (Fs.File content)
  ∧ Extension.securityMode st' = Extension.securityMode st
  ∧ Extension.workspaceFolder st' = Extension.workspaceFolder st
  ∧ Extension.pendingEdits st' = Extension.pendingEdits st
  ∧ Extension.pendingApprovals st' = Extension.pendingApprovals st.
Proof.
  unfold Extension.fs_writeFile.
  destruct (if Fs.existsSync _ _ then _ else _) as [fs1|]; [|done].
  rewrite bind_Ret. unfold Fs.writeFileSync.
  destruct (fs1 !! p) as [[c|names]|] eqn:Ep; simpl.
  - intros; simplify_eq/=. by rewrite lookup_insert_eq.
  - done.
  - destruct (fs1 !! Fs.dirname p) as [[|]|]; [done| |done].
    intros; simplify_eq/=. by rewrite lookup_insert_eq.
Qed.

Lemma fs_writeFile_grows p content st st' :
  Extension.fs_writeFile p content st = Ret st' → grows st st'.
Proof.
  intros (E & _ & M & _)%fs_writeFile_trace. by eapply grows_step.
Qed.

Lemma fs_delete_grows p st st' :
  Extension.fs_delete p st = Ret st' → grows st st'.
Proof.
  unfold Extension.fs_delete.
  destruct (Extension.files st !! p) as [[c|[|n names]]|]; intros; simplify_eq;
    by eapply grows_step.
Qed.

Lemma posts_grow (out : list string) a st :
  Extension.trace
    (foldl (λ st c, Extension.emit (Extension.Post (Extension.terminal_out c a)) st)
       st out)
  = Extension.trace st
    ++ map (λ c, Extension.Post (Extension.terminal_out c a)) out.
Proof.
  revert st. induction out as [|c out IH]; intros st; simpl.
  - by rewrite app_nil_r.
  - rewrite IH. simpl. by rewrite <-(assoc_L (++)).
Qed.

Lemma posts_mode (out : list string) a st :
  Extension.securityMode
    (foldl (λ st c, Extension.emit (Extension.Post (Extension.terminal_out c a)) st)
       st out)
  = Extension.securityMode st.
Proof.
  revert st. induction out as [|c out IH]; intros st; simpl; [done|].
  by rewrite IH.
Qed.

Lemma count_posts (out : list string) a :
  Spec.count Spec.is_fetch
    (map (λ c, Extension.Post (Extension.terminal_out c a)) out) = 0
  ∧ Spec.count Spec.is_spawn
      (map (λ c, Extension.Post (Extension.terminal_out c a)) out) = 0
  ∧ Spec.count Spec.is_approval
      (map (λ c, Extension.Post (Extension.terminal_out c a)) out) = 0.
Proof. induction out as [|c out IH]; [done|]. simpl. by rewrite !count_cons. Qed.

(** What the process of a command adds to the trace: nothing when no folder
    is open or the command is not a string, and otherwise the process, once,
    followed by the output posted. *)
Lemma run_process_trace command approvalId st :
  Extension.trace (Extension.run_process command approvalId st).2
  = Extension.trace st
    ++ match Extension.workspaceFolder st, command with
       | Some cwd, Some (JS.VStr cmd) =>
           Extension.Spawn cmd cwd
           :: match Extension.spawn cmd cwd, approvalId with
              | Extension.closed out _, Some a =>
                  map (λ c, Extension.Post (Extension.terminal_out c a)) out
              | _, _ => []
              end
       | _, _ => []
       end.
Proof.
  unfold Extension.run_process.
  destruct (Extension.workspaceFolder st) as [cwd|]; [|by rewrite app_nil_r].
  destruct command as [[cmd| |]|]; simpl; try by rewrite app_nil_r.
  destruct (Extension.spawn cmd cwd) as [out code|m]; [|done].
  destruct approvalId as [a|]; [|done]. simpl.
  rewrite posts_grow. simpl. by rewrite <-(assoc_L (++)).
Qed.

Lemma run_process_mode command approvalId st :
  Extension.securityMode (Extension.run_process command approvalId st).2
  = Extension.securityMode st.
Proof.
  unfold Extension.run_process.
  destruct (Extension.workspaceFolder st) as [cwd|]; [|done].
  destruct (Server.as_string command) as [cmd|]; [|done]. simpl.
  destruct (Extension.spawn cmd cwd) as [out code|m]; [|done].
  destruct approvalId as [a|]; [|done]. simpl. by rewrite posts_mode.
Qed.

(** A process is started at most once by a command, and no request to the
    model is made for it. *)
Lemma run_process_counts command approvalId st :
  ∃ es, Extension.trace (Extension.run_process command approvalId st).2
        = Extension.trace st ++ es
        ∧ Spec.count Spec.is_fetch es = 0
        ∧ Spec.count Spec.is_spawn es ≤ 1.
Proof.
  eexists. split; [apply run_process_trace|].
  destruct (Extension.workspaceFolder st), command as [[| |]|];
    try (split; [done|unfold Spec.count; simpl; lia]).
  rewrite !count_cons.
  destruct (Extension.spawn _ _) as [out code|m], approvalId as [a|];
    try (split; [done|unfold Spec.count; simpl; lia]).
  destruct (count_posts out a) as (F & S & _).
  cbn [Spec.is_fetch Spec.is_spawn]. rewrite F, S. split; [done|lia].
Qed.

(** In full mode a command is run as one more tool. *)
Lemma run_process_grows command approvalId st :
  Extension.securityMode st = Extension.full →
  grows st (Extension.run_process command approvalId st).2.
Proof.
  intros Hm. split; [apply run_process_mode|].
  destruct (run_process_counts command approvalId st) as (es & E & F & _).
  exists es. split; [done|]. split; [done|]. by rewrite Hm.
Qed.

Lemma editFile_grows fpath codeEdit st :
  grows st (Extension._editFile fpath codeEdit st).2.
Proof.
  unfold Extension._editFile.
  destruct (Extension.target st fpath) as [uri|]; [|apply grows_refl].
  destruct (Server.as_string fpath) as [p|]; [|apply grows_refl].
  destruct (Extension.securityMode st) eqn:Em.
  - destruct (Server.as_string codeEdit) as [code|]; [|apply grows_refl].
    simpl. by eapply grows_step.
  - destruct (Server.as_string codeEdit) as [code|]; [|apply grows_refl].
    rewrite bind_Ret.
    destruct (Extension.fs_writeFile uri code st) eqn:E; [|apply grows_refl].
    by apply fs_writeFile_grows in E.
Qed.

Lemma searchReplace_grows fpath oldStr newStr st :
  grows st (Extension._searchReplace fpath oldStr newStr st).2.
Proof.
  unfold Extension._searchReplace.
  destruct (_ ≫= _) as [[uri content]|]; [|apply grows_refl].
  destruct (negb _); [apply grows_refl|].
  destruct (Extension.fs_writeFile _ _ _) eqn:E; [|apply grows_refl].
  by apply fs_writeFile_grows in E.
Qed.

Lemma deleteFile_grows fpath st :
  grows st (Extension._deleteFile fpath st).2.
Proof.
  unfold Extension._deleteFile.
  destruct (Extension.target st fpath) as [uri|]; [|apply grows_refl].
  rewrite bind_Ret.
  destruct (Extension.fs_delete uri st) eqn:E; [|apply grows_refl].
  by apply fs_delete_grows in E.
Qed.

Lemma dispatch_grows toolName args st :
  grows st (Extension.dispatch toolName args st).2.
Proof.
  unfold Extension.dispatch.
  repeat match goal with
         | |- context [if String.eqb toolName ?s then _ else _] =>
             destruct (String.eqb toolName s)
         end;
    auto using editFile_grows, searchReplace_grows, deleteFile_grows, grows_refl;
    try by eapply grows_step.
Qed.

Lemma launch_one_grows slot tc st :
  grows st (Extension.launch_one slot tc st).2.
Proof.
  unfold Extension.launch_one.
  destruct (JSON_parse _) as [args|]; [|apply grows_refl].
  set (st1 := Extension.emit _ st).
  assert (grows st st1) as H1 by by apply grows_emit.
  destruct (String.eqb _ "run_terminal_cmd").
  - unfold Extension._runTerminalCommand_begin.
    change (Extension.securityMode st1) with (Extension.securityMode st).
    destruct (Extension.securityMode st) eqn:Em.
    + simpl. eapply grows_trans; [exact H1|]. by eapply grows_step.
    + pose proof (run_process_grows (args !! "command") None st1 Em) as H2.
      destruct (Extension.run_process _ _ _) as [r st2]. simpl in *.
      by eapply grows_trans.
  - pose proof (dispatch_grows (Extension.name tc) args st1) as H2.
    destruct (Extension.dispatch _ _ _) as [r st2]. simpl in *.
    by eapply grows_trans.
Qed.

Lemma launch_cons slot tc rest st :
  Extension.launch slot (tc :: rest) st
  = ((Extension.launch_one slot tc st).1
     :: (Extension.launch (S slot) rest (Extension.launch_one slot tc st).2).1,
     (Extension.launch (S slot) rest (Extension.launch_one slot tc st).2).2).
Proof.
  simpl. destruct (Extension.launch_one slot tc st) as [t st1]. simpl.
  by destruct (Extension.launch (S slot) rest st1).
Qed.

Lemma launch_grows slot calls st :
  grows st (Extension.launch slot calls st).2.
Proof.
  revert slot st. induction calls as [|tc rest IH]; intros slot st.
  - apply grows_refl.
  - rewrite launch_cons. simpl.
    eapply grows_trans; [apply launch_one_grows|apply IH].
Qed.




Lemma apply_tool_delta_grows acc tc :
  grows acc.2 (Extension.apply_tool_delta acc tc).2.
Proof.
  destruct acc as [toolCalls st]. unfold Extension.apply_tool_delta. simpl.
  destruct (Server.delta_name tc) as [n|]; [|apply grows_refl].
  destruct (negb _); [|apply grows_refl].
  simpl. by apply grows_emit.
Qed.

Lemma apply_tool_deltas_grow tcs acc :
  grows acc.2 (foldl Extension.apply_tool_delta acc tcs).2.
Proof.
  revert acc. induction tcs as [|tc tcs IH]; intros acc; simpl.
  - apply grows_refl.
  - eapply grows_trans; [apply apply_tool_delta_grows|apply IH].
Qed.

Lemma apply_delta_grows delta d st :
  grows st (Extension.apply_delta delta d st).2.
Proof.
  unfold Extension.apply_delta.
  destruct (match Server.content delta with Some _ => _ | None => _ end)
    as [content st1] eqn:E1.
  assert (grows st st1) as H1.
  { destruct (Server.content delta) as [text|]; simpl in E1;
      [destruct (negb (String.eqb text ""))|]; simplify_eq;
      auto using grows_refl. by apply grows_emit. }
  destruct (match Server.tool_calls delta with Some _ => _ | None => _ end)
    as [calls st2] eqn:E2.
  simpl. eapply grows_trans; [exact H1|].
  destruct (Server.tool_calls delta) as [tcs|]; simplify_eq; [|apply grows_refl].
  pose proof (apply_tool_deltas_grow tcs (Extension.toolCalls d, st1)) as H2.
  by rewrite E2 in H2.
Qed.

Lemma process_lines_grows lines d st :
  grows st (Extension.process_lines lines d st).2.
Proof.
  revert d st. induction lines as [|line rest IH]; intros d st.
  - apply grows_refl.
  - rewrite process_lines_cons.
    destruct (Spec.passed_over line); [apply IH|].
    destruct (Spec.sentinel line); [apply grows_refl|].
    destruct (Extension.parse_data _) as [[delta|]|]; [|apply IH..].
    pose proof (apply_delta_grows delta d st) as H1.
    destruct (Extension.apply_delta delta d st) as [d1 st1].
    eapply grows_trans; [exact H1|apply IH].
Qed.

Lemma read_stream_grows chunks d st :
  grows st (Extension.read_stream chunks d st).2.
Proof.
  revert d st. induction chunks as [|v rest IH]; intros d st.
  - apply grows_refl.
  - rewrite read_stream_cons.
    destruct (Spec.cut _) as [lines buffer].
    pose proof (process_lines_grows lines (Extension.with_buffer buffer d) st)
      as H1.
    destruct (Extension.process_lines _ _ _) as [d1 st1].
    eapply grows_trans; [exact H1|apply IH].
Qed.

Lemma run_S budget loopCount st :
  Extension.run (S budget) loopCount st
  = (let loopCount := S loopCount in
     let reply := Extension.fetch loopCount (Extension.history st) in
     let st :=
       Extension.emit (Extension.Fetch loopCount (Extension.history st)) st in
     match reply with
     | Extension.fetch_aborted => Extension.aborted st
     | Extension.fetch_failed m => Extension.failed st m
     | Extension.not_ok text => Extension.failed st ("API Error: " +:+ text)
     | Extension.no_body => Extension.failed st "Response body is null"
     | Extension.body chunks e =>
         let '(d, st) :=
           Extension.read_stream chunks Extension.start_decoding st in
         match e with
         | Extension.read_aborted => Extension.aborted st
         | Extension.read_failed m => Extension.failed st m
         | Extension.ended =>
             let tool_calls := Extension.named_calls (Extension.toolCalls d) in
             let st :=
               Extension.push
                 [Extension.assistant_message (Extension.fullContent d)
                    tool_calls] st in
             match tool_calls with
             | Some (tc :: rest) =>
                 let '(tasks, st) := Extension.launch 0 (tc :: rest) st in
                 match Extension.results tasks with
                 | Some rs =>
                     Extension.run budget loopCount
                       (Extension.emit (Extension.Post Extension.done)
                          (Extension.push rs st))
                 | None => Extension.waiting st loopCount tasks
                 end
             | _ =>
                 if Extension.hadError (Extension.history st)
                    && (loopCount <? 10)
                 then Extension.run budget loopCount
                        (Extension.push
                           [Extension.system_message Extension.tool_warning] st)
                 else Extension.finished
                        (Extension.emit (Extension.Post Extension.done) st)
             end
         end
     end).
Proof. reflexivity. Qed.

(** What a run of the loop adds to the trace, however it ends: at most as
    many requests to the model as its budget and, in secure mode, no
    process; the mode is the one it was entered with. *)
Let bounded (budget : nat) (st st' : Extension.state) : Prop :=
  Extension.securityMode st' = Extension.securityMode st
  ∧ ∃ es, Extension.trace st' = Extension.trace st ++ es
          ∧ Spec.count Spec.is_fetch es ≤ budget
          ∧ (Extension.securityMode st = Extension.secure →
             Spec.count Spec.is_spawn es = 0).

Lemma bounded_fetch budget loopCount st st' :
  grows (Extension.emit (Extension.Fetch loopCount (Extension.history st)) st)
    st' →
  bounded (S budget) st st'.
Proof.
  intros (M & es & E & F & S). split; [done|].
  exists (Extension.Fetch loopCount (Extension.history st) :: es).
  rewrite E. simpl. rewrite <-(assoc_L (++)). split; [done|].
  rewrite !count_cons, F. simpl. split; [lia|]. intros Hs. by apply S.
Qed.

Lemma bounded_trans budget st st1 st' :
  bounded 1 st st1 → bounded budget st1 st' → bounded (S budget) st st'.
Proof.
  intros (M1 & es1 & E1 & F1 & S1) (M2 & es2 & E2 & F2 & S2).
  split; [congruence|]. exists (es1 ++ es2).
  rewrite E2, E1, <-(assoc_L (++)). split; [done|].
  rewrite !count_app. split; [lia|].
  intros Hs. rewrite S1 by done. rewrite S2 by congruence. done.
Qed.

Lemma run_bounded budget loopCount st :
  bounded budget st (Spec.state_of (Extension.run budget loopCount st)).
Proof.
  revert loopCount st. induction budget as [|budget IH]; intros loopCount st.
  { split; [done|]. exists []. by rewrite app_nil_r. }
  assert (∀ st', grows (Extension.emit
                          (Extension.Fetch (S loopCount) (Extension.history st))
                          st) st' →
          bounded (S budget) st st') as Hfin.
  { intros st' Hg. by eapply bounded_fetch. }
  assert (∀ st', grows (Extension.emit
                          (Extension.Fetch (S loopCount) (Extension.history st))
                          st) st' →
          bounded (S budget) st
            (Spec.state_of (Extension.run budget (S loopCount) st'))) as Hrec.
  { intros st' Hg. eapply bounded_trans; [|apply IH].
    by eapply bounded_fetch. }
  rewrite run_S. cbv zeta.
  set (st0 := Extension.emit _ st) in *.
  destruct (Extension.fetch _ _) as [chunks e| | | |];
    try (apply Hfin, grows_refl).
  pose proof (read_stream_grows chunks Extension.start_decoding st0) as H1.
  destruct (Extension.read_stream _ _ _) as [d st1]. simpl in H1.
  destruct e; try by apply Hfin.
  set (st2 := Extension.push _ st1).
  assert (grows st0 st2) as H2 by exact H1.
  destruct (Extension.named_calls _) as [[|tc rest]|].
  - destruct (_ && _).
    + apply Hrec. exact H2.
    + apply Hfin. eapply grows_trans; [exact H2|]. by apply grows_emit.
  - pose proof (launch_grows 0 (tc :: rest) st2) as H3.
    destruct (Extension.launch _ _ _) as [tasks st3]. simpl in H3.
    destruct (Extension.results tasks) as [rs|].
    + apply Hrec. eapply grows_trans; [exact H2|].
      eapply grows_trans; [exact H3|]. by eapply grows_step.
    + apply Hfin. by eapply grows_trans.
  - destruct (_ && _).
    + apply Hrec. exact H2.
    + apply Hfin. eapply grows_trans; [exact H2|]. by apply grows_emit.
Qed.


(** In secure mode the loop starts no process, however it ends, and it
    leaves the mode as it is. *)
Lemma run_secure budget loopCount st :
  Extension.securityMode st = Extension.secure →
  Extension.securityMode (Spec.state_of (Extension.run budget loopCount st))
  = Extension.secure
  ∧ ∃ es, Extension.trace (Spec.state_of (Extension.run budget loopCount st))
          = Extension.trace st ++ es
          ∧ Spec.count Spec.is_spawn es = 0.
Proof.
  intros Hs.
  destruct (run_bounded budget loopCount st) as (M & es & E & _ & S).
  split; [congruence|]. exists es. auto.
Qed.


(** The decision on an approval, in secure mode: a rejection starts no
    process, and an approval starts at most one, that of the command; the
    rounds that follow start none. *)
Lemma terminalApproval_spawns id choice st loopCount tasks :
  Extension.securityMode st = Extension.secure →
  ∃ es,
    Extension.trace
      (Spec.state_of
         (Extension.terminalApproval id choice
            (Extension.waiting st loopCount tasks)))
    = Extension.trace st ++ es
    ∧ Spec.count Spec.is_spawn es ≤ 1
    ∧ (choice = false → Spec.count Spec.is_spawn es = 0).
Proof.
  intros Hs.
  assert (∃ es : list Extension.effect,
             Extension.trace st = Extension.trace st ++ es
             ∧ Spec.count Spec.is_spawn es ≤ 1
             ∧ (choice = false → Spec.count Spec.is_spawn es = 0)) as Hnone.
  { exists []. rewrite app_nil_r. unfold Spec.count. simpl.
    split; [done|]. split; [lia|done]. }
  unfold Extension.terminalApproval.
  destruct (Extension.pendingApprovals st !! id) as [slot|]; [|exact Hnone].
  cbv zeta. set (st0 := Extension.set_approvals _ st).
  destruct (tasks !! slot) as [[m|tc command approvalId]|];
    [exact Hnone| |exact Hnone].
  assert (∃ es1,
             Extension.trace
               (Extension._runTerminalCommand_end choice command approvalId
                  st0).2
             = Extension.trace st ++ es1
             ∧ Spec.count Spec.is_spawn es1 ≤ 1
             ∧ (choice = false → Spec.count Spec.is_spawn es1 = 0)
             ∧ Extension.securityMode
                 (Extension._runTerminalCommand_end choice command approvalId
                    st0).2
               = Extension.secure) as (es1 & E1 & S1 & R1 & M1).
  { unfold Extension._runTerminalCommand_end. destruct choice; simpl.
    - destruct (run_process_counts command (Some approvalId) st0)
        as (es1 & E1 & _ & S1).
      exists es1. rewrite run_process_mode. by repeat split.
    - exists []. rewrite app_nil_r. unfold Spec.count. simpl.
      repeat split; try done. lia. }
  destruct (Extension._runTerminalCommand_end _ _ _ _) as [r st1].
  simpl in E1, M1.
  destruct (Extension.results _) as [rs|].
  - set (st2 := Extension.emit _ (Extension.push rs st1)).
    destruct (run_secure (Extension.maxLoops - loopCount) loopCount st2 M1)
      as (_ & es2 & E2 & S2).
    assert (∃ es3,
               Extension.trace
                 (Spec.state_of
                    match Extension.run (Extension.maxLoops - loopCount)
                            loopCount st2 with
                    | Extension.failed st m =>
                        Extension.failed
                          (Extension.emit
                             (Extension.Post (Extension.error_post m)) st) m
                    | o => o
                    end)
               = Extension.trace st2 ++ es3
               ∧ Spec.count Spec.is_spawn es3 = 0) as (es3 & E3 & S3).
    { destruct (Extension.run _ _ _) as [st'|st' n ts|st' m|st']; simpl in *;
        try by exists es2.
      exists (es2 ++ [Extension.Post (Extension.error_post m)]).
      rewrite E2, <-(assoc_L (++)). split; [done|].
      by rewrite count_app, S2. }
    assert (Extension.trace st2
            = Extension.trace st ++ es1 ++ [Extension.Post Extension.done])
      as E2'.
    { subst st2. simpl. by rewrite E1, <-(assoc_L (++)). }
    exists (es1 ++ [Extension.Post Extension.done] ++ es3).
    rewrite E3, E2', <-!(assoc_L (++)). split; [done|].
    rewrite !count_app, S3.
    change (Spec.count Spec.is_spawn [Extension.Post Extension.done]) with 0.
    split; [lia|]. intros Hc. by rewrite (R1 Hc).
  - simpl. by exists es1.
Qed.

Lemma apply_tool_delta_history acc tc :
  Extension.history (Extension.apply_tool_delta acc tc).2
  = Extension.history acc.2.
Proof.
  destruct acc as [toolCalls st]. unfold Extension.apply_tool_delta. simpl.
  destruct (Server.delta_name tc) as [n|]; [|done].
  by destruct (negb _).
Qed.

Lemma apply_delta_history delta d st :
  Extension.history (Extension.apply_delta delta d st).2
  = Extension.history st.
Proof.
  unfold Extension.apply_delta.
  destruct (match Server.content delta with Some _ => _ | None => _ end)
    as [content st1] eqn:E1.
  assert (Extension.history st1 = Extension.history st) as H1.
  { destruct (Server.content delta) as [text|]; simpl in E1;
      [destruct (negb (String.eqb text ""))|]; by simplify_eq. }
  destruct (match Server.tool_calls delta with Some _ => _ | None => _ end)
    as [calls st2] eqn:E2.
  simpl. rewrite <-H1.
  destruct (Server.tool_calls delta) as [tcs|]; [|by simplify_eq].
  clear E1 H1. revert E2. generalize (Extension.toolCalls d). revert st1.
  induction tcs as [|tc tcs IH]; intros st1 a E2; [by simplify_eq/=|].
  change (foldl ?f ?x (tc :: tcs)) with (foldl f (f x tc) tcs) in E2.
  pose proof (apply_tool_delta_history (a, st1) tc) as Hs.
  destruct (Extension.apply_tool_delta (a, st1) tc) as [a1 st1'].
  rewrite (IH _ _ E2). exact Hs.
Qed.

Lemma process_lines_history lines d st :
  Extension.history (Extension.process_lines lines d st).2
  = Extension.history st.
Proof.
  revert d st. induction lines as [|line rest IH]; intros d st; [done|].
  rewrite process_lines_cons.
  destruct (Spec.passed_over line); [apply IH|].
  destruct (Spec.sentinel line); [done|].
  destruct (Extension.parse_data _) as [[delta|]|]; [|apply IH..].
  pose proof (apply_delta_history delta d st) as H1.
  destruct (Extension.apply_delta delta d st) as [d1 st1].
  by rewrite IH.
Qed.

Lemma read_stream_history chunks d st :
  Extension.history (Extension.read_stream chunks d st).2
  = Extension.history st.
Proof.
  revert d st. induction chunks as [|v rest IH]; intros d st; [done|].
  rewrite read_stream_cons.
  destruct (Spec.cut _) as [lines buffer].
  pose proof (process_lines_history lines (Extension.with_buffer buffer d) st)
    as H1.
  destruct (Extension.process_lines _ _ _) as [d1 st1].
  by rewrite IH.
Qed.

(** *** The table of approvals *)


















End extension_trace.

(** ** The round cap *)





(** ** Arguments that do not parse *)

Section malformed_arguments.

Context `{Platform} `{Server.Surroundings} `{Extension.Host}.

Lemma call_infos_throws calls tc :
  tc ∈ calls → Server.parse_arguments tc = Throw Server.SyntaxError →
  Server.call_infos calls = Throw Server.SyntaxError.
Proof.
  intros Hin Ht. induction calls as [|tc' rest IH];
    [by apply elem_of_nil in Hin|].
  simpl. apply elem_of_cons in Hin as [<-|Hin]; [by rewrite Ht|].
  destruct (Server.parse_arguments tc') as [args|m] eqn:E.
  - rewrite bind_Ret, (IH Hin). done.
  - unfold Server.parse_arguments in E.
    destruct (JSON_parse _); by simplify_eq.
Qed.

(** On the server, one valid call whose arguments do not parse makes the
    whole turn throw, before any call of the batch is executed. *)
Lemma server_turn_throws loopCount c tc :
  let s := Server.completions_create loopCount (Server.chatMessages c) in
  Server.failure s = None →
  tc ∈ Server.validCalls (Spec.gather (Server.chunks s)) →
  Server.parse_arguments tc = Throw Server.SyntaxError →
  (Server.turn loopCount c).2 = Throw Server.SyntaxError.
Proof.
  intros s Hf Hin Ht. unfold Server.turn.
  set (c0 := Server.emit _ c).
  change (Server.chatMessages c0) with (Server.chatMessages c). fold s.
  destruct (consume_spec (Server.chunks s) "" [] c0) as (r & c1 & -> & _).
  rewrite Hf. fold (Spec.gather (Server.chunks s)).
  destruct (Spec.gather (Server.chunks s)) as [|tc0 tcs] eqn:Eg;
    [by apply elem_of_nil in Hin|].
  change (0 <? length (tc0 :: tcs)) with true. cbv iota.
  destruct (Server.validCalls (tc0 :: tcs)) as [|v vs] eqn:Ev;
    [by apply elem_of_nil in Hin|].
  change (0 <? length (v :: vs)) with true. cbv iota.
  by rewrite (call_infos_throws _ _ Hin Ht).
Qed.

(** In the extension, a call whose arguments do not parse gets its error
    as a tool message and nothing else happens for it; the calls after it
    in the batch are launched from the same state. *)
Lemma extension_call_fails_alone slot tc rest st :
  JSON_parse (Extension.arguments tc) = None →
  Extension.launch_one slot tc st
  = (Extension.settled
       (Extension.tool_message (Extension.id tc) (Extension.name tc)
          (Extension.error_result Extension.invalid_arguments)), st)
  ∧ Extension.launch slot (tc :: rest) st
    = (Extension.settled
         (Extension.tool_message (Extension.id tc) (Extension.name tc)
            (Extension.error_result Extension.invalid_arguments))
       :: (Extension.launch (S slot) rest st).1,
       (Extension.launch (S slot) rest st).2).
Proof.
  intros Hp.
  assert (Extension.launch_one slot tc st
          = (Extension.settled
               (Extension.tool_message (Extension.id tc) (Extension.name tc)
                  (Extension.error_result Extension.invalid_arguments)), st))
    as E by (unfold Extension.launch_one; by rewrite Hp).
  split; [done|]. by rewrite launch_cons, E.
Qed.

End malformed_arguments.

(** C4: on the server the failure is not confined to the call.  The model
    answers with one call of [readFile] whose arguments are [{bad]: the
    request is answered by one [error] event and closed; no step is
    written, no tool message is fed back, and the loop does not go on to a
    second request. *)
Theorem malformed_arguments_abort_the_server_turn :
  let chat :=
    @Server.agent_chat Sample.platform
      (Sample.server (Sample.one_call "call_1" "readFile" "{bad"))
      (Sample.request "read it") Sample.workspace in
  Server.trace chat
  = [Server.Request 1
       [Server.system_message "You are Watch.ai Agent";
        Server.user_message "read it"];
     Server.Write (Server.error_event Server.SyntaxError);
     Server.End]
  ∧ Server.chatMessages chat
    = [Server.system_message "You are Watch.ai Agent";
       Server.user_message "read it";
       Server.assistant_tool_calls
         [{| Server.id := "call_1"; Server.name := "readFile";
             Server.arguments := "{bad" |}]].
Proof. split; vm_compute; reflexivity. Qed.

(** The same call in a batch of the extension: its error is its tool
    message, and the call after it is executed. *)
Example malformed_arguments_in_the_extension :
  (@Extension.launch Sample.platform Sample.host 0
     [{| Extension.id := Some "call_1"; Extension.name := "read_file";
         Extension.arguments := "{bad" |};
      {| Extension.id := Some "call_2"; Extension.name := "read_file";
         Extension.arguments :=
           Sample.object_text [("target_file", "b.txt")] |}]
     (Sample.editor Extension.secure)).1
  = [Extension.settled
       (Extension.tool_message (Some "call_1") "read_file"
          (Extension.error_result Extension.invalid_arguments));
     Extension.settled
       (Extension.tool_message (Some "call_2") "read_file"
          (Extension.content_result "beta"))].
Proof. vm_compute. reflexivity. Qed.

(** ** A command in a batch *)

Section turn_with_calls.

Context `{Platform} `{Server.Surroundings} `{Extension.Host}.



End turn_with_calls.



(** On the server the file is still there after the batch of the witness:
    the deletion that follows the command was not executed. *)
Example server_batch_example :
  let chat :=
    (@Server.execute_calls Sample.platform
       (Sample.server (Sample.one_call "c" "readFile" "{}"))
       [{| Server.id := "call_1"; Server.name := "readFile";
           Server.arguments := Sample.object_text [("path", "/ws/a.txt")] |};
        {| Server.id := "call_2"; Server.name := "runCommand";
           Server.arguments := Sample.object_text [("command", "ls")] |};
        {| Server.id := "call_3"; Server.name := "deleteFile";
           Server.arguments := Sample.object_text [("path", "/ws/a.txt")] |}]
       Sample.chat).1 in
  Server.fs (Server.the_world chat) !! "/ws/a.txt"
  = Some (Fs.File "cost: 5 and 5")
  ∧ Server.trace chat
    = [Server.Write
         (Server.step_event "readFile" (Some (JS.VBool true))
            (Some (JS.VStr "Successfully read a.txt (1 lines)")));
       Server.Write
         (Server.approval_required "call_2" (Some (JS.VStr "ls"))
            (JS.VStr "/ws"))].
Proof. split; vm_compute; reflexivity. Qed.


(** ** Commands and their approval *)

Section approval.

Context `{Platform} `{Server.Surroundings} `{Extension.Host}.



(** In secure mode the command is announced under a fresh reading of the
    clock and its resolver is kept; nothing else happens. *)
Lemma command_begins_with_the_approval slot command st :
  Extension.securityMode st = Extension.secure →
  ∃ st',
    Extension._runTerminalCommand_begin slot command st
    = (inr (Extension.Date_now (Extension.clock st)), st')
    ∧ Extension.trace st'
      = Extension.trace st
        ++ [Extension.Post
              (Extension.approval (Extension.Date_now (Extension.clock st))
                 command)]
    ∧ Extension.pendingApprovals st'
        !! Extension.Date_now (Extension.clock st) = Some slot
    ∧ Extension.files st' = Extension.files st.
Proof.
  intros Hm. unfold Extension._runTerminalCommand_begin. rewrite Hm.
  eexists. split; [reflexivity|]. simpl.
  split; [done|]. split; [|done]. by rewrite lookup_insert_eq.
Qed.

(** So a call of the command tool, launched in secure mode, announces
    itself, asks for the approval and stays open. *)
Lemma command_call_waits slot tc args st :
  Extension.securityMode st = Extension.secure →
  Extension.name tc = "run_terminal_cmd" →
  JSON_parse (Extension.arguments tc) = Some args →
  ∃ st',
    Extension.launch_one slot tc st
    = (Extension.awaiting tc (args !! "command")
         (Extension.Date_now (Extension.clock st)), st')
    ∧ Extension.trace st'
      = Extension.trace st
        ++ [Extension.Post
              (Extension.tool_executing (Extension.statusLabel tc args));
            Extension.Post
              (Extension.approval (Extension.Date_now (Extension.clock st))
                 (args !! "command"))]
    ∧ Extension.pendingApprovals st'
        !! Extension.Date_now (Extension.clock st) = Some slot
    ∧ Extension.files st' = Extension.files st.
Proof.
  intros Hm Hn Ha. unfold Extension.launch_one. rewrite Ha, Hn.
  change (String.eqb "run_terminal_cmd" "run_terminal_cmd") with true.
  cbv iota zeta.
  set (st1 := Extension.emit _ st).
  destruct (command_begins_with_the_approval slot (args !! "command") st1 Hm)
    as (st' & -> & E & P & F).
  exists st'. split; [done|]. split; [|by split].
  rewrite E. subst st1. simpl. by rewrite <-(assoc_L (++)).
Qed.

Lemma command_rejected command approvalId st :
  Extension._runTerminalCommand_end false command approvalId st
  = (Ret (Extension.error_result Extension.rejected), st).
Proof. reflexivity. Qed.

Lemma command_approved cmd cwd approvalId st :
  Extension.workspaceFolder st = Some cwd →
  ∃ posts,
    Extension.trace
      (Extension._runTerminalCommand_end true (Some (JS.VStr cmd)) approvalId
         st).2
    = Extension.trace st ++ Extension.Spawn cmd cwd :: posts
    ∧ Spec.count Spec.is_spawn posts = 0.
Proof.
  intros Hw. unfold Extension._runTerminalCommand_end. simpl.
  rewrite run_process_trace, Hw.
  eexists. split; [reflexivity|].
  destruct (Extension.spawn cmd cwd); [apply count_posts|done].
Qed.

End approval.




(** A turn of the extension in secure mode, to its end: the command waits;
    rejected, nothing is started and the rejection is the result fed back;
    approved, the process is started once. *)
Example secure_mode_round :
  let call :=
    {| Extension.id := Some "call_1"; Extension.name := "run_terminal_cmd";
       Extension.arguments := Sample.object_text [("command", "ls")] |} in
  let '(tasks, st) :=
    @Extension.launch Sample.platform Sample.host 0 [call]
      (Sample.editor Extension.secure) in
  let rejected :=
    Spec.state_of
      (@Extension.terminalApproval Sample.platform Sample.host "1700000000000"
         false (Extension.waiting st 1 tasks)) in
  let approved :=
    Spec.state_of
      (@Extension.terminalApproval Sample.platform Sample.host "1700000000000"
         true (Extension.waiting st 1 tasks)) in
  Spec.count Spec.is_spawn (Extension.trace st) = 0
  ∧ Spec.count Spec.is_spawn (Extension.trace rejected) = 0
  ∧ Extension.history rejected !! 0
    = Some (Extension.tool_message (Some "call_1") "run_terminal_cmd"
              (Extension.error_result Extension.rejected))
  ∧ Spec.count Spec.is_spawn (Extension.trace approved) = 1.
Proof. vm_compute. repeat split; reflexivity. Qed.

(** Two commands in one batch whose approvals are posted within one
    reading of the clock: both cards carry the same id, and the table keeps
    one resolver for it, that of the second.  Approving the id starts the
    second command and empties the table; the first call waits on, with no
    resolver left to resume it. *)
Example approvals_under_one_reading :
  let first :=
    {| Extension.id := Some "call_1"; Extension.name := "run_terminal_cmd";
       Extension.arguments := Sample.object_text [("command", "ls")] |} in
  let second :=
    {| Extension.id := Some "call_2"; Extension.name := "run_terminal_cmd";
       Extension.arguments := Sample.object_text [("command", "rm -rf x")] |} in
  let batch :=
    @Extension.launch Sample.platform Sample.stopped_clock 0 [first; second]
      (Sample.editor Extension.secure) in
  let approved :=
    @Extension.terminalApproval Sample.platform Sample.stopped_clock
      "1700000000000" true (Extension.waiting batch.2 1 batch.1) in
  Extension.trace batch.2
  = [Extension.Post (Extension.tool_executing "Running run_terminal_cmd...");
     Extension.Post (Extension.approval "1700000000000" (Some (JS.VStr "ls")));
     Extension.Post (Extension.tool_executing "Running run_terminal_cmd...");
     Extension.Post
       (Extension.approval "1700000000000" (Some (JS.VStr "rm -rf x")))]
  ∧ Extension.pendingApprovals batch.2 !! "1700000000000" = Some 1
  ∧ List.filter Spec.is_spawn (Extension.trace (Spec.state_of approved))
    = [Extension.Spawn "rm -rf x" "/ws"]
  ∧ Extension.pendingApprovals (Spec.state_of approved) = ∅
  ∧ ∃ st' tasks,
      approved = Extension.waiting st' 1 tasks
      ∧ tasks !! 0
        = Some (Extension.awaiting first (Some (JS.VStr "ls")) "1700000000000").
Proof.
  repeat split; try (vm_compute; reflexivity).
  eexists _, _. split; [vm_compute; reflexivity|]. reflexivity.
Qed.

(** ** Pending edits *)

Lemma map_get_set {V} k (v : V) m :
  Extension.map_get k (Extension.map_set k v m) = Some v.
Proof.
  induction m as [|[k' v'] m IH]; simpl.
  - by rewrite String.eqb_refl.
  - destruct (String.eqb k' k) eqn:E; simpl; by rewrite E.
Qed.

Lemma map_get_delete {V} k (m : list (string * V)) :
  Extension.map_get k (Extension.map_delete k m) = None.
Proof.
  unfold Extension.map_delete. induction m as [|[k' v'] m IH]; [done|].
  rewrite filter_cons. simpl.
  destruct (String.eqb k' k) eqn:E; simpl; [done|]. by rewrite E.
Qed.

Section pending_edits.

Context `{Extension.Host}.

(** In secure mode [_editFile] writes nothing: the edit is kept under the
    path given and announced under the resolved path. *)
Lemma editFile_secure st root fpath code :
  Extension.securityMode st = Extension.secure →
  Extension.workspaceFolder st = Some root →
  ∃ st' pending lang,
    Extension._editFile (Some (JS.VStr fpath)) (Some (JS.VStr code)) st
    = (Ret (Extension.edit_pending_result
              (Extension.uri_file (Extension.resolve root fpath))), st')
    ∧ Extension.files st' = Extension.files st
    ∧ Extension.trace st'
      = Extension.trace st
        ++ [Extension.Post
              (Extension.edit_pending
                 (Extension.uri_file (Extension.resolve root fpath))
                 (Fs.basename fpath) lang (Extension.added pending)
                 (Extension.removed pending))]
    ∧ Extension.map_get fpath (Extension.pendingEdits st') = Some pending
    ∧ Extension.newContent pending = code
    ∧ Extension.securityMode st' = Extension.secure.
Proof.
  intros Hm Hw. unfold Extension._editFile, Extension.target.
  rewrite Hw, Hm. simpl.
  eexists _, {| Extension.newContent := code; Extension.langName := _;
                Extension.ext := _; Extension.added := _;
                Extension.removed := _ |}, _.
  split; [reflexivity|]. simpl.
  split; [done|]. split; [reflexivity|]. split; [apply map_get_set|done].
Qed.

(** A message that approves no edit changes no file. *)
Lemma receive_keeps_files m st :
  Spec.approves_edits m = false →
  Extension.files (Extension.receive m st) = Extension.files st
  ∧ Spec.count Spec.is_file_change (Extension.trace (Extension.receive m st))
    = Spec.count Spec.is_file_change (Extension.trace st).
Proof.
  destruct m; try done; intros _; simpl; rewrite count_app, count_cons; simpl;
    (split; [done|]); unfold Spec.count at 2; simpl; lia.
Qed.

Lemma receive_all_keep_files msgs st :
  forallb (λ m, negb (Spec.approves_edits m)) msgs = true →
  Extension.files (foldl (λ st m, Extension.receive m st) st msgs)
  = Extension.files st
  ∧ Spec.count Spec.is_file_change
      (Extension.trace (foldl (λ st m, Extension.receive m st) st msgs))
    = Spec.count Spec.is_file_change (Extension.trace st).
Proof.
  revert st. induction msgs as [|m msgs IH]; intros st; [done|]. simpl.
  intros [Hm Hr]%andb_prop. apply negb_true_iff in Hm.
  destruct (IH (Extension.receive m st) Hr) as [-> ->].
  by apply receive_keeps_files.
Qed.

(** An approval writes the content kept under the path it names, at that
    path, when the write goes through. *)
Lemma approval_writes_the_edit filePath pending st :
  Extension.map_get filePath (Extension.pendingEdits st) = Some pending →
  is_Some (Extension.files st !! Extension.uri_file filePath)
  ∨ Extension.files (Extension._writePendingEdit filePath st)
      !! Extension.uri_file filePath
    = Some (Fs.File (Extension.newContent pending))
  ∨ Extension._writePendingEdit filePath st = st.
Proof.
  intros Hp. unfold Extension._writePendingEdit. rewrite Hp.
  destruct (Extension.fs_writeFile _ _ _) as [st'|] eqn:E; [|auto].
  right. left. simpl. by apply fs_writeFile_trace in E as (_ & ? & _).
Qed.

End pending_edits.

(** In secure mode, with a folder open, an [edit_file] call writes no
    file: its result is [pending], the content proposed is kept in the table
    of pending edits under the path given, and one message announces it,
    under the resolved path.  Whatever messages about the mode and the edits
    follow, the files stay as they were as long as none of them is an
    approval.  A rejection under the path the edit is kept under removes it
    from the table and leaves the files as they were. *)
Lemma secure_edit_waits_for_approval `{Extension.Host}
    (st : Extension.state) (root fpath code : string) :
  Extension.securityMode st = Extension.secure →
  Extension.workspaceFolder st = Some root →
  ∃ st' pending lang,
    Extension.dispatch "edit_file"
      (<["target_file" := JS.VStr fpath]> (<["code_edit" := JS.VStr code]> ∅)) st
    = (Ret (Extension.edit_pending_result
              (Extension.uri_file (Extension.resolve root fpath))), st')
    ∧ Extension.files st' = Extension.files st
    ∧ Extension.trace st'
      = Extension.trace st
        ++ [Extension.Post
              (Extension.edit_pending
                 (Extension.uri_file (Extension.resolve root fpath))
                 (Fs.basename fpath) lang (Extension.added pending)
                 (Extension.removed pending))]
    ∧ Extension.map_get fpath (Extension.pendingEdits st') = Some pending
    ∧ Extension.newContent pending = code
    ∧ (∀ msgs,
         forallb (λ m, negb (Spec.approves_edits m)) msgs = true →
         Extension.files (foldl (λ st m, Extension.receive m st) st' msgs)
         = Extension.files st
         ∧ Spec.count Spec.is_file_change
             (Extension.trace (foldl (λ st m, Extension.receive m st) st' msgs))
           = Spec.count Spec.is_file_change (Extension.trace st))
    ∧ Extension.map_get fpath
        (Extension.pendingEdits
           (Extension.receive (Extension.rejectEdit fpath) st')) = None
    ∧ Extension.files (Extension.receive (Extension.rejectEdit fpath) st')
      = Extension.files st.
Proof.
  intros Hm Hw.
  destruct (editFile_secure st root fpath code Hm Hw)
    as (st' & pending & lang & E & Hf & Ht & Hp & Hc & _).
  exists st', pending, lang.
  split; [exact E|]. split; [done|]. split; [done|]. split; [done|].
  split; [done|]. split; [|split].
  - intros msgs Hmsgs.
    destruct (receive_all_keep_files msgs st' Hmsgs) as [-> ->].
    split; [done|]. rewrite Ht, count_app, count_cons. simpl.
    unfold Spec.count at 2. simpl. lia.
  - simpl. apply map_get_delete.
  - done.
Qed.

Lemma secure_edit_waits_for_approval_witness :
  ∃ st' pending lang,
    @Extension.dispatch Sample.host "edit_file"
      (<["target_file" := JS.VStr "/ws/a.txt"]>
         (<["code_edit" := JS.VStr "cost: 6"]> ∅))
      (Sample.editor Extension.secure)
    = (Ret (Extension.edit_pending_result "/ws/a.txt"), st')
    ∧ Extension.files st' = Sample.workspace
    ∧ Extension.trace st'
      = [Extension.Post
           (Extension.edit_pending "/ws/a.txt" "a.txt" lang
              (Extension.added pending) (Extension.removed pending))]
    ∧ Extension.map_get "/ws/a.txt" (Extension.pendingEdits st') = Some pending
    ∧ Extension.newContent pending = "cost: 6"
    ∧ (∀ msgs,
         forallb (λ m, negb (Spec.approves_edits m)) msgs = true →
         Extension.files (foldl (λ st m, Extension.receive m st) st' msgs)
         = Sample.workspace
         ∧ Spec.count Spec.is_file_change
             (Extension.trace (foldl (λ st m, Extension.receive m st) st' msgs))
           = 0)
    ∧ Extension.map_get "/ws/a.txt"
        (Extension.pendingEdits
           (Extension.receive (Extension.rejectEdit "/ws/a.txt") st')) = None
    ∧ Extension.files (Extension.receive (Extension.rejectEdit "/ws/a.txt") st')
      = Sample.workspace.
Proof.
  apply (@secure_edit_waits_for_approval Sample.host
           (Sample.editor Extension.secure) "/ws" "/ws/a.txt" "cost: 6");
    reflexivity.
Defined.

(** The edit of the witness, approved: the file holds the content
    proposed. *)
Example approved_edit_is_written :
  let st :=
    (@Extension.dispatch Sample.host "edit_file"
       (<["target_file" := JS.VStr "/ws/a.txt"]>
          (<["code_edit" := JS.VStr "cost: 6"]> ∅))
       (Sample.editor Extension.secure)).2 in
  Extension.files st !! "/ws/a.txt" = Some (Fs.File "cost: 5 and 5")
  ∧ Extension.files (Extension.receive (Extension.approveEdit "/ws/a.txt") st)
      !! "/ws/a.txt" = Some (Fs.File "cost: 6").
Proof. split; vm_compute; reflexivity. Qed.

(** The edit is kept under the path given and announced under the resolved
    path: for the relative path [a.txt] it is kept under [a.txt] and
    announced as [/ws/a.txt]. *)
Example pending_edit_key :
  let st :=
    (@Extension.dispatch Sample.host "edit_file"
       (<["target_file" := JS.VStr "a.txt"]>
          (<["code_edit" := JS.VStr "cost: 6"]> ∅))
       (Sample.editor Extension.secure)).2 in
  map fst (Extension.pendingEdits st) = ["a.txt"]
  ∧ Extension.trace st
    = [Extension.Post (Extension.edit_pending "/ws/a.txt" "a.txt" "TXT" 0 0)].
Proof. split; vm_compute; reflexivity. Qed.

(** C10: the rejection of an edit does not always discard it.  In secure
    mode the model proposes an edit of the relative path [a.txt]: nothing is
    written, the edit is kept under [a.txt] and announced to the webview as
    [/ws/a.txt].  The webview rejects the edit under the path it was given:
    the rejection is acknowledged, but the table holds no edit under that
    path, and the edit stays pending.  An approval of all the edits, later,
    writes the content that was rejected, and writes it at [/a.txt], the
    path of the key, not at the file announced. *)
Theorem rejected_edit_is_still_written :
  let st :=
    (@Extension.dispatch Sample.host "edit_file"
       (<["target_file" := JS.VStr "a.txt"]>
          (<["code_edit" := JS.VStr "cost: 6"]> ∅))
       (Sample.editor Extension.secure)).2 in
  let rejected := Extension.receive (Extension.rejectEdit "/ws/a.txt") st in
  let approved := Extension.receive Extension.approveAll rejected in
  Extension.files st = Sample.workspace
  ∧ Extension.trace st
    = [Extension.Post (Extension.edit_pending "/ws/a.txt" "a.txt" "TXT" 0 0)]
  ∧ Extension.trace rejected
    = Extension.trace st ++ [Extension.Post (Extension.edit_rejected "/ws/a.txt")]
  ∧ (Extension.newContent <$> Extension.map_get "a.txt"
                                (Extension.pendingEdits rejected))
    = Some "cost: 6"
  ∧ Extension.files rejected = Sample.workspace
  ∧ Extension.trace approved
    = Extension.trace rejected
      ++ [Extension.WriteFile "/a.txt" "cost: 6";
          Extension.Post Extension.all_edits_approved]
  ∧ Extension.files approved !! "/a.txt" = Some (Fs.File "cost: 6")
  ∧ Extension.files approved !! "/ws/a.txt" = Some (Fs.File "cost: 5 and 5").
Proof. repeat split; vm_compute; reflexivity. Qed.

(** For every relative path it is so: the edit is kept under the path and
    announced under another, and a rejection under the path announced leaves
    it in the table. *)
Lemma relative_edit_survives_rejection (st : Extension.state)
    (root fpath code : string) :
  Extension.securityMode st = Extension.secure →
  Extension.workspaceFolder st = Some root →
  JS.startsWith fpath "/" = false →
  let st' :=
    (Extension._editFile (Some (JS.VStr fpath)) (Some (JS.VStr code)) st).2 in
  let announced := Extension.uri_file (Extension.resolve root fpath) in
  announced ≠ fpath
  ∧ ∃ pending,
      Extension.map_get fpath
        (Extension.pendingEdits
           (Extension.receive (Extension.rejectEdit announced) st'))
      = Some pending
      ∧ Extension.newContent pending = code.
Proof.
  intros Hm Hw Hr st' announced.
  assert (announced ≠ fpath) as Hne.
  { intros Heq.
    assert (JS.startsWith announced "/" = true) as Ha.
    { subst announced. unfold Extension.uri_file.
      by destruct (JS.startsWith (Extension.resolve root fpath) "/") eqn:E. }
    rewrite Heq in Ha. congruence. }
  split; [done|].
  destruct (editFile_secure st root fpath code Hm Hw)
    as (st1 & pending & lang & E & _ & _ & Hp & Hc & _).
  assert (st' = st1) as -> by (subst st'; by rewrite E).
  exists pending. split; [|done]. simpl.
  revert Hp. generalize (Extension.pendingEdits st1). intros m.
  unfold Extension.map_delete. induction m as [|[k v] m IH]; [done|].
  rewrite filter_cons. simpl.
  destruct (String.eqb_spec k fpath) as [->|Hk].
  - intros [= ->]. destruct (String.eqb_spec fpath announced); [congruence|].
    simpl. by rewrite String.eqb_refl.
  - intros Hg. destruct (String.eqb k announced); simpl; [by apply IH|].
    destruct (String.eqb_spec k fpath); [done|]. by apply IH.
Qed.

(** * Further properties of the code *)

(** ** The file system calls *)

Lemma link_lookup_ne dir name fs k :
  k ≠ dir → Fs.link dir name fs !! k = fs !! k.
Proof.
  intros Hk. unfold Fs.link.
  destruct (fs !! dir) as [[c|names]|]; try done.
  case_bool_decide; [done|]. by rewrite lookup_insert_ne.
Qed.

Lemma link_lookup_dir dir name fs names :
  fs !! dir = Some (Fs.Dir names) →
  ∃ names', Fs.link dir name fs !! dir = Some (Fs.Dir names')
            ∧ name ∈ names' ∧ names ⊆ names'.
Proof.
  intros Hd. unfold Fs.link. rewrite Hd.
  case_bool_decide as Hn.
  - exists names. by rewrite Hd.
  - exists (names ++ [name]). rewrite lookup_insert_eq.
    split; [done|]. split; [set_solver|]. set_solver.
Qed.

(** What [link] leaves of a node: a file as it is, a directory a
    directory. *)
Lemma link_keeps dir name fs k :
  (∀ c, fs !! k = Some (Fs.File c) → Fs.link dir name fs !! k = Some (Fs.File c))
  ∧ (fs !! k = None → Fs.link dir name fs !! k = None)
  ∧ (∀ l, fs !! k = Some (Fs.Dir l) →
       ∃ l', Fs.link dir name fs !! k = Some (Fs.Dir l')).
Proof.
  destruct (decide (k = dir)) as [->|Hk].
  - unfold Fs.link. destruct (fs !! dir) as [[c|names]|] eqn:E.
    + repeat split; intros; simplify_eq; by eauto.
    + repeat split; intros; simplify_eq.
      case_bool_decide; [by eauto|]. rewrite lookup_insert_eq. by eauto.
    + repeat split; intros; simplify_eq; by eauto.
  - rewrite (link_lookup_ne _ _ _ _ Hk). repeat split; intros; by eauto.
Qed.

Lemma unlink_lookup_ne dir name fs k :
  k ≠ dir → Fs.unlink dir name fs !! k = fs !! k.
Proof.
  intros Hk. unfold Fs.unlink.
  destruct (fs !! dir) as [[c|names]|]; try done.
  by rewrite lookup_insert_ne.
Qed.

Lemma unlink_lookup_None dir name fs k :
  fs !! k = None → Fs.unlink dir name fs !! k = None.
Proof.
  intros Hk. destruct (decide (k = dir)) as [->|Hn].
  - unfold Fs.unlink. by rewrite Hk.
  - by rewrite unlink_lookup_ne.
Qed.

Lemma writeFileSync_lookup fs p content fs' :
  Fs.writeFileSync fs p content = Ret fs' →
  fs' !! p = Some (Fs.File content).
Proof.
  unfold Fs.writeFileSync.
  destruct (fs !! p) as [[c|names]|]; [| done |].
  - intros; simplify_eq. by rewrite lookup_insert_eq.
  - destruct (fs !! Fs.dirname p) as [[|]|]; [done| |done].
    intros; simplify_eq. by rewrite lookup_insert_eq.
Qed.

Lemma writeFileSync_lookup_ne fs p content fs' k :
  Fs.writeFileSync fs p content = Ret fs' →
  k ≠ p → k ≠ Fs.dirname p → fs' !! k = fs !! k.
Proof.
  unfold Fs.writeFileSync. intros E Hk Hd.
  destruct (fs !! p) as [[c|names]|]; [| done |].
  - simplify_eq. by rewrite lookup_insert_ne.
  - destruct (fs !! Fs.dirname p) as [[|]|]; [done| |done].
    simplify_eq. rewrite lookup_insert_ne by done. by apply link_lookup_ne.
Qed.

(** Writing a file that exists changes that file and nothing else. *)
Lemma writeFileSync_existing fs p content c :
  fs !! p = Some (Fs.File c) →
  Fs.writeFileSync fs p content = Ret (<[p := Fs.File content]> fs).
Proof. intros E. unfold Fs.writeFileSync. by rewrite E. Qed.

(** Making directories keeps every file, and every directory a
    directory. *)
Lemma mkdirp_keeps budget fs p fs' k :
  Fs.mkdirp budget fs p = Ret fs' →
  (∀ c, fs !! k = Some (Fs.File c) → fs' !! k = Some (Fs.File c))
  ∧ (∀ l, fs !! k = Some (Fs.Dir l) → ∃ l', fs' !! k = Some (Fs.Dir l')).
Proof.
  revert p fs'. induction budget as [|budget IH]; intros p fs'; simpl.
  - destruct (fs !! p) as [[c|names]|] eqn:Ep; [done| |]; intros; simplify_eq.
    + split; intros; by eauto.
    + destruct (decide (k = p)) as [->|Hk].
      * split; intros; by simplify_eq.
      * rewrite lookup_insert_ne by done. split; intros; by eauto.
  - destruct (fs !! p) as [[c|names]|] eqn:Ep; [done| |]; intros E.
    { simplify_eq. split; intros; by eauto. }
    destruct (String.eqb (Fs.dirname p) p).
    + simplify_eq. destruct (decide (k = p)) as [->|Hk].
      * split; intros; by simplify_eq.
      * rewrite lookup_insert_ne by done. split; intros; by eauto.
    + destruct (Fs.mkdirp budget fs (Fs.dirname p)) as [fs1|] eqn:E1; [|done].
      rewrite bind_Ret in E. simplify_eq.
      destruct (IH _ _ E1) as [Hf Hd].
      destruct (link_keeps (Fs.dirname p) (Fs.basename p) fs1 k)
        as (Lf & _ & Ld).
      destruct (decide (k = p)) as [->|Hk].
      * split; intros; by simplify_eq.
      * rewrite lookup_insert_ne by done. split.
        -- intros c Hc. by apply Lf, Hf.
        -- intros l Hl. destruct (Hd l Hl) as [l' Hl']. by eapply Ld.
Qed.

(** The directory asked for is there once it is made. *)
Lemma mkdirp_made budget fs p fs' :
  Fs.mkdirp budget fs p = Ret fs' → ∃ l, fs' !! p = Some (Fs.Dir l).
Proof.
  destruct budget as [|budget]; simpl.
  - destruct (fs !! p) as [[c|names]|] eqn:Ep; [done| |]; intros; simplify_eq.
    + by eauto.
    + rewrite lookup_insert_eq. by eauto.
  - destruct (fs !! p) as [[c|names]|] eqn:Ep; [done| |]; intros E.
    { simplify_eq. by eauto. }
    destruct (String.eqb (Fs.dirname p) p).
    + simplify_eq. rewrite lookup_insert_eq. by eauto.
    + destruct (Fs.mkdirp budget fs (Fs.dirname p)) as [fs1|]; [|done].
      rewrite bind_Ret in E. simplify_eq. rewrite lookup_insert_eq. by eauto.
Qed.

(** ** The tool handlers of the server *)

(** X1: a file written by [writeFile], in a directory that exists and on a
    path that is not a directory, is read back by [readFile] as it was
    written; [writeFile] reports it as new exactly when the path did not
    exist, and both report the number of lines of the content. *)
Theorem written_file_is_read_back (p content : string) (names : list string)
    (args args' : JS.object) (w : Server.world) :
  args !! "path" = Some (JS.VStr p) →
  args !! "content" = Some (JS.VStr content) →
  args' !! "path" = Some (JS.VStr p) →
  Server.fs w !! Fs.dirname p = Some (Fs.Dir names) →
  (∀ l, Server.fs w !! p ≠ Some (Fs.Dir l)) →
  ∃ message message',
    (Server.writeFile args w).1
    = Server.WriteOk p (Server.line_count content)
        (negb (Fs.existsSync (Server.fs w) p)) message
    ∧ (Server.readFile args' (Server.writeFile args w).2).1
      = Server.ReadOk content p (Server.line_count content) message'.
Proof.
  intros Hp Hc Hp' Hd Hn.
  assert (∃ fs2, Fs.writeFileSync (Server.fs w) p content = Ret fs2)
    as [fs2 E].
  { unfold Fs.writeFileSync.
    destruct (Server.fs w !! p) as [[c|l]|] eqn:Ep; [by eauto| |].
    - by destruct (Hn l).
    - rewrite Hd. by eauto. }
  assert (∃ message,
             Server.writeFile args w
             = (Server.WriteOk p (Server.line_count content)
                  (negb (Fs.existsSync (Server.fs w) p)) message,
                Server.note_modified p
                  (Server.note_lines (Server.line_count content)
                     (Server.set_fs fs2 w)))) as [message Ew].
  { unfold Server.writeFile. rewrite Hp, Hc. simpl.
    unfold Fs.existsSync at 1. rewrite Hd, E. by eexists. }
  rewrite Ew. exists message. eexists. split; [reflexivity|].
  unfold Server.readFile. rewrite Hp'. simpl.
  unfold Fs.readFileSync. rewrite (writeFileSync_lookup _ _ _ _ E).
  reflexivity.
Qed.

Lemma written_file_is_read_back_witness :
  ∃ message message',
    (Server.writeFile
       (Sample.object [("path", JS.VStr "/ws/new.txt");
                       ("content", JS.VStr "one")]) Sample.world).1
    = Server.WriteOk "/ws/new.txt" 1 true message
    ∧ (Server.readFile (Sample.object [("path", JS.VStr "/ws/new.txt")])
         (Server.writeFile
            (Sample.object [("path", JS.VStr "/ws/new.txt");
                            ("content", JS.VStr "one")]) Sample.world).2).1
      = Server.ReadOk "one" "/ws/new.txt" 1 message'.
Proof.
  apply (written_file_is_read_back "/ws/new.txt" "one"
           ["b.txt"; "node_modules"; "A"; "a.txt"; "ghost"]);
    try reflexivity.
  intros l. vm_compute. discriminate.
Defined.

Lemma mkdirSync_one_level fs d names :
  fs !! d = None → fs !! Fs.dirname d = Some (Fs.Dir names) → d ≠ "" →
  Fs.mkdirSync_recursive fs d
  = Ret (<[d := Fs.Dir []]> (Fs.link (Fs.dirname d) (Fs.basename d) fs)).
Proof.
  intros Hd Hp Hne. unfold Fs.mkdirSync_recursive.
  destruct d as [|c d]; [done|].
  change (String.length (String c d)) with (S (String.length d)).
  simpl Fs.mkdirp at 1. rewrite Hd.
  destruct (String.eqb_spec (Fs.dirname (String c d)) (String c d)) as [E|_].
  { rewrite E in Hp. congruence. }
  assert (Fs.mkdirp (String.length d) fs (Fs.dirname (String c d)) = Ret fs)
    as ->; [|done].
  destruct (String.length d); simpl; by rewrite Hp.
Qed.

Lemma dirname_nonempty p : Fs.dirname p ≠ "".
Proof.
  unfold Fs.dirname. by destruct (Fs.split_path p) as [[[|] ?]|].
Qed.

(** X2: [writeFile] makes the missing directory of its path before it looks
    at the content.  With a content that is a string the file is then
    written there and reported as new; with any other content the handler
    fails with the TypeError and writes no file, and the directory it has
    made stays, empty. *)
Theorem writeFile_makes_the_directory (p : string) (names : list string)
    (args : JS.object) (w : Server.world) :
  args !! "path" = Some (JS.VStr p) →
  Server.fs w !! p = None →
  Server.fs w !! Fs.dirname p = None →
  Server.fs w !! Fs.dirname (Fs.dirname p) = Some (Fs.Dir names) →
  match args !! "content" with
  | Some (JS.VStr content) =>
      ∃ message,
        (Server.writeFile args w).1
        = Server.WriteOk p (Server.line_count content) true message
        ∧ Server.fs (Server.writeFile args w).2 !! p = Some (Fs.File content)
        ∧ Server.fs (Server.writeFile args w).2 !! Fs.dirname p
          = Some (Fs.Dir [Fs.basename p])
  | _ =>
      (Server.writeFile args w).1 = Server.Failure Server.TypeError None
      ∧ Server.fs (Server.writeFile args w).2 !! p = None
      ∧ Server.fs (Server.writeFile args w).2 !! Fs.dirname p
        = Some (Fs.Dir [])
  end.
Proof.
  intros Hp Hf Hd Hg.
  pose proof (mkdirSync_one_level _ _ _ Hd Hg (dirname_nonempty p)) as Em.
  set (fs1 := <[Fs.dirname p := Fs.Dir []]>
                (Fs.link (Fs.dirname (Fs.dirname p))
                   (Fs.basename (Fs.dirname p)) (Server.fs w))) in *.
  assert (p ≠ Fs.dirname p) as Hne.
  { intros E. rewrite <-E in Hg. congruence. }
  assert (p ≠ Fs.dirname (Fs.dirname p)) as Hne' by congruence.
  assert (fs1 !! p = None) as Hf1.
  { subst fs1. rewrite lookup_insert_ne by done.
    by rewrite link_lookup_ne. }
  assert (fs1 !! Fs.dirname p = Some (Fs.Dir [])) as Hd1
    by (subst fs1; by rewrite lookup_insert_eq).
  assert (Server.writeFile args w
          = match Server.as_string (args !! "content") with
            | Throw m => (Server.caught m, Server.set_fs fs1 w)
            | Ret content =>
                (Server.WriteOk p (Server.line_count content) true
                   ("Created " +:+ Fs.basename p +:+ " ("
                    +:+ pretty (Server.line_count content) +:+ " lines)"),
                 Server.note_modified p
                   (Server.note_lines (Server.line_count content)
                      (Server.set_fs
                         (<[p := Fs.File content]>
                            (Fs.link (Fs.dirname p) (Fs.basename p) fs1)) w)))
            end) as Ew.
  { unfold Server.writeFile. rewrite Hp. simpl.
    unfold Fs.existsSync at 1. rewrite Hd, Em.
    destruct (Server.as_string (args !! "content")) as [content|]; [|done].
    unfold Fs.existsSync, Fs.writeFileSync. by rewrite Hf1, Hd1. }
  rewrite Ew.
  destruct (args !! "content") as [[content| |]|]; simpl;
    try (split; [done|by split]).
  eexists. split; [reflexivity|].
  split; [by rewrite lookup_insert_eq|].
  rewrite lookup_insert_ne by done.
  unfold Fs.link. rewrite Hd1. rewrite bool_decide_false by set_solver.
  by rewrite lookup_insert_eq.
Qed.

Lemma writeFile_makes_the_directory_witness :
  (Server.writeFile (Sample.object [("path", JS.VStr "/ws/sub/x.txt")])
     Sample.world).1 = Server.Failure Server.TypeError None
  ∧ Server.fs
      (Server.writeFile (Sample.object [("path", JS.VStr "/ws/sub/x.txt")])
         Sample.world).2 !! "/ws/sub/x.txt" = None
  ∧ Server.fs
      (Server.writeFile (Sample.object [("path", JS.VStr "/ws/sub/x.txt")])
         Sample.world).2 !! "/ws/sub" = Some (Fs.Dir []).
Proof.
  apply (writeFile_makes_the_directory "/ws/sub/x.txt"
           ["b.txt"; "node_modules"; "A"; "a.txt"; "ghost"]
           (Sample.object [("path", JS.VStr "/ws/sub/x.txt")]) Sample.world);
    reflexivity.
Defined.

Lemma unlinkSync_removes fs p c :
  fs !! p = Some (Fs.File c) →
  ∃ fs', Fs.unlinkSync fs p = Ret fs'
         ∧ fs' !! p = None
         ∧ ∀ k, k ≠ p → k ≠ Fs.dirname p → fs' !! k = fs !! k.
Proof.
  intros Hp. unfold Fs.unlinkSync. rewrite Hp. eexists. split; [done|].
  split.
  - apply unlink_lookup_None. by rewrite lookup_delete_eq.
  - intros k Hk Hd. rewrite unlink_lookup_ne by done.
    by rewrite lookup_delete_ne.
Qed.

Lemma rmSync_removes fs p n :
  fs !! p = Some n →
  ∃ fs', Fs.rmSync_recursive fs p = Ret fs'
         ∧ (∀ k, Fs.under p k = true → fs' !! k = None)
         ∧ ∀ k, Fs.under p k = false → k ≠ Fs.dirname p → fs' !! k = fs !! k.
Proof.
  intros Hp. unfold Fs.rmSync_recursive. rewrite Hp. eexists. split; [done|].
  split.
  - intros k Hk. apply unlink_lookup_None.
    apply map_lookup_filter_None. right. intros x _. simpl. rewrite Hk.
    by intros [].
  - intros k Hk Hd. rewrite unlink_lookup_ne by done.
    destruct (fs !! k) as [x|] eqn:E.
    + apply map_lookup_filter_Some. split; [done|]. simpl. by rewrite Hk.
    + apply map_lookup_filter_None. by left.
Qed.

(** X3: [deleteFile] on a path that exists succeeds and removes it; when
    the path is a directory, everything under it goes with it.  No other
    path is touched, but for the directory that held the path, and the
    statistics are left as they are.  The [DELETE /api/file] endpoint does
    the same to the files. *)
Theorem deleteFile_removes_the_subtree (p : string) (n : Fs.node)
    (args : JS.object) (w : Server.world) :
  args !! "path" = Some (JS.VStr p) →
  p ≠ "" →
  Server.fs w !! p = Some n →
  (Server.deleteFile args w).1
  = Server.DeleteOk ("Deleted " +:+ Fs.basename p)
  ∧ Server.fs (Server.deleteFile args w).2 !! p = None
  ∧ (∀ k names, n = Fs.Dir names → Fs.under p k = true →
       Server.fs (Server.deleteFile args w).2 !! k = None)
  ∧ (∀ k, Fs.under p k = false → k ≠ Fs.dirname p →
       Server.fs (Server.deleteFile args w).2 !! k = Server.fs w !! k)
  ∧ Server.sessionStats (Server.deleteFile args w).2 = Server.sessionStats w
  ∧ Api.delete_file (Some p) (Server.fs w)
    = (Api.json_success, Server.fs (Server.deleteFile args w).2).
Proof.
  intros Hp Hne Hn.
  assert (Fs.under p p = true) as Hpp.
  { unfold Fs.under. by rewrite String.eqb_refl. }
  assert (∃ fs',
             (isDir ← Fs.statSync_isDirectory (Server.fs w) p;
              if isDir : bool then Fs.rmSync_recursive (Server.fs w) p
              else Fs.unlinkSync (Server.fs w) p) = Ret fs'
             ∧ fs' !! p = None
             ∧ (∀ k names, n = Fs.Dir names → Fs.under p k = true →
                  fs' !! k = None)
             ∧ ∀ k, Fs.under p k = false → k ≠ Fs.dirname p →
                 fs' !! k = Server.fs w !! k) as (fs' & E & Hgone & Hsub & Hrest).
  { unfold Fs.statSync_isDirectory. rewrite Hn. destruct n as [c|names].
    - destruct (unlinkSync_removes _ _ _ Hn) as (fs' & E & Hg & Hr).
      exists fs'. rewrite bind_Ret. split; [done|]. split; [done|].
      split; [done|]. intros k Hk Hd. apply Hr; [|done].
      intros ->. congruence.
    - destruct (rmSync_removes _ _ _ Hn) as (fs' & E & Hg & Hr).
      exists fs'. rewrite bind_Ret. split; [done|]. split; [by apply Hg|].
      split; [|done]. intros k names' _ Hk. by apply Hg. }
  assert (Server.deleteFile args w
          = (Server.DeleteOk ("Deleted " +:+ Fs.basename p),
             Server.set_fs fs' w)) as Ew.
  { unfold Server.deleteFile. rewrite Hp. simpl Server.as_string.
    rewrite bind_Ret.
    revert E. unfold Fs.statSync_isDirectory. rewrite Hn.
    destruct n; rewrite !bind_Ret; intros ->; by rewrite bind_Ret. }
  rewrite Ew. simpl. repeat split; try done.
  unfold Api.delete_file, Api.given.
  destruct (String.eqb_spec p "") as [|_]; [done|]. by rewrite E.
Qed.

Lemma deleteFile_removes_the_subtree_witness :
  (Server.deleteFile (Sample.object [("path", JS.VStr "/ws/node_modules")])
     Sample.world).1 = Server.DeleteOk "Deleted node_modules"
  ∧ Server.fs
      (Server.deleteFile
         (Sample.object [("path", JS.VStr "/ws/node_modules")])
         Sample.world).2 !! "/ws/node_modules" = None.
Proof.
  pose proof (deleteFile_removes_the_subtree "/ws/node_modules"
                (Fs.Dir ["x.js"])
                (Sample.object [("path", JS.VStr "/ws/node_modules")])
                Sample.world) as Hd.
  destruct Hd as (E & Hg & _); [reflexivity|discriminate|reflexivity|].
  split; [exact E|exact Hg].
Defined.

(** X4: [editFile] changes at most the file it is given: every other path
    keeps what it had, and no path is made or removed, whatever the
    arguments and however the handler ends. *)
Theorem editFile_touches_one_file (args : JS.object) (w : Server.world)
    (k : string) :
  (args !! "path" = Some (JS.VStr k)
   ∨ Server.fs (Server.editFile args w).2 !! k = Server.fs w !! k)
  ∧ Fs.existsSync (Server.fs (Server.editFile args w).2) k
    = Fs.existsSync (Server.fs w) k.
Proof.
  assert (Server.editFile args w = ((Server.editFile args w).1, w)
          ∨ ∃ p c content,
              args !! "path" = Some (JS.VStr p)
              ∧ Server.fs w !! p = Some (Fs.File c)
              ∧ Server.fs (Server.editFile args w).2
                = <[p := Fs.File content]> (Server.fs w)) as [E|E].
  { unfold Server.editFile.
    destruct (args !! "path") as [[p| |]|]; simpl; try by left.
    destruct (negb (Fs.existsSync (Server.fs w) p)); [by left|].
    unfold Fs.readFileSync.
    destruct (Server.fs w !! p) as [[c|names]|] eqn:Ep; try by left.
    destruct (negb (JS.includes c _)); [by left|].
    rewrite (writeFileSync_existing _ _ _ _ Ep).
    right. exists p, c. eexists. split; [done|]. split; [done|].
    destruct (Server.as_string (args !! "newText")); [|done].
    by destruct (Server.as_string (args !! "oldText")). }
  - rewrite E. simpl. split; [by right|done].
  - destruct E as (p & c & content & Hp & Hc & ->).
    destruct (decide (k = p)) as [->|Hk].
    + split; [by left|]. unfold Fs.existsSync.
      by rewrite lookup_insert_eq, Hc.
    + unfold Fs.existsSync. rewrite lookup_insert_ne by done.
      split; [by right|done].
Qed.

(** ** The chat endpoint and the files *)

Section reading_chat.

Context `{Platform} `{Server.Surroundings}.

Lemma readFile_keeps_files args w :
  Server.fs (Server.readFile args w).2 = Server.fs w.
Proof.
  unfold Server.readFile.
  by destruct (_ ≫= _) as [[filePath content]|].
Qed.

Lemma listFiles_keeps_world args w : (Server.listFiles args w).2 = w.
Proof.
  unfold Server.listFiles.
  by destruct (_ ≫= _) as [[dirPath files]|].
Qed.

Lemma searchInFiles_keeps_world args w : (Server.searchInFiles args w).2 = w.
Proof.
  unfold Server.searchInFiles.
  by destruct (_ ≫= _) as [results|].
Qed.

Lemma handler_keeps_files toolName handler args w :
  Server.toolHandlers Server.WORKSPACE_DIR toolName = Some handler →
  Notion.changes_files toolName = false →
  Server.fs (handler args w).2 = Server.fs w.
Proof.
  unfold Server.toolHandlers, Notion.changes_files.
  destruct (String.eqb toolName "readFile");
    [intros; simplify_eq; apply readFile_keeps_files|].
  destruct (String.eqb toolName "writeFile"); [done|].
  destruct (String.eqb toolName "editFile"); [done|].
  destruct (String.eqb toolName "deleteFile"); [done|].
  destruct (String.eqb toolName "listFiles");
    [intros; simplify_eq; by rewrite listFiles_keeps_world|].
  destruct (String.eqb toolName "searchInFiles");
    [intros; simplify_eq; by rewrite searchInFiles_keeps_world|].
  destruct (String.eqb toolName "runCommand"); [|done].
  by intros; simplify_eq.
Qed.

Lemma execute_calls_keeps_files calls c :
  Forall (λ tc, Notion.changes_files (Server.name tc) = false) calls →
  Server.fs (Server.the_world (Server.execute_calls calls c).1)
  = Server.fs (Server.the_world c).
Proof.
  intros Hc. revert c. induction Hc as [|tc rest Hn _ IH]; intros c; [done|].
  rewrite execute_calls_cons.
  destruct (Server.parse_arguments tc) as [args|]; [|done].
  destruct (String.eqb (Server.name tc) "runCommand"); [done|].
  destruct (Server.handler_of _ _) as [call|] eqn:Eh; [|apply IH].
  destruct (handler_of_spec _ _ Eh) as [(handler & Ht & ->)|(_ & f & _ & ->)].
  - pose proof (handler_keeps_files _ _ args (Server.the_world c) Ht Hn) as Hk.
    by rewrite IH.
  - destruct (f args) as [r|m]; [by rewrite IH|done].
Qed.

Lemma turn_keeps_files loopCount c :
  Forall (λ tc, Notion.changes_files (Server.name tc) = false)
    (Server.validCalls
       (Spec.gather
          (Server.chunks
             (Server.completions_create loopCount (Server.chatMessages c))))) →
  Server.fs (Server.the_world (Server.turn loopCount c).1)
  = Server.fs (Server.the_world c).
Proof.
  intros Hv. unfold Server.turn.
  set (c0 := Server.emit _ c).
  change (Server.chatMessages c0) with (Server.chatMessages c).
  destruct (consume_spec
              (Server.chunks (Server.completions_create loopCount
                                (Server.chatMessages c))) "" [] c0)
    as (r & c1 & -> & _ & _ & Hw).
  fold (Spec.gather (Server.chunks
    (Server.completions_create loopCount (Server.chatMessages c)))).
  assert (Server.the_world c1 = Server.the_world c) as Hw1 by by rewrite Hw.
  destruct (Server.failure _); [simpl; by rewrite Hw1|].
  set (c2 := if JS.nonempty (Some r) then _ else c1).
  assert (Server.the_world c2 = Server.the_world c) as Hw2
    by (subst c2; by destruct (JS.nonempty (Some r))).
  destruct (0 <? length (Spec.gather _)); [|simpl; by rewrite Hw2].
  destruct (0 <? length (Server.validCalls _)); [|simpl; by rewrite Hw2].
  destruct (Server.call_infos _) as [infos|]; [|by simpl; rewrite Hw2].
  set (c3 := Server.emit _ (Server.push _ c2)).
  pose proof (execute_calls_keeps_files _ c3 Hv) as Hk.
  destruct (Server.execute_calls _ c3) as [c4 [| |m]]; simpl in *;
    rewrite Hk; subst c3; simpl; by rewrite Hw2.
Qed.

Lemma loop_keeps_files budget loopCount c :
  (∀ n messages,
     Forall (λ tc, Notion.changes_files (Server.name tc) = false)
       (Server.validCalls
          (Spec.gather (Server.chunks (Server.completions_create n messages))))) →
  Server.fs (Server.the_world (Server.loop budget loopCount c).1)
  = Server.fs (Server.the_world c).
Proof.
  intros Hm. revert loopCount c.
  induction budget as [|budget IH]; intros loopCount c; [done|].
  simpl. pose proof (turn_keeps_files (S loopCount) c (Hm _ _)) as Hk.
  destruct (Server.turn (S loopCount) c) as [c1 [[|]|m]]; simpl in *;
    try done.
  by rewrite IH.
Qed.

End reading_chat.

(** X5: a chat request in which the model calls none of [writeFile],
    [editFile] and [deleteFile] leaves every file as it was, whatever else
    the model calls and however the request ends. *)
Theorem chat_without_writes_keeps_the_files `{Platform} `{Server.Surroundings}
    (req : Server.chat_request) (files : Fs.t) :
  (∀ n messages,
     Forall (λ tc, Notion.changes_files (Server.name tc) = false)
       (Server.validCalls
          (Spec.gather (Server.chunks (Server.completions_create n messages))))) →
  Server.fs (Server.the_world (Server.agent_chat req files)) = files.
Proof.
  intros Hm. unfold Server.agent_chat.
  set (c := {| Server.the_world := _ |}).
  pose proof (loop_keeps_files Server.maxLoops 0 c Hm) as Hk.
  by destruct (Server.loop Server.maxLoops 0 c) as [c1 [m|]].
Qed.

Lemma chat_without_writes_keeps_the_files_witness :
  Server.fs
    (Server.the_world
       (@Server.agent_chat Sample.platform
          (Sample.server (Sample.one_call "call_1" "readFile"
                            (Sample.object_text [("path", "/ws/a.txt")])))
          (Sample.request "read it") Sample.workspace))
  = Sample.workspace.
Proof.
  apply (@chat_without_writes_keeps_the_files Sample.platform
           (Sample.server (Sample.one_call "call_1" "readFile"
                             (Sample.object_text [("path", "/ws/a.txt")])))).
  intros n messages. vm_compute. by repeat constructor.
Defined.

(** ** Searching the files *)

Lemma units_of_le c : JS.units_of c ≤ 2.
Proof.
  unfold JS.units_of.
  repeat match goal with |- context [if ?b then _ else _] => destruct b end;
    lia.
Qed.

Lemma units_of_continuation c : JS.continuation c = true → JS.units_of c = 0.
Proof.
  unfold JS.continuation, JS.units_of.
  intros [Hl Hu]%andb_prop. apply N.leb_le in Hl.
  destruct (N.ltb_spec (N_of_ascii c) 128); [lia|]. by rewrite Hu.
Qed.

Lemma units_of_continuing (m : N) :
  (128 ≤ m < 192)%N → JS.units_of (ascii_of_N m) = 0.
Proof.
  intros Hm. apply units_of_continuation. unfold JS.continuation.
  rewrite N_ascii_embedding by lia.
  apply andb_true_intro. split; [apply N.leb_le|apply N.ltb_lt]; lia.
Qed.

(** A high surrogate is one code unit. *)
Lemma length_high_surrogate a b c : JS.length (JS.high_surrogate a b c) = 1.
Proof.
  unfold JS.high_surrogate. cbv zeta.
  set (w := (_ - 64)%N).
  assert (w < 2048)%N as Hw.
  { subst w.
    pose proof (N.mod_upper_bound (N_of_ascii a) 8 ltac:(lia)).
    pose proof (N.mod_upper_bound (N_of_ascii b) 64 ltac:(lia)).
    pose proof (N.mod_upper_bound (N_of_ascii c) 64 ltac:(lia)).
    assert (N_of_ascii c mod 64 / 16 < 4)%N
      by (apply N.Div0.div_lt_upper_bound; lia).
    lia. }
  assert (w / 64 < 32)%N by (apply N.Div0.div_lt_upper_bound; lia).
  pose proof (N.mod_upper_bound w 64 ltac:(lia)).
  cbn [JS.length]. revert H H0.
  generalize (w / 64)%N (w mod 64)%N. intros q r Hq Hr.
  rewrite (units_of_continuing (160 + q)), (units_of_continuing (128 + r))
    by lia.
  reflexivity.
Qed.

(** [substring(0, n)] has at most [n] code units. *)
Lemma length_substring0 n s : JS.length (JS.substring0 n s) ≤ n.
Proof.
  revert n. induction s as [|a r IH]; intros n; [simpl; lia|].
  cbn [JS.substring0].
  destruct (JS.continuation a) eqn:Ec.
  { cbn [JS.length]. rewrite (units_of_continuation _ Ec). apply IH. }
  destruct n as [|n]; [simpl; lia|].
  destruct (Nat.eqb_spec (JS.units_of a) 2) as [E2|E2].
  - destruct n as [|n].
    + destruct r as [|b [|c r']]; [simpl; lia..|].
      by rewrite length_high_surrogate.
    + cbn [JS.length]. specialize (IH n). lia.
  - cbn [JS.length]. specialize (IH n). pose proof (units_of_le a). lia.
Qed.

(** White space that is not of one byte is stripped, and the code units
    are counted, not the bytes: a no-break space, then three letters of two
    bytes each, then a line separator. *)
Example trim_and_cut :
  let nbsp := String "194" (String "160" "") in
  let ls := String "226" (String "128" (String "168" "")) in
  let e := String "195" (String "169" "") in
  JS.trim (nbsp +:+ e +:+ e +:+ e +:+ ls) = e +:+ e +:+ e
  ∧ JS.length (e +:+ e +:+ e) = 3
  ∧ JS.substring0 2 (e +:+ e +:+ e) = e +:+ e.
Proof. repeat split; vm_compute; reflexivity. Qed.

Section searching.

Context (fs : Fs.t) (query : string).

(** What the results of a search keep: they are no more than [maxResults]
    and each of them holds. *)
Let kept (results : list Server.hit) : Prop :=
  length results ≤ Server.maxResults
  ∧ Forall (Notion.sound_hit fs query) results.

Lemma scan_lines_kept fullPath content idx lines results :
  fs !! fullPath = Some (Fs.File content) →
  (∀ i line, lines !! i = Some line →
     JS.split_lines content !! (idx + i) = Some line) →
  kept results →
  kept (Server.scan_lines fullPath query idx lines results).
Proof.
  intros Hf. revert idx results.
  induction lines as [|line rest IH]; intros idx results Hl Hk; [done|].
  simpl. apply IH.
  - intros i l Hi. replace (S idx + i) with (idx + S i) by lia. by apply Hl.
  - destruct (JS.includes line query) eqn:Ei; [|done].
    destruct (Nat.ltb_spec (length results) Server.maxResults) as [Hlt|];
      [|done].
    cbn [andb]. destruct Hk as [Hn Hs]. split.
    + rewrite length_app. simpl. lia.
    + apply Forall_app. split; [done|]. constructor; [|done].
      exists content, line. simpl. split; [done|]. split; [lia|].
      split; [|done].
      replace (idx + 1 - 1) with (idx + 0) by lia. by apply Hl.
Qed.

Lemma searchDir_S depth filePattern dir results :
  Server.searchDir (S depth) fs query filePattern dir results
  = (if Server.maxResults <=? length results then Ret results
     else
       items ← Fs.readdirSync fs dir;
       Ret (foldl (λ results item,
              if Server.maxResults <=? length results then results
              else if Server.search_ignored item then results
              else
                let fullPath := Fs.join dir item in
                match Fs.statSync_isDirectory fs fullPath with
                | Throw _ => results
                | Ret true =>
                    match Server.searchDir depth fs query filePattern fullPath
                            results with
                    | Ret results' => results'
                    | Throw _ => results
                    end
                | Ret false =>
                    if negb (JS.truthy filePattern)
                       || JS.endsWith item (JS.ToString filePattern)
                    then
                      match Fs.readFileSync fs fullPath with
                      | Ret content =>
                          Server.scan_lines fullPath query 0
                            (JS.split_lines content) results
                      | Throw _ => results
                      end
                    else results
                end) results items)).
Proof. reflexivity. Qed.

Lemma searchDir_kept depth filePattern dir results results' :
  Server.searchDir depth fs query filePattern dir results = Ret results' →
  kept results → kept results'.
Proof.
  revert dir results results'.
  induction depth as [|depth IH]; intros dir results results'.
  { simpl. by intros; simplify_eq. }
  rewrite searchDir_S.
  destruct (Server.maxResults <=? length results); [by intros; simplify_eq|].
  destruct (Fs.readdirSync fs dir) as [items|]; [|done].
  rewrite bind_Ret. intros [= <-] Hk.
  revert results Hk. induction items as [|item items IHi]; intros results Hk;
    [done|].
  change (foldl ?f ?a (item :: items)) with (foldl f (f a item) items).
  apply IHi. cbv beta zeta.
  match goal with |- _ (if ?b then _ else _) => destruct b end; [done|].
  destruct (Server.search_ignored item); [done|].
  destruct (Fs.statSync_isDirectory fs (Fs.join dir item)) as [[|]|]; [| |done].
  - destruct (Server.searchDir depth fs query filePattern _ results)
      as [r|] eqn:E; [|done].
    by eapply IH.
  - destruct (_ || _); [|done].
    unfold Fs.readFileSync.
    destruct (fs !! Fs.join dir item) as [[content|]|] eqn:Ef; try done.
    eapply scan_lines_kept; [exact Ef| |done].
    by intros i line Hi.
Qed.

End searching.

(** X6: [searchInFiles] returns at most 20 matches, and counts them; every
    match names a file of the workspace and a line of it, numbered from 1,
    that includes the query, with the line trimmed and cut at 100 code
    units as its content. *)
Theorem searchInFiles_matches (args : JS.object) (w : Server.world)
    (results : list Server.hit) (count : nat) (message : string) :
  (Server.searchInFiles args w).1 = Server.SearchOk results count message →
  count = length results
  ∧ length results ≤ 20
  ∧ Forall (Notion.sound_hit (Server.fs w) (JS.ToString (args !! "query")))
      results
  ∧ Forall (λ h, JS.length (Server.hit_content h) ≤ 100) results.
Proof.
  unfold Server.searchInFiles.
  destruct (Server.as_string (args !! "directory")) as [directory|]; [|done].
  rewrite bind_Ret.
  destruct (Server.searchDir _ _ _ _ _ _) as [rs|] eqn:E; [|done].
  cbn [fst]. intros [= <- <- <-].
  destruct (searchDir_kept _ _ _ _ _ _ _ E) as [Hn Hs].
  { split; [simpl; unfold Server.maxResults; lia|constructor]. }
  split; [done|]. split; [exact Hn|]. split; [exact Hs|].
  eapply Forall_impl; [exact Hs|].
  intros h (content & line & _ & _ & _ & _ & ->). apply length_substring0.
Qed.

Lemma searchInFiles_matches_witness :
  ∃ results message,
    (Server.searchInFiles
       (Sample.object [("directory", JS.VStr "/ws"); ("query", JS.VStr "5")])
       Sample.world).1 = Server.SearchOk results 1 message
    ∧ Forall (Notion.sound_hit Sample.workspace "5") results.
Proof.
  eexists _, _. split; [vm_compute; reflexivity|].
  eapply (searchInFiles_matches
            (Sample.object [("directory", JS.VStr "/ws");
                            ("query", JS.VStr "5")]) Sample.world).
  vm_compute. reflexivity.
Defined.

(** ** The layout of a listing *)

Section layout.

Context `{Platform}.



End layout.



(** ** The tool calls a stream accumulates *)

Lemma array_get_set {A} (a : list (option A)) i j x :
  JS.array_get (JS.array_set a i x) j
  = if decide (i = j) then Some x else JS.array_get a j.
Proof.
  unfold JS.array_get. revert a j.
  induction i as [|i IH]; intros a j.
  - destruct a as [|h a], j as [|j]; simpl; try done.
  - destruct a as [|h a], j as [|j]; simpl; try done.
    + rewrite IH. repeat case_decide; try done; lia.
    + rewrite IH. repeat case_decide; try done; lia.
Qed.

Section accumulating.

(** What a fragment makes of the call accumulated so far at its index. *)
Let merged (cur : option Server.tool_call) (tc : Server.tool_call_delta)
    : Server.tool_call :=
  let cur := default {| Server.id := ""; Server.name := "";
                        Server.arguments := "" |} cur in
  {| Server.id := Notion.last_id (Server.id cur) [tc];
     Server.name := Server.name cur +:+ default "" (Server.delta_name tc);
     Server.arguments :=
       Server.arguments cur +:+ default "" (Server.delta_arguments tc) |}.

Lemma accumulate_get a tc i :
  JS.array_get (Server.accumulate a tc) i
  = if decide (Server.index tc = i) then Some (merged (JS.array_get a i) tc)
    else JS.array_get a i.
Proof.
  unfold Server.accumulate. rewrite array_get_set.
  case_decide as Hi; [|done]. subst i. f_equal. unfold merged.
  destruct (default _ (JS.array_get a (Server.index tc))) as [i n g].
  unfold Notion.last_id. simpl.
  destruct tc as [idx [di|] [dn|] [da|]]; simpl;
    rewrite ?string_app_nil_r; try done;
    by destruct (negb (String.eqb di "")).
Qed.

Lemma accumulated_get tcs a i :
  JS.array_get (foldl Server.accumulate a tcs) i
  = foldl (λ cur tc, Some (merged cur tc)) (JS.array_get a i)
      (Notion.fragments_at i tcs).
Proof.
  revert a. induction tcs as [|tc tcs IH]; intros a; [done|].
  simpl. rewrite IH, accumulate_get. unfold Notion.fragments_at.
  rewrite filter_cons. by case_decide.
Qed.

Lemma merged_all c tcs :
  foldl (λ cur tc, Some (merged cur tc)) (Some c) tcs
  = Some {| Server.id := Notion.last_id (Server.id c) tcs;
            Server.name := Server.name c +:+ Notion.joined Server.delta_name tcs;
            Server.arguments :=
              Server.arguments c
              +:+ Notion.joined Server.delta_arguments tcs |}.
Proof.
  revert c. induction tcs as [|tc tcs IH]; intros c.
  - simpl. rewrite !string_app_nil_r. by destruct c.
  - simpl. rewrite IH. unfold merged. simpl.
    by rewrite !string_app_assoc.
Qed.

Lemma gather_deltas chunks a :
  foldl Spec.gather_chunk a chunks
  = foldl Server.accumulate a (Notion.deltas chunks).
Proof.
  revert a. induction chunks as [|chunk chunks IH]; intros a; [done|].
  unfold Notion.deltas. rewrite bind_cons, foldl_app. simpl. rewrite IH.
  f_equal. destruct chunk as [d|]; [|done]. simpl.
  by destruct (Server.tool_calls d).
Qed.

(** The call accumulated at an index, from the fragments of the stream
    written for that index. *)
Lemma gathered_at chunks i :
  JS.array_get (Spec.gather chunks) i
  = match Notion.fragments_at i (Notion.deltas chunks) with
    | [] => None
    | frags =>
        Some {| Server.id := Notion.last_id "" frags;
                Server.name := Notion.joined Server.delta_name frags;
                Server.arguments :=
                  Notion.joined Server.delta_arguments frags |}
    end.
Proof.
  unfold Spec.gather. rewrite gather_deltas, accumulated_get.
  destruct (Notion.fragments_at i (Notion.deltas chunks)) as [|tc frags];
    [done|].
  change (JS.array_get [] i) with (@None Server.tool_call) at 1.
  { simpl. rewrite merged_all. unfold merged. simpl.
    by rewrite !string_app_nil_l. }
Qed.

End accumulating.

(** X8: the tool call the server has accumulated at an index when the
    stream of the model ends has as name and as arguments the texts of the
    fragments written for that index, in the order they came, and as id the
    last id among them that is not empty; an index no fragment was written
    for holds nothing. *)
Theorem accumulated_call_joins_its_fragments (chunks : list (option Server.delta))
    (c : Server.chat) (i : nat) :
  JS.array_get (Server.consume chunks "" [] c).1.2 i
  = match Notion.fragments_at i (Notion.deltas chunks) with
    | [] => None
    | frags =>
        Some {| Server.id := Notion.last_id "" frags;
                Server.name := Notion.joined Server.delta_name frags;
                Server.arguments :=
                  Notion.joined Server.delta_arguments frags |}
    end.
Proof.
  assert (∀ chunks fullReply toolCalls c,
             (Server.consume chunks fullReply toolCalls c).1.2
             = foldl Spec.gather_chunk toolCalls chunks) as Hc.
  { clear. intros chunks.
    induction chunks as [|[d|] rest IH]; intros fullReply toolCalls c;
      [done| |apply IH].
    simpl.
    destruct (match Server.content d with Some _ => _ | None => _ end)
      as [r1 c1].
    apply IH. }
  rewrite Hc. apply gathered_at.
Qed.

Lemma array_set_map {A B} (f : A → B) (a : list (option A)) i x :
  (λ o : option A, f <$> o) <$> JS.array_set a i x
  = JS.array_set ((λ o : option A, f <$> o) <$> a) i (f x).
Proof.
  revert a. induction i as [|i IH]; intros [|h a]; simpl; try done.
  - f_equal. apply (IH []).
  - f_equal. apply IH.
Qed.

Lemma array_get_map {A B} (f : A → B) (a : list (option A)) i :
  JS.array_get ((λ o : option A, f <$> o) <$> a) i = f <$> JS.array_get a i.
Proof.
  unfold JS.array_get. rewrite list_lookup_fmap.
  by destruct (a !! i) as [[x|]|].
Qed.

(** The call the extension's decoder writes at the index of a fragment. *)
Lemma apply_tool_delta_calls a st tc :
  (Extension.apply_tool_delta (a, st) tc).1
  = JS.array_set a (Server.index tc)
      (let cur :=
         default {| Extension.id := Server.delta_id tc; Extension.name := "";
                    Extension.arguments := "" |}
           (JS.array_get a (Server.index tc)) in
       {| Extension.id := if JS.nonempty (Server.delta_id tc)
                          then Server.delta_id tc else Extension.id cur;
          Extension.name :=
            Extension.name cur +:+ default "" (Server.delta_name tc);
          Extension.arguments :=
            Extension.arguments cur
            +:+ default "" (Server.delta_arguments tc) |}).
Proof.
  unfold Extension.apply_tool_delta. cbv zeta.
  destruct (default _ (JS.array_get a (Server.index tc))) as [i n g].
  destruct tc as [idx di dn da]. cbn [Server.index Server.delta_id
    Server.delta_name Server.delta_arguments Extension.id Extension.name
    Extension.arguments].
  destruct (JS.nonempty di), dn as [dn|], da as [da|];
    cbn [default Extension.id Extension.name Extension.arguments];
    rewrite ?string_app_nil_r; try reflexivity;
    unfold JS.nonempty; destruct (String.eqb_spec dn "") as [->|_];
    cbn [negb fst Extension.id Extension.name Extension.arguments];
    rewrite ?string_app_nil_r; reflexivity.
Qed.

(** X9: the decoder of the extension accumulates the fragments of tool
    calls as the server does: after any fragments, from any calls, both hold
    the same names and arguments at the same indexes, and the same ids once
    an id the extension has not been given is read as empty. *)
Theorem extension_accumulates_as_the_server (tcs : list Server.tool_call_delta)
    (a : list (option Extension.tool_call)) (st : Extension.state) :
  Notion.calls_as_server (foldl Extension.apply_tool_delta (a, st) tcs).1
  = foldl Server.accumulate (Notion.calls_as_server a) tcs.
Proof.
  revert a st. induction tcs as [|tc tcs IH]; intros a st; [done|].
  change (foldl ?f ?x (tc :: tcs)) with (foldl f (f x tc) tcs).
  pose proof (apply_tool_delta_calls a st tc) as E.
  destruct (Extension.apply_tool_delta (a, st) tc) as [a1 st1].
  cbn [fst] in E. rewrite IH, E. f_equal.
  unfold Notion.calls_as_server. rewrite array_set_map.
  unfold Server.accumulate. rewrite array_get_map. f_equal.
  destruct tc as [idx di dn da].
  cbn [Server.index Server.delta_id Server.delta_name Server.delta_arguments].
  destruct (JS.array_get a idx) as [[i n g]|]; cbn [fmap option_fmap option_map
    default Notion.as_server Extension.id Extension.name Extension.arguments
    Server.id Server.name Server.arguments].
  - destruct di as [di|], dn as [dn|], da as [da|];
      cbn [JS.nonempty default]; rewrite ?string_app_nil_r;
      try reflexivity; by destruct (negb (String.eqb di "")).
  - destruct di as [di|], dn as [dn|], da as [da|];
      cbn [JS.nonempty default]; rewrite ?string_app_nil_r, ?string_app_nil_l;
      try reflexivity;
      destruct (String.eqb_spec di "") as [->|_]; reflexivity.
Qed.

(** ** The answers to a batch of the server *)



(** A batch that names [toString], then [valueOf], then a tool: the first
    is answered by the tag of [undefined], the second throws, and the tool
    is not reached. *)
Example inherited_names_in_a_batch :
  let batch :=
    @Server.execute_calls Sample.platform
      (Sample.server (Sample.one_call "c" "readFile" "{}"))
      [{| Server.id := "call_1"; Server.name := "toString";
          Server.arguments := "{}" |};
       {| Server.id := "call_2"; Server.name := "valueOf";
          Server.arguments := "{}" |};
       {| Server.id := "call_3"; Server.name := "readFile";
          Server.arguments := Sample.object_text [("path", "/ws/a.txt")] |}]
      Sample.chat in
  batch.2 = Server.thrown Server.TypeError
  ∧ Server.chatMessages batch.1
    = [Server.tool_message "call_1"
         (Server.Returned_string "[object Undefined]")]
  ∧ Server.trace batch.1
    = [Server.Write (Server.step_event "toString" None None)].
Proof. repeat split; vm_compute; reflexivity. Qed.

(** ** The messages sent to the model *)

Section requests.

Context `{Platform} `{Server.Surroundings}.

Lemma requests_app t1 t2 :
  Notion.requests (t1 ++ t2) = Notion.requests t1 ++ Notion.requests t2.
Proof. apply omap_app. Qed.

Lemma requests_of_writes es :
  forallb Spec.is_write es = true → Notion.requests es = [].
Proof.
  induction es as [|[] es IH]; simpl; done.
Qed.

Lemma turn_requests loopCount c :
  Notion.requests (Server.trace (Server.turn loopCount c).1)
  = Notion.requests (Server.trace c) ++ [(loopCount, Server.chatMessages c)].
Proof.
  destruct (turn_trace loopCount c) as (es & -> & He).
  rewrite requests_app. f_equal.
  change (Notion.requests (Server.Request loopCount (Server.chatMessages c) :: es))
    with ((loopCount, Server.chatMessages c) :: Notion.requests es).
  by rewrite requests_of_writes.
Qed.

Lemma execute_calls_messages calls c :
  Server.chatMessages c
  `prefix_of` Server.chatMessages (Server.execute_calls calls c).1.
Proof.
  destruct (execute_calls_run calls c)
    as (done & rest & rs & es & lv & _ & _ & -> & _).
  by eexists.
Qed.

Lemma turn_messages loopCount c :
  Server.chatMessages c
  `prefix_of` Server.chatMessages (Server.turn loopCount c).1.
Proof.
  unfold Server.turn.
  set (c0 := Server.emit _ c).
  destruct (consume_spec
              (Server.chunks (Server.completions_create loopCount
                                (Server.chatMessages c0))) "" [] c0)
    as (r & c1 & -> & _ & Hm & _).
  assert (Server.chatMessages c `prefix_of` Server.chatMessages c1) as H1
    by by rewrite Hm.
  destruct (Server.failure _); [done|].
  set (c2 := if JS.nonempty (Some r) then _ else c1).
  assert (Server.chatMessages c `prefix_of` Server.chatMessages c2) as H2.
  { subst c2. destruct (JS.nonempty (Some r)); [|done].
    etrans; [exact H1|]. by eexists. }
  destruct (0 <? length _); [|done].
  destruct (0 <? length (Server.validCalls _)); [|done].
  set (c3 := Server.push _ c2).
  assert (Server.chatMessages c `prefix_of` Server.chatMessages c3) as H3.
  { etrans; [exact H2|]. by eexists. }
  destruct (Server.call_infos _) as [infos|]; [|done].
  set (c4 := Server.emit _ c3).
  pose proof (execute_calls_messages
                (Server.validCalls
                   (foldl Spec.gather_chunk []
                      (Server.chunks
                         (Server.completions_create loopCount
                            (Server.chatMessages c0))))) c4) as H4.
  destruct (Server.execute_calls _ c4) as [c5 [| |m]]; simpl in *;
    by etrans.
Qed.

Lemma loop_requests budget loopCount c :
  ∃ rs,
    Notion.requests (Server.trace (Server.loop budget loopCount c).1)
    = Notion.requests (Server.trace c) ++ rs
    ∧ (∀ k n m, rs !! k = Some (n, m) →
         n = S (loopCount + k) ∧ Server.chatMessages c `prefix_of` m)
    ∧ ∀ k n m n' m', rs !! k = Some (n, m) → rs !! S k = Some (n', m') →
        m `prefix_of` m'.
Proof.
  revert loopCount c. induction budget as [|budget IH]; intros loopCount c.
  { exists []. rewrite app_nil_r. by repeat split. }
  simpl.
  pose proof (turn_requests (S loopCount) c) as Hq.
  pose proof (turn_messages (S loopCount) c) as Hm.
  assert (∃ rs : list (nat * list Server.message),
             rs = [(S loopCount, Server.chatMessages c)]
             ∧ (∀ k n m, rs !! k = Some (n, m) →
                  n = S (loopCount + k) ∧ Server.chatMessages c `prefix_of` m)
             ∧ ∀ k n m n' m', rs !! k = Some (n, m) →
                 rs !! S k = Some (n', m') → m `prefix_of` m')
    as (r1 & -> & Hone & Htwo).
  { eexists. split; [done|]. split.
    - intros [|k] n m Hk; simplify_eq/=. split; [f_equal; lia|done].
    - intros [|k] n m n' m' Hk Hk'; simplify_eq/=. }
  destruct (Server.turn (S loopCount) c) as [c1 [[|]|m]]; simpl in *;
    try (eexists; split; [exact Hq|by split]).
  destruct (IH (S loopCount) c1) as (rs & E & Hn & Hp).
  exists ((S loopCount, Server.chatMessages c) :: rs).
  rewrite E, Hq, <-(assoc_L (++)). split; [done|]. split.
  - intros [|k] n m Hk; simplify_eq/=.
    + split; [f_equal; lia|done].
    + destruct (Hn k n m Hk) as [-> Hpre]. split; [lia|by etrans].
  - intros [|k] n m n' m' Hk Hk'; simplify_eq/=.
    + destruct (Hn 0 n' m' Hk') as [_ Hpre]. by etrans.
    + by eapply Hp.
Qed.

End requests.

(** X11: the requests of a chat to the model are numbered from 1 on.  The
    first carries the system prompt, the last ten messages of the history
    given, at most, and the message of the user; every later one carries
    the messages of the one before it, followed by what the turn between
    them added: no message is dropped or changed on the way. *)
Theorem requests_carry_a_growing_conversation `{Platform}
    `{Server.Surroundings} (req : Server.chat_request) (files : Fs.t) :
  let sent := Notion.requests (Server.trace (Server.agent_chat req files)) in
  sent !! 0
  = Some (1, [Server.system_message (Server.getSystemPrompt files req)]
             ++ Server.last10 (Server.req_history req)
             ++ [Server.user_message (Server.req_message req)])
  ∧ length (Server.last10 (Server.req_history req)) ≤ 10
  ∧ Server.last10 (Server.req_history req) `suffix_of` Server.req_history req
  ∧ (∀ k n m, sent !! k = Some (n, m) → n = S k)
  ∧ ∀ k n m n' m', sent !! k = Some (n, m) → sent !! S k = Some (n', m') →
      m `prefix_of` m'.
Proof.
  intros sent. subst sent. unfold Server.agent_chat.
  set (c := {| Server.the_world := _ |}).
  destruct (loop_requests Server.maxLoops 0 c) as (rs & E & Hn & Hp).
  assert (Notion.requests
            (Server.trace
               match Server.loop Server.maxLoops 0 c with
               | (c0, None) =>
                   Server.emit Server.End
                     (Server.emit
                        (Server.Write
                           (Server.done_event
                              (Server.linesWritten
                                 (Server.sessionStats (Server.the_world c0)))
                              (length
                                 (elements
                                    (Server.filesModified
                                       (Server.sessionStats
                                          (Server.the_world c0)))))
                              (length
                                 (elements
                                    (Server.filesRead
                                       (Server.sessionStats
                                          (Server.the_world c0)))))
                              (Server.toolCalls
                                 (Server.sessionStats (Server.the_world c0)))))
                        c0)
               | (c0, Some m) =>
                   Server.emit Server.End
                     (Server.emit (Server.Write (Server.error_event m)) c0)
               end) = rs) as ->.
  { destruct (Server.loop Server.maxLoops 0 c) as [c1 [m|]]; simpl in *;
      rewrite !requests_app, E; simpl; by rewrite !app_nil_r. }
  assert (rs !! 0 = Some (1, Server.chatMessages c)) as Hfirst.
  { revert E. unfold Server.maxLoops.
    change (Server.loop 15 0 c)
      with (match Server.turn 1 c with
            | (c, Ret true) => (c, None)
            | (c, Ret false) => Server.loop 14 1 c
            | (c, Throw m) => (c, Some m)
            end).
    pose proof (turn_requests 1 c) as Hq.
    destruct (Server.turn 1 c) as [c1 [[|]|m]]; cbn [fst] in *.
    - rewrite Hq. by intros <-%(inj (app _)).
    - destruct (loop_requests 14 1 c1) as (rs' & -> & _).
      rewrite Hq, <-(assoc_L (++)). by intros <-%(inj (app _)).
    - rewrite Hq. by intros <-%(inj (app _)). }
  split; [exact Hfirst|]. split.
  { unfold Server.last10. rewrite length_drop. lia. }
  split; [apply suffix_drop|].
  split; [|exact Hp].
  intros k n m Hk. by destruct (Hn k n m Hk) as [-> _].
Qed.

(** ** The file endpoints *)

Lemma existsSync_true fs p : Fs.existsSync fs p = true ↔ is_Some (fs !! p).
Proof.
  unfold Fs.existsSync. destruct (fs !! p); split; try done; by intros [? ?].
Qed.

Lemma writeFileSync_new fs p content names :
  fs !! p = None → fs !! Fs.dirname p = Some (Fs.Dir names) →
  Fs.writeFileSync fs p content
  = Ret (<[p := Fs.File content]> (Fs.link (Fs.dirname p) (Fs.basename p) fs)).
Proof. intros Hp Hd. unfold Fs.writeFileSync. by rewrite Hp, Hd. Qed.

(** What the directory of a path is after the handler has seen to it. *)
Lemma directory_seen_to fs dir fs1 :
  (if Fs.existsSync fs dir then Ret fs else Fs.mkdirSync_recursive fs dir)
  = Ret fs1 →
  (∀ k c, fs !! k = Some (Fs.File c) → fs1 !! k = Some (Fs.File c))
  ∧ Fs.existsSync fs1 dir = true
  ∧ (fs1 = fs ∨ ∃ l, fs1 !! dir = Some (Fs.Dir l)).
Proof.
  destruct (Fs.existsSync fs dir) eqn:Ex.
  - intros [= <-]. split; [done|]. split; [done|by left].
  - unfold Fs.mkdirSync_recursive. intros Em.
    destruct (mkdirp_made _ _ _ _ Em) as [l Hl].
    split; [|split].
    + intros k c Hk. by apply (mkdirp_keeps _ _ _ _ k Em).
    + unfold Fs.existsSync. by rewrite Hl.
    + right. by eauto.
Qed.

(** X12: [POST /api/file/create] never changes the content of a file that
    exists, whatever it is asked to create and however it ends; when it
    answers with an error the files are as they were; and once it has
    succeeded, the same request again succeeds and changes nothing. *)
Theorem create_keeps_what_exists (path type : option string) (fs : Fs.t) :
  (∀ k c, fs !! k = Some (Fs.File c) →
     (Api.post_create path type fs).2 !! k = Some (Fs.File c))
  ∧ ((Api.post_create path type fs).1 ≠ Api.json_success →
     (Api.post_create path type fs).2 = fs)
  ∧ ((Api.post_create path type fs).1 = Api.json_success →
     Api.post_create path type (Api.post_create path type fs).2
     = (Api.json_success, (Api.post_create path type fs).2)).
Proof.
  destruct (Api.post_create path type fs) as [r fs'] eqn:E. cbn [fst snd].
  revert E. unfold Api.post_create.
  destruct (Api.given path) as [p|]; [|by intros [= <- <-]].
  case_bool_decide as Ht.
  - (* a folder *)
    destruct (Fs.existsSync fs p) eqn:Ex.
    { intros [= <- <-]. rewrite Ex. by repeat split. }
    unfold Fs.mkdirSync_recursive.
    destruct (Fs.mkdirp _ fs p) as [fs1|] eqn:Em; intros [= <- <-];
      [|by repeat split].
    split; [|split; [done|]].
    + intros k c Hk. by apply (mkdirp_keeps _ _ _ _ k Em).
    + intros _. destruct (mkdirp_made _ _ _ _ Em) as [l Hl].
      unfold Fs.existsSync. by rewrite Hl.
  - (* a file *)
    cbv zeta.
    destruct (if Fs.existsSync fs (Fs.dirname p) then Ret fs
              else Fs.mkdirSync_recursive fs (Fs.dirname p))
      as [fs1|m] eqn:Ed; [|by intros [= <- <-]].
    destruct (directory_seen_to _ _ _ Ed) as (Hkeep & Hdir & Hmade).
    destruct (Fs.existsSync fs1 p) eqn:Ex.
    { intros [= <- <-]. rewrite Hdir, Ex. by repeat split. }
    assert (fs1 !! p = None) as Hp.
    { unfold Fs.existsSync in Ex. by destruct (fs1 !! p). }
    destruct (fs1 !! Fs.dirname p) as [[c|l]|] eqn:El.
    + (* the directory of the path is a file *)
      unfold Fs.writeFileSync. rewrite Hp, El. intros [= <- <-].
      destruct Hmade as [->|[l Hl]]; [|congruence]. by repeat split.
    + rewrite (writeFileSync_new _ _ _ _ Hp El). intros [= <- <-].
      assert (p ≠ Fs.dirname p) as Hne by (intros Heq; congruence).
      split; [|split; [done|]].
      * intros k c Hk. apply Hkeep in Hk.
        rewrite lookup_insert_ne by congruence.
        by apply (link_keeps (Fs.dirname p) (Fs.basename p) fs1 k).
      * intros _.
        destruct (link_keeps (Fs.dirname p) (Fs.basename p) fs1
                    (Fs.dirname p)) as (_ & _ & Ld).
        destruct (Ld l El) as [l' Hl'].
        unfold Fs.existsSync.
        rewrite (lookup_insert_ne _ p (Fs.dirname p)) by done.
        by rewrite Hl', lookup_insert_eq.
    + unfold Fs.existsSync in Hdir. by rewrite El in Hdir.
Qed.

(** X13: [POST /api/save] succeeds exactly when its path is a file, or is
    free in a directory that exists: unlike [writeFile] it makes no
    directory.  After a success [POST /api/file] on the same path answers
    with the content saved; after an error the files are as they were. *)
Theorem save_then_read (path : option string) (p content : string)
    (fs : Fs.t) :
  Api.given path = Some p →
  ((Api.post_save path content fs).1 = Api.json_success
   ↔ (∃ c, fs !! p = Some (Fs.File c))
     ∨ (fs !! p = None ∧ ∃ l, fs !! Fs.dirname p = Some (Fs.Dir l)))
  ∧ ((Api.post_save path content fs).1 = Api.json_success →
     Api.post_file path (Api.post_save path content fs).2
     = Api.json_content content)
  ∧ ((Api.post_save path content fs).1 ≠ Api.json_success →
     (Api.post_save path content fs).2 = fs).
Proof.
  intros Hp. unfold Api.post_save, Api.post_file. rewrite Hp.
  destruct (Fs.writeFileSync fs p content) as [fs'|m] eqn:E; cbn [fst snd].
  - pose proof (writeFileSync_lookup _ _ _ _ E) as Hl.
    split; [|split; [|done]].
    + split; [intros _|done]. revert E. unfold Fs.writeFileSync.
      destruct (fs !! p) as [[c|l]|]; [by eauto|done|].
      destruct (fs !! Fs.dirname p) as [[c|l]|]; [done| |done].
      right. by eauto.
    + intros _. unfold Fs.readFileSync. by rewrite Hl.
  - split; [|split; [done|done]].
    split; [done|]. revert E. unfold Fs.writeFileSync.
    intros E [[c Hc]|[Hn [l Hl]]].
    + by rewrite Hc in E.
    + by rewrite Hn, Hl in E.
Qed.

Lemma save_then_read_witness :
  Api.post_file (Some "/ws/a.txt")
    (Api.post_save (Some "/ws/a.txt") "new text" Sample.workspace).2
  = Api.json_content "new text".
Proof.
  apply (save_then_read (Some "/ws/a.txt") "/ws/a.txt" "new text"
           Sample.workspace); reflexivity.
Defined.




(** ** From the response of the server to the events of the client *)

Lemma cut_one_line l rest :
  Notion.one_line l = true →
  Spec.cut (l +:+ Extension.nl +:+ rest)
  = (l :: (Spec.cut rest).1, (Spec.cut rest).2).
Proof.
  induction l as [|c l IH]; intros Hl.
  - rewrite string_app_nil_l. unfold Extension.nl.
    rewrite string_app_cons, string_app_nil_l. simpl.
    by destruct (Spec.cut rest).
  - simpl in Hl. apply andb_prop in Hl as [Hc Hl].
    rewrite string_app_cons. simpl. rewrite (IH Hl).
    apply negb_true_iff in Hc. by rewrite Hc.
Qed.

Section wire.

Context {stringify : Server.event → string}
        {parse : string → option Server.event}.

Lemma deliver_frames evs :
  Forall (λ ev, parse (stringify ev) = Some ev
                ∧ Notion.one_line (stringify ev) = true) evs →
  Client.deliver parse
    (Spec.complete_lines (foldr (λ ev s, Wire.frame stringify ev +:+ s) "" evs))
  = evs.
Proof.
  unfold Spec.complete_lines.
  induction 1 as [|ev evs [Hp Hl] _ IH]; [done|].
  change (foldr ?f ?a (ev :: evs)) with (f ev (foldr f a evs)). cbv beta.
  set (rest := foldr _ _ evs) in *.
  assert (Wire.frame stringify ev +:+ rest
          = ("data: " +:+ stringify ev) +:+ Extension.nl
            +:+ ("" +:+ Extension.nl +:+ rest)) as ->.
  { unfold Wire.frame. by rewrite !string_app_assoc, string_app_nil_l. }
  rewrite (cut_one_line ("data: " +:+ stringify ev)) by exact Hl.
  cbn [fst]. rewrite (cut_one_line "") by done. cbn [fst].
  change (Client.deliver parse (?a :: ?b :: ?l))
    with (match (if JS.startsWith a "data: " then parse (JS.slice 6 a) else None)
          with Some e => e :: Client.deliver parse l
          | None => Client.deliver parse l end).
  change (JS.startsWith ("data: " +:+ stringify ev) "data: ") with true.
  change (JS.slice 6 ("data: " +:+ stringify ev)) with (stringify ev).
  rewrite Hp. by rewrite IH.
Qed.

End wire.

(** X15: the events the client hands to its handler are the events the
    server wrote on the response, in the order they were written, however
    the text of the response is cut into chunks on its way, given that
    every event written reads back from its serialisation and that the
    serialisation holds no line break. *)
Theorem client_receives_what_the_server_wrote
    (stringify : Server.event → string) (parse : string → option Server.event)
    (trace : list Server.effect) (chunks : list string) :
  Forall (λ ev, parse (stringify ev) = Some ev
                ∧ Notion.one_line (stringify ev) = true)
    (Wire.written trace) →
  Spec.whole chunks = Wire.response_text stringify trace →
  Client.streamAgent parse chunks = Wire.written trace.
Proof.
  intros Hev Hw. rewrite streamAgent_whole, Hw.
  by apply deliver_frames.
Qed.

Lemma client_receives_what_the_server_wrote_witness :
  Client.streamAgent Fixture.read_event
    ["data: {" +:+ JS.dquote +:+ "err"; "or" +:+ JS.dquote +:+ "}"
     +:+ Extension.nl; Extension.nl]
  = [Server.error_event Server.SyntaxError].
Proof.
  apply (client_receives_what_the_server_wrote Fixture.show_event
           Fixture.read_event
           (Server.trace
              (@Server.agent_chat Sample.platform
                 (Sample.server (Sample.one_call "call_1" "readFile" "{bad"))
                 (Sample.request "read it") Sample.workspace))).
  - vm_compute. by repeat constructor.
  - vm_compute. reflexivity.
Defined.

(** ** The conversations kept *)

Lemma map_set_cons {V} k (v : V) k' v' m :
  Extension.map_set k v ((k', v') :: m)
  = if String.eqb k' k then (k', v) :: m
    else (k', v') :: Extension.map_set k v m.
Proof. reflexivity. Qed.

Lemma map_set_keys {V} k (v : V) m :
  (Extension.map_set k v m).*1
  = if bool_decide (k ∈ m.*1) then m.*1 else m.*1 ++ [k].
Proof.
  induction m as [|[k' v'] m IH]; [done|].
  rewrite map_set_cons.
  destruct (String.eqb_spec k' k) as [->|Hne].
  - rewrite !fmap_cons. cbn [fst].
    rewrite bool_decide_true by set_solver. done.
  - rewrite !fmap_cons, IH. cbn [fst]. case_bool_decide as Hin.
    + rewrite bool_decide_true by set_solver. done.
    + rewrite bool_decide_false; [done|]. set_solver.
Qed.

Lemma map_set_elem {V} k (v : V) m kv :
  kv ∈ Extension.map_set k v m → kv = (k, v) ∨ kv ∈ m.
Proof.
  induction m as [|[k' v'] m IH]; simpl.
  - intros ->%list_elem_of_singleton. by left.
  - destruct (String.eqb_spec k' k) as [->|Hne].
    + intros [->|Hin]%elem_of_cons; [by left|right; set_solver].
    + intros [->|Hin]%elem_of_cons; [right; set_solver|].
      destruct (IH Hin) as [->|?]; [by left|right; set_solver].
Qed.

Lemma map_set_fresh {V} k (v : V) m :
  k ∉ m.*1 → Extension.map_set k v m = m ++ [(k, v)].
Proof.
  induction m as [|[k' v'] m IH]; simpl; [done|].
  intros Hk. destruct (String.eqb_spec k' k) as [->|Hne]; [set_solver|].
  rewrite IH; [done|set_solver].
Qed.

Section unique.

Let table (acc : list (string * Archive.conversation))
    (history : list Archive.conversation) :=
  foldl (λ m item, Extension.map_set (Archive.conv_id item) item m) acc history.

Lemma table_keys acc history :
  NoDup acc.*1 → NoDup (table acc history).*1.
Proof.
  revert acc. induction history as [|h history IH]; intros acc Ha; [done|].
  apply IH. rewrite map_set_keys. case_bool_decide as Hin; [done|].
  apply NoDup_app. split; [done|]. split; [set_solver|]. apply NoDup_singleton.
Qed.

Lemma table_items acc history kv :
  kv ∈ table acc history → kv ∈ acc ∨ (kv.2 ∈ history ∧ kv.1 = Archive.conv_id kv.2).
Proof.
  revert acc. induction history as [|h history IH]; intros acc; [by left|].
  intros Hin. apply IH in Hin as [Hin|[Hin Hk]].
  - apply map_set_elem in Hin as [->|Hin]; [|by left].
    right. split; [set_solver|done].
  - right. split; [set_solver|done].
Qed.

Lemma table_fresh acc history :
  NoDup (Archive.conv_id <$> history) →
  (∀ h, h ∈ history → Archive.conv_id h ∉ acc.*1) →
  table acc history = acc ++ ((λ h, (Archive.conv_id h, h)) <$> history).
Proof.
  revert acc. induction history as [|h history IH]; intros acc Hn Hd.
  - by rewrite app_nil_r.
  - apply NoDup_cons in Hn as [Hh Hn]. simpl.
    rewrite map_set_fresh by (apply Hd; set_solver).
    rewrite IH; [by rewrite <-(assoc_L (++))|done|].
    intros h' Hin. rewrite fmap_app. simpl.
    intros [Hk|Hk%list_elem_of_singleton]%elem_of_app.
    + by apply (Hd h'); [set_solver|].
    + apply Hh. rewrite <-Hk. by apply list_elem_of_fmap_2.
Qed.

(** What [unique] returns: entries of the history, no id twice; a history
    without an id twice as it is. *)
Lemma unique_spec history :
  NoDup (Archive.conv_id <$> Archive.unique history)
  ∧ (∀ h, h ∈ Archive.unique history → h ∈ history)
  ∧ (NoDup (Archive.conv_id <$> history) → Archive.unique history = history).
Proof.
  unfold Archive.unique. fold (table [] history).
  assert (∀ kv, kv ∈ table [] history →
            kv.2 ∈ history ∧ kv.1 = Archive.conv_id kv.2) as Hitems.
  { intros kv [Hin|Hin]%table_items; [by apply elem_of_nil in Hin|done]. }
  split; [|split].
  - assert ((Archive.conv_id <$> (table [] history).*2)
            = (table [] history).*1) as ->.
    { rewrite <-list_fmap_compose. apply Forall_fmap_ext_1, Forall_forall.
      intros kv Hin. simpl. by destruct (Hitems kv Hin) as [_ ->]. }
    apply table_keys. constructor.
  - intros h (kv & -> & Hin)%list_elem_of_fmap. by apply Hitems.
  - intros Hn. rewrite table_fresh; [|done|set_solver]. simpl.
    rewrite <-list_fmap_compose. by rewrite list_fmap_id.
Qed.

End unique.

(** X16: after [_saveToHistory], whatever was kept before, the history
    kept holds at most 50 conversations and no id twice, and every
    conversation in it was there before or is the one just saved. *)
Theorem saved_history_is_bounded `{Archive.Clock} (firstMessage : string)
    (transcript : list Extension.message) (st : Archive.state) :
  let st' := Archive._saveToHistory firstMessage transcript st in
  length (Archive.stored st') ≤ 50
  ∧ NoDup (Archive.conv_id <$> Archive.stored st')
  ∧ ∀ h, h ∈ Archive.stored st' →
      Archive.conv_id h ∈ (Archive.conv_id <$> Archive.stored st)
      ∨ Some (Archive.conv_id h) = Archive.activeConversationId st'.
Proof.
  intros st'. subst st'. unfold Archive._saveToHistory. cbv zeta.
  set (clean := List.filter Archive.kept transcript).
  destruct (match Archive.activeConversationId st with
            | Some _ => _ | None => _ end) as [[id history] st1] eqn:E.
  unfold Archive.saveConversation.
  cbn [Archive.stored Archive.act Archive.store].
  assert (∀ h, h ∈ history →
            Archive.conv_id h ∈ (Archive.conv_id <$> Archive.stored st)
            ∨ Some (Archive.conv_id h) = Archive.activeConversationId st1)
    as Hfrom.
  { destruct (Archive.activeConversationId st) as [a|] eqn:Ea.
    - destruct (JS.nonempty (Some a)).
      + destruct (Archive.findIndex a (Archive.stored st)) as [index|].
        * simplify_eq/=. unfold Archive.renewed.
          destruct (Archive.stored st !! index) as [h0|] eqn:E0.
          -- intros h [->|Hin]%elem_of_cons.
             ++ left. simpl.
                eapply list_elem_of_fmap_2';
                  [by eapply list_elem_of_lookup_2|done].
             ++ left. apply list_elem_of_fmap_2.
                apply elem_of_app in Hin as [Hin|Hin].
                ** by eapply subseteq_take.
                ** by eapply subseteq_drop.
          -- intros h Hin. left. by apply list_elem_of_fmap_2.
        * simplify_eq/=. intros h Hin. left. by apply list_elem_of_fmap_2.
      + simplify_eq/=. intros h [->|Hin]%elem_of_cons; [by right|].
        left. by apply list_elem_of_fmap_2.
    - simplify_eq/=. intros h [->|Hin]%elem_of_cons; [by right|].
      left. by apply list_elem_of_fmap_2. }
  destruct (unique_spec history) as (Hn & Hsub & _).
  split; [rewrite length_take; lia|]. split.
  - rewrite fmap_take. eapply sublist_NoDup; [|apply sublist_take]. done.
  - intros h Hin%subseteq_take. by apply Hfrom, Hsub.
Qed.

Lemma findIndex_Some id history :
  id ∈ (Archive.conv_id <$> history) →
  ∃ index h, Archive.findIndex id history = Some index
             ∧ history !! index = Some h ∧ Archive.conv_id h = id.
Proof.
  induction history as [|h history IH]; [by intros ?%elem_of_nil|].
  simpl. destruct (String.eqb_spec (Archive.conv_id h) id) as [E|Hne].
  - intros _. by exists 0, h.
  - intros [?|Hin]%elem_of_cons; [done|].
    destruct (IH Hin) as (index & h' & -> & Hl & Hi).
    by exists (S index), h'.
Qed.

Lemma findIndex_None id history :
  id ∉ (Archive.conv_id <$> history) → Archive.findIndex id history = None.
Proof.
  induction history as [|h history IH]; [done|].
  rewrite fmap_cons, not_elem_of_cons. intros [Hne Hin]. simpl.
  destruct (String.eqb_spec (Archive.conv_id h) id) as [E|_]; [done|].
  by rewrite IH.
Qed.

Lemma find_None id history :
  id ∉ (Archive.conv_id <$> history) → Archive.find id history = None.
Proof.
  induction history as [|h history IH]; [done|].
  rewrite fmap_cons, not_elem_of_cons. intros [Hne Hin].
  unfold Archive.find in *. simpl.
  destruct (String.eqb_spec (Archive.conv_id h) id) as [E|_]; [done|].
  by apply IH.
Qed.

(** X17: a conversation saved by [_saveToHistory] is the first of the
    history kept and is loaded again by [_loadChat] under its id, with the
    user's messages and the assistant's texts of the transcript given.
    This holds when no id is twice in the history and the conversation is
    either the open one and in the history, or a new one whose id, read
    off the clock, is not taken. *)
Theorem saved_conversation_is_loaded `{Archive.Clock} (firstMessage : string)
    (transcript : list Extension.message) (st : Archive.state) :
  NoDup (Archive.conv_id <$> Archive.stored st) →
  (∃ a, Archive.activeConversationId st = Some a ∧ a ≠ ""
        ∧ a ∈ (Archive.conv_id <$> Archive.stored st))
  ∨ ((Archive.activeConversationId st = None
      ∨ Archive.activeConversationId st = Some "")
     ∧ pretty (Archive.Date_now (Archive.readings st))
       ∉ (Archive.conv_id <$> Archive.stored st)) →
  let st' := Archive._saveToHistory firstMessage transcript st in
  ∃ id h,
    Archive.activeConversationId st' = Some id
    ∧ head (Archive.stored st') = Some h
    ∧ Archive.conv_id h = id
    ∧ Archive.transcript h = List.filter Archive.kept transcript
    ∧ Archive.currentTranscript (Archive._loadChat id st')
      = List.filter Archive.kept transcript.
Proof.
  intros Hn Hc st'. subst st'.
  set (clean := List.filter Archive.kept transcript).
  assert (∃ id h rest st1,
             Archive._saveToHistory firstMessage transcript st
             = Archive.saveConversation id clean
                 (Archive.store (take 50 (h :: rest)) st1)
             ∧ Archive.activeConversationId st1 = Some id
             ∧ Archive.conv_id h = id
             ∧ Archive.transcript h = clean)
    as (id & h & rest & st1 & -> & Ha & Hi & Ht).
  { unfold Archive._saveToHistory. cbv zeta. fold clean.
    destruct Hc as [(a & Ea & Hne & Hin)|[Ea Hfresh]].
    - rewrite Ea.
      assert (JS.nonempty (Some a) = true) as ->.
      { simpl. by destruct (String.eqb_spec a ""). }
      destruct (findIndex_Some _ _ Hin) as (index & h0 & -> & Hl & Hi).
      unfold Archive.renewed. rewrite Hl.
      set (h := {| Archive.conv_id := _ |}).
      assert (Archive.unique (h :: take index (Archive.stored st)
                                ++ drop (S index) (Archive.stored st))
              = h :: take index (Archive.stored st)
                  ++ drop (S index) (Archive.stored st)) as ->.
      { apply unique_spec. rewrite fmap_cons.
        change (Archive.conv_id h) with (Archive.conv_id h0).
        rewrite <-fmap_cons.
        assert (h0 :: take index (Archive.stored st)
                  ++ drop (S index) (Archive.stored st)
                ≡ₚ Archive.stored st) as ->; [|done].
        rewrite Permutation_middle.
        by rewrite (take_drop_middle _ _ _ Hl). }
      eexists a, h, _, _. split; [reflexivity|]. by repeat split.
    - set (id := pretty (Archive.Date_now (Archive.readings st))) in *.
      set (h := {| Archive.conv_id := id;
                   Archive.title := Archive.title_of firstMessage;
                   Archive.timestamp :=
                     Archive.Date_now (S (Archive.readings st));
                   Archive.transcript := clean |}).
      assert (Archive.unique (h :: Archive.stored st)
              = h :: Archive.stored st) as Hu.
      { apply unique_spec. rewrite fmap_cons. by constructor. }
      destruct Ea as [->| ->]; simpl; fold id; fold h; rewrite Hu;
        eexists id, h, _, _; (split; [reflexivity|]); by repeat split. }
  unfold Archive.saveConversation.
  cbn [Archive.stored Archive.act Archive.store Archive.activeConversationId].
  exists id, h. split; [done|]. split; [done|]. split; [done|].
  split; [done|].
  unfold Archive._loadChat, Archive.find.
  cbn [Archive.stored Archive.act Archive.store take List.find].
  rewrite Hi, String.eqb_refl. simpl. exact Ht.
Qed.

Lemma saved_conversation_is_loaded_witness :
  ∃ id h,
    Archive.activeConversationId
      (Archive._saveToHistory "hello"
         [Extension.user_message "hello";
          Extension.assistant_message "" None] Fixture.archive) = Some id
    ∧ head (Archive.stored
              (Archive._saveToHistory "hello"
                 [Extension.user_message "hello";
                  Extension.assistant_message "" None] Fixture.archive))
      = Some h
    ∧ Archive.conv_id h = id
    ∧ Archive.transcript h = [Extension.user_message "hello"]
    ∧ Archive.currentTranscript
        (Archive._loadChat id
           (Archive._saveToHistory "hello"
              [Extension.user_message "hello";
               Extension.assistant_message "" None] Fixture.archive))
      = [Extension.user_message "hello"].
Proof.
  apply (@saved_conversation_is_loaded Fixture.clock "hello"
           [Extension.user_message "hello";
            Extension.assistant_message "" None] Fixture.archive).
  - vm_compute. repeat constructor. by intros ?%elem_of_nil.
  - right. split; [by left|]. vm_compute.
    intros [?|?%elem_of_nil]%elem_of_cons; done.
Defined.

(** X18: [_deleteChat] removes every conversation of the id from the
    history kept, and leaves the open conversation open.  When the one
    deleted is the open one, a later [_saveToHistory] sends it to the cloud
    store again but does not put it back into the history kept: the id is
    looked for there, not found, and nothing is added. *)
Theorem deleted_open_conversation_is_not_kept `{Archive.Clock} (id : string)
    (firstMessage : string) (transcript : list Extension.message)
    (st : Archive.state) :
  Archive.activeConversationId st = Some id →
  id ≠ "" →
  let deleted := Archive._deleteChat id st in
  let saved := Archive._saveToHistory firstMessage transcript deleted in
  Archive.find id (Archive.stored deleted) = None
  ∧ Archive.activeConversationId deleted = Some id
  ∧ Archive.find id (Archive.stored saved) = None
  ∧ Archive.stored saved
    = take 50 (Archive.unique (Archive.stored deleted))
  ∧ Archive.actions saved
    = Archive.actions deleted
      ++ [Archive.firebase_save id (List.filter Archive.kept transcript)].
Proof.
  intros Ha Hne deleted saved.
  assert (id ∉ (Archive.conv_id <$> Archive.stored deleted)) as Hgone.
  { subst deleted. simpl.
    intros (h & Hi & Hin%list_elem_of_filter)%list_elem_of_fmap.
    by destruct Hin as [Hin _]. }
  assert (Archive.activeConversationId deleted = Some id) as Ha' by done.
  assert (saved
          = Archive.saveConversation id (List.filter Archive.kept transcript)
              (Archive.store (take 50 (Archive.unique (Archive.stored deleted)))
                 deleted)) as ->.
  { subst saved. unfold Archive._saveToHistory. cbv zeta. rewrite Ha'.
    assert (JS.nonempty (Some id) = true) as ->.
    { simpl. by destruct (String.eqb_spec id ""). }
    by rewrite (findIndex_None _ _ Hgone). }
  split; [by apply find_None|]. split; [done|].
  split; [|by split].
  apply find_None. cbn [Archive.stored Archive.act Archive.store].
  intros (h & Hi & Hin%subseteq_take)%list_elem_of_fmap.
  apply unique_spec in Hin. apply Hgone. rewrite Hi.
  by apply list_elem_of_fmap_2.
Qed.

Lemma deleted_open_conversation_is_not_kept_witness :
  Archive.find "1600000000000"
    (Archive.stored
       (Archive._saveToHistory "again" [Extension.user_message "again"]
          (Archive._deleteChat "1600000000000"
             (Archive._loadChat "1600000000000" Fixture.archive)))) = None.
Proof.
  apply (@deleted_open_conversation_is_not_kept Fixture.clock
           "1600000000000" "again" [Extension.user_message "again"]
           (Archive._loadChat "1600000000000" Fixture.archive));
    [reflexivity|discriminate].
Defined.

(** ** Reading a range of lines *)

Lemma join_split_lines s : Extension.join_lines (JS.split_lines s) = s.
Proof.
  induction s as [|c s IH]; [done|]. simpl.
  pose proof (split_lines_nonempty s) as Hne.
  destruct (JS.split_lines s) as [|h t]; [done|].
  destruct (Ascii.eqb_spec c JS.newline) as [->|_].
  - change (Extension.join_lines ("" :: h :: t))
      with ("" +:+ String JS.newline (Extension.join_lines (h :: t))).
    by rewrite IH.
  - destruct t as [|h' t]; simpl in *; by rewrite <-IH.
Qed.

(** X19: [read_file] with a range returns the lines from the first to the
    last of the range, both included and counted from 1, joined by line
    breaks; the range of all the lines gives the file as it is, and so does
    a request for the entire file, whatever range comes with it. *)
Theorem read_file_range (st : Extension.state) (fpath : option JS.value)
    (uri content : string) (a b : Z) :
  Extension.target st fpath = Ret uri →
  Extension.files st !! uri = Some (Fs.File content) →
  (1 ≤ a)%Z → (a ≤ b)%Z → (b ≤ Z.of_nat (Server.line_count content))%Z →
  (Extension._readFile fpath (Some (JS.VBool false)) (Some (JS.VNum a))
     (Some (JS.VNum b)) st).1
  = Ret (Extension.content_result
           (Extension.join_lines
              (take (Z.to_nat (b - a + 1))
                 (drop (Z.to_nat (a - 1)) (JS.split_lines content)))))
  ∧ (Extension._readFile fpath (Some (JS.VBool false)) (Some (JS.VNum 1))
       (Some (JS.VNum (Z.of_nat (Server.line_count content)))) st).1
    = Ret (Extension.content_result content)
  ∧ ∀ start endl,
      (Extension._readFile fpath (Some (JS.VBool true)) start endl st).1
      = Ret (Extension.content_result content).
Proof.
  intros Ht Hf Ha Hab Hb.
  assert (∀ x y, (1 ≤ x)%Z → (x ≤ y)%Z →
            (y ≤ Z.of_nat (Server.line_count content))%Z →
            (Extension._readFile fpath (Some (JS.VBool false))
               (Some (JS.VNum x)) (Some (JS.VNum y)) st).1
            = Ret (Extension.content_result
                     (Extension.join_lines
                        (take (Z.to_nat (y - x + 1))
                           (drop (Z.to_nat (x - 1))
                              (JS.split_lines content)))))) as Hrange.
  { intros x y Hx Hxy Hy. unfold Extension._readFile. cbn [fst].
    rewrite Ht, bind_Ret. unfold Fs.readFileSync. rewrite Hf, bind_Ret.
    cbn [JS.truthy negb andb]. rewrite bool_decide_true by eauto.
    cbn [orb Extension.number]. unfold Extension.or_number.
    destruct (Z.eqb_spec x 0) as [|_]; [lia|].
    destruct (Z.eqb_spec y 0) as [|_]; [lia|].
    unfold Extension.list_slice. unfold Server.line_count in Hy.
    destruct (Z.ltb_spec (x - 1) 0) as [|_]; [lia|].
    destruct (Z.ltb_spec y 0) as [|_]; [lia|].
    rewrite !Z.min_l by lia.
    by replace (y - (x - 1))%Z with (y - x + 1)%Z by lia. }
  split; [by apply Hrange|]. split.
  - pose proof (split_lines_nonempty content) as Hne.
    assert (1 ≤ Z.of_nat (Server.line_count content))%Z as Hone.
    { unfold Server.line_count. destruct (JS.split_lines content); [done|].
      simpl. lia. }
    rewrite Hrange by lia.
    replace (Z.of_nat (Server.line_count content) - 1 + 1)%Z
      with (Z.of_nat (Server.line_count content)) by lia.
    rewrite Nat2Z.id. change (Z.to_nat (1 - 1)) with 0. rewrite drop_0.
    unfold Server.line_count. rewrite firstn_all.
    by rewrite join_split_lines.
  - intros start endl. unfold Extension._readFile. cbn [fst].
    rewrite Ht, bind_Ret. unfold Fs.readFileSync. by rewrite Hf, bind_Ret.
Qed.

Lemma read_file_range_witness :
  (Extension._readFile (Some (JS.VStr "b.txt")) (Some (JS.VBool false))
     (Some (JS.VNum 1)) (Some (JS.VNum 1))
     (Sample.editor Extension.secure)).1
  = Ret (Extension.content_result "beta").
Proof.
  apply (read_file_range (Sample.editor Extension.secure)
           (Some (JS.VStr "b.txt")) "/ws/b.txt" "beta" 1 1);
    try reflexivity; vm_compute; discriminate.
Defined.

(** ** The answers to a batch of the extension *)

Lemma results_settled tasks rs :
  Extension.results tasks = Some rs →
  tasks = Extension.settled <$> rs.
Proof.
  revert rs. induction tasks as [|[m|tc cmd a] tasks IH]; intros rs; simpl.
  - by intros [= <-].
  - destruct (Extension.results tasks) as [rs'|]; [|done].
    intros [= <-]. by rewrite (IH rs').
  - done.
Qed.

(** X20: the extension launches every call of a batch and keeps one task
    for each, in the order of the calls: the tool message of the call,
    under its id and name, or the wait of a command for its approval.  So
    when the batch has all its results they answer the calls one by one,
    in order: a call whose arguments do not parse and a call to a tool that
    is not known are answered too, by their error. *)
Theorem extension_batch_is_answered_in_order `{Platform} `{Extension.Host}
    (slot : nat) (calls : list Extension.tool_call) (st : Extension.state) :
  Forall2 (λ tc t,
             (∃ r, t = Extension.settled
                         (Extension.tool_message (Extension.id tc)
                            (Extension.name tc) r))
             ∨ ∃ command approvalId,
                 t = Extension.awaiting tc command approvalId)
    calls (Extension.launch slot calls st).1
  ∧ ∀ rs, Extension.results (Extension.launch slot calls st).1 = Some rs →
      Forall2 (λ tc m, ∃ r, m = Extension.tool_message (Extension.id tc)
                                  (Extension.name tc) r) calls rs.
Proof.
  assert (Forall2 (λ tc t,
             (∃ r, t = Extension.settled
                         (Extension.tool_message (Extension.id tc)
                            (Extension.name tc) r))
             ∨ ∃ command approvalId,
                 t = Extension.awaiting tc command approvalId)
            calls (Extension.launch slot calls st).1) as Hall.
  { revert slot st. induction calls as [|tc calls IH]; intros slot st;
      [constructor|].
    rewrite launch_cons. cbn [fst]. constructor; [|apply IH].
    unfold Extension.launch_one.
    destruct (JSON_parse _) as [args|]; [|left; by eexists].
    destruct (String.eqb _ "run_terminal_cmd").
    - destruct (Extension._runTerminalCommand_begin _ _ _) as [[r|a] st1].
      + left. by eexists.
      + right. by eexists _, _.
    - destruct (Extension.dispatch _ _ _) as [r st1]. left. by eexists. }
  split; [exact Hall|]. intros rs Hrs.
  apply results_settled in Hrs. rewrite Hrs in Hall. clear Hrs.
  revert calls Hall. induction rs as [|m rs IH]; intros calls Hall.
  - apply Forall2_nil_inv_r in Hall as ->. constructor.
  - apply Forall2_cons_inv_r in Hall as (tc & calls' & Ht & Hall & ->).
    constructor; [|by apply IH].
    destruct Ht as [[r [= ->]]|(? & ? & [=])]. by eexists.
Qed.

(** ** An answer in text after a tool has failed *)

Section text_answers.

Context `{Platform} `{Extension.Host}.

Lemma hadError_app h1 h2 :
  Extension.hadError (h1 ++ h2)
  = Extension.hadError h1 || Extension.hadError h2.
Proof. unfold Extension.hadError. apply existsb_app. Qed.

(** One round on an answer in text: the request, the reading, the message
    of the assistant, and the test the loop makes on the transcript. *)
Lemma run_on_text budget loopCount st :
  (∀ n history, Notion.answers_in_text (Extension.fetch n history)) →
  ∃ st2 es content,
    Extension.run (S budget) loopCount st
    = (if Extension.hadError (Extension.history st) && (S loopCount <? 10)
       then Extension.run budget (S loopCount)
              (Extension.push
                 [Extension.system_message Extension.tool_warning] st2)
       else Extension.finished
              (Extension.emit (Extension.Post Extension.done) st2))
    ∧ Extension.trace st2
      = Extension.trace st
        ++ Extension.Fetch (S loopCount) (Extension.history st) :: es
    ∧ Spec.count Spec.is_fetch es = 0
    ∧ Extension.history st2
      = Extension.history st ++ [Extension.assistant_message content None].
Proof.
  intros Hm. rewrite run_S. cbv zeta.
  destruct (Hm (S loopCount) (Extension.history st)) as (chunks & -> & Hc).
  set (st0 := Extension.emit _ st).
  specialize (Hc st0).
  pose proof (read_stream_grows chunks Extension.start_decoding st0)
    as (_ & es & E & F & _).
  pose proof (read_stream_history chunks Extension.start_decoding st0) as Hh.
  destruct (Extension.read_stream _ _ _) as [d st1]. cbn [fst snd] in *.
  rewrite Hc. cbn [Extension.named_calls length Nat.ltb Nat.leb].
  set (st2 := Extension.push _ st1).
  exists st2, es, (Extension.fullContent d).
  assert (Extension.history st2
          = Extension.history st
            ++ [Extension.assistant_message (Extension.fullContent d) None])
    as Hh2 by (subst st2; simpl; by rewrite Hh).
  split.
  - rewrite Hh2, hadError_app. simpl. by rewrite orb_false_r.
  - split; [|by split]. subst st2. simpl. rewrite E. subst st0. simpl.
    by rewrite <-(assoc_L (++)).
Qed.

Lemma run_after_an_error k budget loopCount st :
  (∀ n history, Notion.answers_in_text (Extension.fetch n history)) →
  Extension.hadError (Extension.history st) = true →
  loopCount + k = 9 → k < budget →
  ∃ st' es,
    Extension.run budget loopCount st = Extension.finished st'
    ∧ Extension.trace st' = Extension.trace st ++ es
    ∧ Spec.count Spec.is_fetch es = S k
    ∧ Spec.count Notion.is_warning (Extension.history st')
      = Spec.count Notion.is_warning (Extension.history st) + k.
Proof.
  intros Hm. revert budget loopCount st.
  induction k as [|k IH]; intros budget loopCount st He Hk Hb;
    (destruct budget as [|budget]; [lia|]);
    destruct (run_on_text budget loopCount st Hm)
      as (st2 & es & content & -> & E & F & Hh); rewrite He.
  - destruct (Nat.ltb_spec (S loopCount) 10) as [|_]; [lia|]. cbn [andb].
    exists (Extension.emit (Extension.Post Extension.done) st2),
      ((Extension.Fetch (S loopCount) (Extension.history st) :: es)
       ++ [Extension.Post Extension.done]).
    split; [done|]. split; [|split].
    + simpl. rewrite E. by rewrite <-(assoc_L (++)).
    + rewrite count_app, !count_cons, F. done.
    + simpl. rewrite Hh, count_app, count_cons. simpl.
      change (Spec.count Notion.is_warning []) with 0. lia.
  - destruct (Nat.ltb_spec (S loopCount) 10) as [_|]; [|lia]. cbn [andb].
    set (st3 := Extension.push _ st2).
    destruct (IH budget (S loopCount) st3) as (st' & es' & -> & E' & F' & W');
      [|lia|lia|].
    { subst st3. simpl. rewrite Hh, !hadError_app, He. done. }
    exists st',
      ((Extension.Fetch (S loopCount) (Extension.history st) :: es) ++ es').
    split; [done|]. split; [|split].
    + rewrite E'. subst st3. simpl. rewrite E.
      by rewrite <-(assoc_L (++)).
    + rewrite count_app, count_cons, F, F'. simpl. lia.
    + rewrite W'. subst st3. simpl. rewrite Hh, !count_app, !count_cons.
      simpl. rewrite ?String.eqb_refl.
      change (Spec.count Notion.is_warning []) with 0. lia.
Qed.

End text_answers.

(** X21: the test on errors that follows an answer without tool calls looks
    at every tool message of the transcript.  So with a model that now
    answers in text, a transcript that holds the error of a tool, however
    old, makes the loop of the extension add its warning and ask again,
    nine times: it sends ten requests before it returns.  On a transcript
    without an error the first answer in text ends the loop, after one
    request. *)
Theorem an_old_error_costs_ten_requests `{Platform} `{Extension.Host}
    (st : Extension.state) :
  (∀ n history, Notion.answers_in_text (Extension.fetch n history)) →
  ∃ st' es,
    Extension.run Extension.maxLoops 0 st = Extension.finished st'
    ∧ Extension.trace st' = Extension.trace st ++ es
    ∧ if Extension.hadError (Extension.history st)
      then Spec.count Spec.is_fetch es = 10
           ∧ Spec.count Notion.is_warning (Extension.history st')
             = Spec.count Notion.is_warning (Extension.history st) + 9
      else Spec.count Spec.is_fetch es = 1
           ∧ Spec.count Notion.is_warning (Extension.history st')
             = Spec.count Notion.is_warning (Extension.history st).
Proof.
  intros Hm. destruct (Extension.hadError (Extension.history st)) eqn:He.
  - destruct (run_after_an_error 9 Extension.maxLoops 0 st Hm He)
      as (st' & es & E & T & F & W); [done|unfold Extension.maxLoops; lia|].
    by exists st', es.
  - unfold Extension.maxLoops.
    destruct (run_on_text 14 0 st Hm) as (st2 & es & content & -> & E & F & Hh).
    rewrite He. cbn [andb].
    exists (Extension.emit (Extension.Post Extension.done) st2),
      ((Extension.Fetch 1 (Extension.history st) :: es)
       ++ [Extension.Post Extension.done]).
    split; [done|]. split; [|split].
    + simpl. rewrite E. by rewrite <-(assoc_L (++)).
    + rewrite count_app, !count_cons, F. done.
    + simpl. rewrite Hh, count_app, count_cons. simpl.
      change (Spec.count Notion.is_warning []) with 0. lia.
Qed.

Lemma talker_answers_in_text n history :
  @Notion.answers_in_text Fixture.talker
    (@Extension.fetch Fixture.talker n history).
Proof.
  eexists. split; [reflexivity|]. intros st. vm_compute. reflexivity.
Qed.

Lemma an_old_error_costs_ten_requests_witness :
  ∃ st' es,
    @Extension.run Sample.platform Fixture.talker 15 0 Fixture.after_an_error
    = Extension.finished st'
    ∧ Extension.trace st' = es
    ∧ Spec.count Spec.is_fetch es = 10.
Proof.
  destruct (@an_old_error_costs_ten_requests Sample.platform Fixture.talker
              Fixture.after_an_error talker_answers_in_text)
    as (st' & es & E & T & F & _).
  exists st', es. split; [exact E|]. split; [exact T|exact F].
Defined.

(** ** Approving a pending edit *)

Lemma map_get_set_ne {V} k k' (v : V) m :
  k ≠ k' → Extension.map_get k (Extension.map_set k' v m) = Extension.map_get k m.
Proof.
  intros Hne. induction m as [|[k0 v0] m IH]; simpl.
  - destruct (String.eqb_spec k' k); [congruence|done].
  - destruct (String.eqb_spec k0 k') as [->|Hn]; simpl.
    + destruct (String.eqb_spec k' k); [congruence|done].
    + by rewrite IH.
Qed.

Lemma uri_file_absolute p : JS.startsWith (Extension.uri_file p) "/" = true.
Proof.
  unfold Extension.uri_file.
  destruct (JS.startsWith p "/") eqn:E; [done|]. reflexivity.
Qed.

(** X22: an edit proposed in secure mode is kept under the path as the
    model wrote it and announced to the webview under the resolved path.
    When the two are the same, approving the edit under the path announced
    writes the content proposed to the file, given that the file is in a
    directory that exists, and takes the edit off the table.  For a relative
    path they differ: an approval under the path announced finds no edit
    (unless another one is kept under that very path) and changes nothing,
    the edit stays pending. *)
Theorem approval_under_the_announced_path
    (st : Extension.state) (root fpath code : string) (names : list string) :
  Extension.securityMode st = Extension.secure →
  Extension.workspaceFolder st = Some root →
  let st' :=
    (Extension._editFile (Some (JS.VStr fpath)) (Some (JS.VStr code)) st).2 in
  let announced := Extension.uri_file (Extension.resolve root fpath) in
  (announced = fpath →
   Extension.files st !! Fs.dirname fpath = Some (Fs.Dir names) →
   (∀ l, Extension.files st !! fpath ≠ Some (Fs.Dir l)) →
   Extension.files (Extension.receive (Extension.approveEdit announced) st')
     !! fpath = Some (Fs.File code)
   ∧ Extension.map_get fpath
       (Extension.pendingEdits
          (Extension.receive (Extension.approveEdit announced) st')) = None)
  ∧ (JS.startsWith fpath "/" = false →
     Extension.map_get announced (Extension.pendingEdits st) = None →
     Extension.receive (Extension.approveEdit announced) st' = st'
     ∧ ∃ pending, Extension.map_get fpath (Extension.pendingEdits st')
                  = Some pending
                  ∧ Extension.newContent pending = code).
Proof.
  intros Hm Hw st' announced.
  destruct (editFile_secure st root fpath code Hm Hw)
    as (st1 & pending & lang & E & Hf & Ht & Hp & Hc & _).
  assert (st' = st1) as -> by (subst st'; by rewrite E).
  split.
  - intros Hsame Hd Hn.
    assert (JS.startsWith fpath "/" = true) as Ha.
    { rewrite <-Hsame at 1. apply uri_file_absolute. }
    rewrite Hsame.
    unfold Extension.receive, Extension._writePendingEdit.
    rewrite Hp, Hc.
    assert (Extension.uri_file fpath = fpath) as ->
      by (unfold Extension.uri_file; by rewrite Ha).
    assert (∃ fs2, Fs.writeFileSync (Extension.files st1) fpath code = Ret fs2)
      as [fs2 Ew].
    { rewrite Hf. unfold Fs.writeFileSync.
      destruct (Extension.files st !! fpath) as [[c|l]|] eqn:Ep; [by eauto| |].
      - by destruct (Hn l).
      - rewrite Hd. by eauto. }
    unfold Extension.fs_writeFile, Fs.existsSync. rewrite Hf, Hd, bind_Ret.
    rewrite <-Hf, Ew, bind_Ret. simpl.
    split; [by apply writeFileSync_lookup in Ew|]. apply map_get_delete.
  - intros Ha Hnone.
    assert (announced ≠ fpath) as Hne.
    { intros Heq. pose proof (uri_file_absolute (Extension.resolve root fpath))
        as Habs. fold announced in Habs. rewrite Heq in Habs. congruence. }
    split; [|by eauto].
    unfold Extension.receive, Extension._writePendingEdit.
    assert (Extension.map_get announced (Extension.pendingEdits st1) = None)
      as ->; [|done].
    revert E. unfold Extension._editFile, Extension.target.
    rewrite Hw, Hm. simpl. intros [= <-]. simpl.
    by rewrite map_get_set_ne.
Qed.

Lemma approval_under_the_announced_path_witness :
  Extension.files
    (Extension.receive (Extension.approveEdit "/ws/a.txt")
       (Extension._editFile (Some (JS.VStr "/ws/a.txt"))
          (Some (JS.VStr "cost: 6")) (Sample.editor Extension.secure)).2)
    !! "/ws/a.txt" = Some (Fs.File "cost: 6")
  ∧ Extension.receive (Extension.approveEdit "/ws/a.txt")
      (Extension._editFile (Some (JS.VStr "a.txt"))
         (Some (JS.VStr "cost: 6")) (Sample.editor Extension.secure)).2
    = (Extension._editFile (Some (JS.VStr "a.txt"))
         (Some (JS.VStr "cost: 6")) (Sample.editor Extension.secure)).2.
Proof.
  split.
  - apply (approval_under_the_announced_path
             (Sample.editor Extension.secure) "/ws" "/ws/a.txt" "cost: 6"
             ["b.txt"; "node_modules"; "A"; "a.txt"; "ghost"]);
      try reflexivity.
    intros l. vm_compute. discriminate.
  - apply (approval_under_the_announced_path
             (Sample.editor Extension.secure) "/ws" "a.txt" "cost: 6" []);
      reflexivity.
Defined.

(** ** The project structure of the system prompt *)

Lemma concat_imap_length {A B} (f : nat → A → list B) (l : list A) k :
  (∀ i x, x ∈ l → length (f i x) ≤ k) →
  length (concat (imap f l)) ≤ length l * k.
Proof.
  revert f. induction l as [|a l IH]; intros f Hf; simpl; [lia|].
  rewrite length_app.
  pose proof (Hf 0 a ltac:(left)).
  pose proof (IH (f ∘ S) (λ i x Hx, Hf (S i) x ltac:(by right))).
  lia.
Qed.

Lemma concat_imap_Forall {A B} (P : B → Prop) (f : nat → A → list B)
    (l : list A) :
  (∀ i x, x ∈ l → Forall P (f i x)) → Forall P (concat (imap f l)).
Proof.
  revert f. induction l as [|a l IH]; intros f Hf; simpl; [done|].
  apply Forall_app. split; [apply Hf; left|].
  apply IH. intros i x Hx. apply Hf. by right.
Qed.

Lemma structure_pieces_length budget fs dir prefix :
  length (Api.structure_pieces budget fs dir prefix) ≤ Notion.structure_bound budget.
Proof.
  revert dir prefix. induction budget as [|b IH]; intros dir prefix;
    [simpl; lia|].
  change (Notion.structure_bound (S b)) with (20 * (1 + Notion.structure_bound b)).
  cbn [Api.structure_pieces].
  destruct (Fs.readdirSync fs dir) as [names|m]; [|simpl; lia].
  cbv zeta.
  set (items := take 20 (filter _ names)).
  etrans; [apply (concat_imap_length _ _ (1 + Notion.structure_bound b))|].
  - intros i x _.
    destruct (Fs.statSync_isDirectory fs (Fs.join dir x)) as [[]|];
      simpl; [|lia..].
    specialize (IH (Fs.join dir x)
      (prefix +:+ (if bool_decide (i = length items - 1)
                   then Api.blank else Api.bar))). lia.
  - assert (length items ≤ 20) by (subst items; rewrite length_take; lia).
    nia.
Qed.

Lemma one_line_app a b :
  Notion.one_line (a +:+ b) = Notion.one_line a && Notion.one_line b.
Proof.
  induction a as [|c a IH]; [done|]. simpl. rewrite IH.
  by rewrite andb_assoc.
Qed.

Lemma split_lines_one_line line rest :
  Notion.one_line line = true →
  JS.split_lines (line +:+ Extension.nl +:+ rest)
  = line :: JS.split_lines rest.
Proof.
  induction line as [|c line IH]; intros Hl; [done|].
  simpl in Hl. apply andb_true_iff in Hl as [Hc Hl].
  simpl. destruct (Ascii.eqb c JS.newline); [done|].
  by rewrite (IH Hl).
Qed.

Lemma split_lines_pieces (P : string → Prop) pieces :
  Forall (λ piece, ∃ line, piece = line +:+ Extension.nl
                           ∧ Notion.one_line line = true ∧ P line) pieces →
  ∃ lines,
    JS.split_lines (foldr String.append "" pieces) = lines ++ [""]
    ∧ length lines = length pieces
    ∧ Forall P lines.
Proof.
  induction 1 as [|piece pieces (line & -> & Hl & HP) _ (lines & E & Hn & Hf)].
  { by exists []. }
  exists (line :: lines).
  change (foldr String.append "" ((line +:+ Extension.nl) :: pieces))
    with ((line +:+ Extension.nl) +:+ foldr String.append "" pieces).
  rewrite string_app_assoc, (split_lines_one_line _ _ Hl), E. simpl.
  split; [done|]. split; [by rewrite Hn|by constructor].
Qed.

Lemma indentation_snoc units u :
  Notion.indentation units +:+ u = Notion.indentation (units ++ [u]).
Proof.
  unfold Notion.indentation. rewrite foldr_app.
  change (foldr String.append "" [u]) with (u +:+ "").
  rewrite string_app_nil_r.
  induction units as [|v units IH]; [done|].
  simpl foldr. by rewrite string_app_assoc, IH.
Qed.

Lemma entry_at_indented units depth mark item :
  Forall (λ u, u = Api.bar ∨ u = Api.blank) units →
  length units ≤ depth →
  mark = Api.tee ∨ mark = Api.elbow →
  Notion.entry_at depth (Notion.indentation units +:+ mark +:+ item)
  = Some item.
Proof.
  intros Hu. revert depth.
  induction Hu as [|u units Hu _ IH]; intros depth Hd Hm.
  - destruct depth, Hm as [-> | ->]; reflexivity.
  - destruct depth as [|depth]; [simpl in Hd; lia|].
    simpl in Hd. specialize (IH depth ltac:(lia) Hm).
    unfold Notion.indentation in *. simpl foldr.
    rewrite string_app_assoc.
    destruct Hu as [-> | ->]; exact IH.
Qed.

Lemma one_line_indented units mark item :
  Forall (λ u, u = Api.bar ∨ u = Api.blank) units →
  mark = Api.tee ∨ mark = Api.elbow →
  Notion.one_line item = true →
  Notion.one_line (Notion.indentation units +:+ mark +:+ item) = true.
Proof.
  intros Hu Hm Hi. rewrite !one_line_app, Hi, andb_true_r.
  apply andb_true_iff. split; [|by destruct Hm as [-> | ->]].
  induction Hu as [|u units Hu _ IH]; [done|].
  unfold Notion.indentation in *. simpl.
  rewrite one_line_app, IH, andb_true_r.
  by destruct Hu as [-> | ->].
Qed.

Lemma structure_pieces_lines budget fs dir units :
  Notion.names_one_line fs →
  Forall (λ u, u = Api.bar ∨ u = Api.blank) units →
  length units + budget ≤ 3 →
  Forall (λ piece, ∃ line,
            piece = line +:+ Extension.nl
            ∧ Notion.one_line line = true
            ∧ ∃ item, Notion.entry_of line = Some item
                      ∧ Server.ignored item = false
                      ∧ Notion.listed fs item)
    (Api.structure_pieces budget fs dir (Notion.indentation units)).
Proof.
  intros Hfs. revert dir units.
  induction budget as [|b IH]; intros dir units Hu Hd; [by constructor|].
  cbn [Api.structure_pieces].
  unfold Fs.readdirSync.
  destruct (fs !! dir) as [[content|names]|] eqn:Edir;
    [by constructor| |by constructor].
  cbv zeta. apply concat_imap_Forall. intros i x Hx.
  apply subseteq_take, list_elem_of_filter in Hx as [Hx Hin].
  assert (Notion.one_line x = true) as Hone.
  { pose proof (Hfs dir _ Edir) as Hall. simpl in Hall.
    rewrite forallb_forall in Hall. apply Hall.
    by apply list_elem_of_In. }
  destruct (Fs.statSync_isDirectory fs (Fs.join dir x)) as [isDir|];
    [|by constructor].
  set (isLast := bool_decide _).
  constructor.
  - exists (Notion.indentation units
            +:+ (if isLast then Api.elbow else Api.tee) +:+ x).
    split; [by rewrite !string_app_assoc|].
    assert ((if isLast then Api.elbow else Api.tee) = Api.tee
            ∨ (if isLast then Api.elbow else Api.tee) = Api.elbow) as Hm
      by (destruct isLast; auto).
    split; [by apply one_line_indented|].
    exists x. split; [apply entry_at_indented; [done|lia|done]|].
    split; [done|]. by exists dir, names.
  - destruct isDir; [|by constructor].
    rewrite indentation_snoc.
    apply IH.
    + apply Forall_app. split; [done|]. constructor; [|done].
      destruct isLast; auto.
    + rewrite length_app. simpl. lia.
Qed.

(** X23: the project structure the chat endpoint puts in the system prompt,
    of a workspace none of whose names has a line feed in it: the text is a
    run of lines, each closed by its line feed, at most 8420 of them (twenty
    entries of a directory, three levels) whatever the size of the workspace;
    each line reads as at most two steps of indentation, a branch mark and a
    name, and the name is one that a directory lists and is none of
    [node_modules], [.git], [.next], [dist], [build] and [.cache].  A
    workspace that cannot be read gives the empty text. *)
Theorem project_structure_is_bounded (fs : Fs.t) (dir : string)
    (Hnames : Notion.names_one_line fs) :
  (∃ lines,
      JS.split_lines (Api.getProjectStructure fs dir) = lines ++ [""]
      ∧ length lines ≤ 8420
      ∧ Forall (λ line, ∃ item,
                  Notion.entry_of line = Some item
                  ∧ item ∉ ["node_modules"; ".git"; ".next"; "dist"; "build";
                            ".cache"]
                  ∧ Notion.listed fs item) lines)
  ∧ (∀ m, Fs.readdirSync fs dir = Throw m →
          Api.getProjectStructure fs dir = "").
Proof.
  split.
  - pose proof (structure_pieces_lines 3 fs dir [] Hnames
                  ltac:(constructor) ltac:(simpl; lia)) as Hp.
    apply split_lines_pieces in Hp as (lines & E & Hn & Hf).
    exists lines. split; [exact E|]. split.
    + rewrite Hn. apply (structure_pieces_length 3).
    + eapply Forall_impl; [exact Hf|].
      intros line (item & He & Hi & Hl). exists item.
      split; [done|]. split; [|done]. unfold Server.ignored in Hi.
      by apply bool_decide_eq_false in Hi.
  - intros m Hm. unfold Api.getProjectStructure. simpl. by rewrite Hm.
Qed.

Lemma project_structure_is_bounded_witness :
  (∃ lines,
      JS.split_lines (Api.getProjectStructure Fixture.project "/p")
      = lines ++ [""]
      ∧ length lines ≤ 8420
      ∧ Forall (λ line, ∃ item,
                  Notion.entry_of line = Some item
                  ∧ item ∉ ["node_modules"; ".git"; ".next"; "dist"; "build";
                            ".cache"]
                  ∧ Notion.listed Fixture.project item) lines)
  ∧ JS.split_lines (Api.getProjectStructure Fixture.project "/p")
    = [Api.tee +:+ "src"; Api.bar +:+ Api.elbow +:+ "index.js";
       Api.elbow +:+ "README.md"; ""].
Proof.
  split; [|reflexivity].
  apply (project_structure_is_bounded Fixture.project "/p").
  intros p node Hp. apply elem_of_list_to_map_2 in Hp.
  repeat (apply elem_of_cons in Hp as [Hp|Hp];
          [by injection Hp as -> ->|]).
  by apply elem_of_nil in Hp.
Defined.
